(** * partner-sync-ai: the ingest engine of [ingest.py]

    A shallow embedding of the sample-to-record parser, of the path
    flattener, of the canonical builder and of the schema validator, with
    the properties of the specification stated over it; and of what stands
    around them: the normalization of field names, the extraction of JSON
    from the text of a model, the SFTP and REST handlers, the nested
    assignment of the transform script and the log of the interface.

    Python values are modelled as the interpreter has them:
    - [str] is a sequence of Unicode code points ([pystr], a list of [N]);
    - [bytes] is a list of [Byte.byte];
    - [int] is [Z]; [float] is a binary64 number ([spec_float]);
    - a [dict] keeps insertion order and has unique keys: an association
      list updated in place by [dict_set];
    - a [dict] that the builder writes to lives in a store ([heap]) and is
      named by its location, so that aliasing is visible.

    What the engine calls in the Python library ([json.loads],
    [ET.fromstring], [csv.DictReader], [jsonschema.validate], [int],
    [float], [str.isdigit], [repr]) and the file system are parameters of
    the definitions, and every theorem holds for all of them. The codecs
    and the string methods are written out. *)

From Stdlib Require Import NArith ZArith List String Ascii Bool Lia.
From Stdlib.Strings Require Import Byte.
From Stdlib.Floats Require SpecFloat.
From stdpp Require Import base option list.
Import ListNotations.
Local Open Scope N_scope.
Set Warnings "-register-all".

(** ** Python strings *)

Module Py.

Definition pystr := list N.

(** A literal: the code points of an ASCII string. *)
Definition lit (x : string) : pystr :=
  List.map N_of_ascii (list_ascii_of_string x).

Fixpoint str_eqb (a b : pystr) : bool :=
  match a, b with
  | [], [] => true
  | x :: a', y :: b' => (x =? y) && str_eqb a' b'
  | _, _ => false
  end.

(** [s.startswith(p)] *)
Fixpoint startswith (p s : pystr) : bool :=
  match p, s with
  | [], _ => true
  | x :: p', y :: s' => (x =? y) && startswith p' s'
  | _ :: _, [] => false
  end.

(** [str.isspace] on one code point (the Unicode White_Space set plus the
    four information separators, as CPython's [Py_UNICODE_ISSPACE]). *)
Definition is_space (c : N) : bool :=
  ((0x09 <=? c) && (c <=? 0x0D)) || ((0x1C <=? c) && (c <=? 0x20))
  || (c =? 0x85) || (c =? 0xA0) || (c =? 0x1680)
  || ((0x2000 <=? c) && (c <=? 0x200A))
  || (c =? 0x2028) || (c =? 0x2029) || (c =? 0x202F) || (c =? 0x205F)
  || (c =? 0x3000).

Fixpoint lstrip (s : pystr) : pystr :=
  match s with
  | c :: s' => if is_space c then lstrip s' else s
  | [] => []
  end.

Definition rstrip (s : pystr) : pystr := rev (lstrip (rev s)).

(** [s.strip()] *)
Definition strip (s : pystr) : pystr := rstrip (lstrip s).

(** The line boundaries of [str.splitlines]. *)
Definition is_linebreak (c : N) : bool :=
  ((0x0A <=? c) && (c <=? 0x0D)) || ((0x1C <=? c) && (c <=? 0x1E))
  || (c =? 0x85) || (c =? 0x2028) || (c =? 0x2029).

(** [s.splitlines()]: every boundary closes a line (CR LF counts once); what
    follows the last boundary is a line only when it is not empty. [acc] is
    the current line, reversed. *)
Fixpoint splitlines_from (acc : pystr) (s : pystr) : list pystr :=
  match s with
  | [] => match acc with [] => [] | _ => [rev acc] end
  | c :: s' =>
      if c =? 0x0D then
        match s' with
        | d :: s'' =>
            if d =? 0x0A then rev acc :: splitlines_from [] s''
            else rev acc :: splitlines_from [] s'
        | [] => rev acc :: splitlines_from [] s'
        end
      else if is_linebreak c then rev acc :: splitlines_from [] s'
      else splitlines_from (c :: acc) s'
  end.

Definition splitlines (s : pystr) : list pystr := splitlines_from [] s.

(** [sep.join(parts)] *)
Fixpoint join (sep : pystr) (parts : list pystr) : pystr :=
  match parts with
  | [] => []
  | [p] => p
  | p :: rest => p ++ sep ++ join sep rest
  end.

(** [s.count(c)] for a pattern of one character. *)
Fixpoint count_char (c : N) (s : pystr) : Z :=
  match s with
  | [] => 0%Z
  | x :: s' => ((if N.eqb x c then 1 else 0) + count_char c s')%Z
  end.

(** [s.split(c)] for a separator of one character: never the empty list.
    [acc] is the current field, reversed. *)
Fixpoint split_from (c : N) (acc : pystr) (s : pystr) : list pystr :=
  match s with
  | [] => [rev acc]
  | x :: s' =>
      if x =? c then rev acc :: split_from c [] s'
      else split_from c (x :: acc) s'
  end.

Definition split (c : N) (s : pystr) : list pystr := split_from c [] s.

(** [s.replace(a, b)] for [a] and [b] of one character each. *)
Definition replace_char (a b : N) (s : pystr) : pystr :=
  List.map (fun x => if x =? a then b else x) s.

(** [s.replace(a, e)] for [a] of one character and [e] the empty string. *)
Definition remove_char (a : N) (s : pystr) : pystr :=
  List.filter (fun x => negb (x =? a)) s.

(** [x[:n]] on a list, with Python's reading of a negative bound. *)
Definition slice_to {A} (n : Z) (l : list A) : list A :=
  if (0 <=? n)%Z then firstn (Z.to_nat n) l
  else firstn (length l - Z.to_nat (- n)) l.

(** [x[a:b]] for [0 <= a], with Python's reading of a negative [b]. *)
Definition slice_from_to {A} (a : nat) (b : Z) (l : list A) : list A :=
  skipn a (slice_to b l).

(** Decimal digits of a natural number, as [str(i)] prints them. *)
Fixpoint digits_fuel (fuel : nat) (n : N) (acc : pystr) : pystr :=
  match fuel with
  | O => acc
  | S f =>
      let acc' := (0x30 + n mod 10) :: acc in
      if n <? 10 then acc' else digits_fuel f (n / 10) acc'
  end.

Definition str_of_N (n : N) : pystr := digits_fuel (S (N.to_nat (N.log2 n))) n [].

Definition str_of_Z (z : Z) : pystr :=
  if (z <? 0)%Z then 0x2D :: str_of_N (Z.to_N (- z)) else str_of_N (Z.to_N z).

End Py.
Export Py.

(** ** Encoding and text recovery *)

Module Encoding.

Definition bytes := list byte.

Definition ords (b : bytes) : list N := List.map Byte.to_N b.

Definition is_cont (b : N) : bool := (0x80 <=? b) && (b <=? 0xBF).

Definition in_range (lo hi b : N) : bool := (lo <=? b) && (b <=? hi).

(** [bytes.decode("utf-8")], strict: shortest forms only, no surrogates,
    nothing above U+10FFFF. [None] is [UnicodeDecodeError]. *)
Fixpoint utf8_decode (b : list N) : option pystr :=
  match b with
  | [] => Some []
  | b0 :: r0 =>
      if b0 <? 0x80 then cons b0 <$> utf8_decode r0
      else if b0 <? 0xC2 then None
      else if b0 <? 0xE0 then
        match r0 with
        | b1 :: r1 =>
            if is_cont b1
            then cons ((b0 - 0xC0) * 64 + (b1 - 0x80)) <$> utf8_decode r1
            else None
        | _ => None
        end
      else if b0 <? 0xF0 then
        match r0 with
        | b1 :: b2 :: r2 =>
            let lo := if b0 =? 0xE0 then 0xA0 else 0x80 in
            let hi := if b0 =? 0xED then 0x9F else 0xBF in
            if in_range lo hi b1 && is_cont b2
            then cons ((b0 - 0xE0) * 4096 + (b1 - 0x80) * 64 + (b2 - 0x80))
                   <$> utf8_decode r2
            else None
        | _ => None
        end
      else if b0 <? 0xF5 then
        match r0 with
        | b1 :: b2 :: b3 :: r3 =>
            let lo := if b0 =? 0xF0 then 0x90 else 0x80 in
            let hi := if b0 =? 0xF4 then 0x8F else 0xBF in
            if in_range lo hi b1 && is_cont b2 && is_cont b3
            then cons ((b0 - 0xF0) * 262144 + (b1 - 0x80) * 4096
                       + (b2 - 0x80) * 64 + (b3 - 0x80))
                   <$> utf8_decode r3
            else None
        | _ => None
        end
      else None
  end.

(** [bytes.decode("utf-8-sig")]: one leading EF BB BF is dropped. *)
Definition utf8_sig_decode (b : list N) : option pystr :=
  match b with
  | 0xEF :: 0xBB :: 0xBF :: r => utf8_decode r
  | _ => utf8_decode b
  end.

(** The upper half of code page 1252; five bytes have no character. *)
Definition cp1252_high (b : N) : option N :=
  match b with
  | 0x80 => Some 0x20AC | 0x81 => None | 0x82 => Some 0x201A
  | 0x83 => Some 0x0192 | 0x84 => Some 0x201E | 0x85 => Some 0x2026
  | 0x86 => Some 0x2020 | 0x87 => Some 0x2021 | 0x88 => Some 0x02C6
  | 0x89 => Some 0x2030 | 0x8A => Some 0x0160 | 0x8B => Some 0x2039
  | 0x8C => Some 0x0152 | 0x8D => None | 0x8E => Some 0x017D
  | 0x8F => None | 0x90 => None | 0x91 => Some 0x2018
  | 0x92 => Some 0x2019 | 0x93 => Some 0x201C | 0x94 => Some 0x201D
  | 0x95 => Some 0x2022 | 0x96 => Some 0x2013 | 0x97 => Some 0x2014
  | 0x98 => Some 0x02DC | 0x99 => Some 0x2122 | 0x9A => Some 0x0161
  | 0x9B => Some 0x203A | 0x9C => Some 0x0153 | 0x9D => None
  | 0x9E => Some 0x017E | 0x9F => Some 0x0178
  | _ => Some b
  end.

(** [bytes.decode("cp1252")], strict. *)
Fixpoint cp1252_decode (b : list N) : option pystr :=
  match b with
  | [] => Some []
  | x :: r =>
      match cp1252_high x with
      | Some c => cons c <$> cp1252_decode r
      | None => None
      end
  end.

(** [bytes.decode("latin-1")]: every byte is its own code point, so neither
    the strict nor the replacing decoder can fail. *)
Definition latin1_decode (b : list N) : option pystr := Some b.

Definition latin1_decode_replace (b : list N) : pystr := b.

Definition utf16_unit (le : bool) (x y : N) : N :=
  if le then y * 256 + x else x * 256 + y.

Definition is_high_surrogate (c : N) : bool := in_range 0xD800 0xDBFF c.
Definition is_low_surrogate (c : N) : bool := in_range 0xDC00 0xDFFF c.

(** The body of the UTF-16 decoder with [errors="replace"]: a lone low
    surrogate and a high surrogate not followed by a low one give U+FFFD
    for that one unit; a high surrogate at the end of the data and an odd
    trailing byte give one U+FFFD for what is left. *)
Fixpoint utf16_body (le : bool) (b : list N) : pystr :=
  match b with
  | [] => []
  | [_] => [0xFFFD]
  | x :: y :: r =>
      let ch := utf16_unit le x y in
      if is_high_surrogate ch then
        match r with
        | x2 :: y2 :: r2 =>
            let ch2 := utf16_unit le x2 y2 in
            if is_low_surrogate ch2
            then (0x10000 + (ch - 0xD800) * 1024 + (ch2 - 0xDC00))
                   :: utf16_body le r2
            else 0xFFFD :: utf16_body le r
        | _ => [0xFFFD]
        end
      else if is_low_surrogate ch then 0xFFFD :: utf16_body le r
      else ch :: utf16_body le r
  end.

(** [bytes.decode("utf-16", errors="replace")]: a byte-order mark chooses
    the byte order and is consumed; without one the order is the machine's
    (little-endian). *)
Definition utf16_decode_replace (b : list N) : pystr :=
  match b with
  | 0xFF :: 0xFE :: r => utf16_body true r
  | 0xFE :: 0xFF :: r => utf16_body false r
  | _ => utf16_body true b
  end.

(** The [for enc in (...): try: return b.decode(enc) except: continue] loop:
    the first decoder that does not raise. *)
Fixpoint first_decoding (decs : list (list N -> option pystr)) (b : list N)
  : option pystr :=
  match decs with
  | [] => None
  | d :: rest =>
      match d b with
      | Some t => Some t
      | None => first_decoding rest b
      end
  end.

(** [read_file_bytes_to_text], on the bytes that [p.read_bytes()] returned. *)
Definition read_file_bytes_to_text (raw : bytes) : pystr :=
  let b := ords raw in
  if startswith [0xFF; 0xFE] b || startswith [0xFE; 0xFF] b then
    let text := utf16_decode_replace b in
    remove_char 0 text
  else
    match first_decoding
            [utf8_sig_decode; utf8_decode; cp1252_decode; latin1_decode] b with
    | Some text => text
    | None => latin1_decode_replace b
    end.

End Encoding.

(** ** Python values *)

Module Value.

Definition pyfloat := SpecFloat.spec_float.

(** Values as [json.loads], the XML flattener and the CSV reader build
    them: trees, never shared. *)
Inductive pyval : Type :=
| PNone
| PBool (b : bool)
| PInt (z : Z)
| PFloat (f : pyfloat)
| PStr (s : pystr)
| PList (l : list pyval)
| PDict (d : list (pystr * pyval)).

Inductive exn : Type :=
| FileNotFoundError
| RuntimeError
| ValidationError
| SchemaError
| OtherError.

(** The outcome of a call that may raise. *)
Inductive result (A : Type) : Type :=
| Ok (a : A)
| Raise (e : exn).
Arguments Ok {A} a.
Arguments Raise {A} e.

Section Dict.
Context {V : Type}.

Definition dict := list (pystr * V).

(** [d.get(k)], with [None] of [option] for a missing key; [k in d] is
    [dict_get d k <> None] and [d[k]] its value. *)
Fixpoint dict_get (d : dict) (k : pystr) : option V :=
  match d with
  | [] => None
  | (k', v) :: d' => if str_eqb k' k then Some v else dict_get d' k
  end.

Definition dict_mem (d : dict) (k : pystr) : bool :=
  match dict_get d k with Some _ => true | None => false end.

(** [d[k] = v]: a key already there keeps its place, a new one goes last. *)
Fixpoint dict_set (d : dict) (k : pystr) (v : V) : dict :=
  match d with
  | [] => [(k, v)]
  | (k', v') :: d' =>
      if str_eqb k' k then (k, v) :: d' else (k', v') :: dict_set d' k v
  end.

(** [d.update(items)] and [dict(items)]. *)
Definition dict_update (d : dict) (items : list (pystr * V)) : dict :=
  fold_left (fun acc kv => dict_set acc (fst kv) (snd kv)) items d.

Definition dict_of_items (items : list (pystr * V)) : dict :=
  dict_update [] items.

Definition dict_values (d : dict) : list V := List.map snd d.

End Dict.
Arguments dict V : clear implicits.

(** Induction on values, through lists and dicts. *)
Section PyvalInd.
Variable P : pyval -> Prop.
Hypothesis Hnone : P PNone.
Hypothesis Hbool : forall b, P (PBool b).
Hypothesis Hint : forall z, P (PInt z).
Hypothesis Hfloat : forall f, P (PFloat f).
Hypothesis Hstr : forall s, P (PStr s).
Hypothesis Hlist : forall l, Forall P l -> P (PList l).
Hypothesis Hdict : forall d, Forall (fun kv => P (snd kv)) d -> P (PDict d).

Fixpoint pyval_nested_ind (v : pyval) : P v :=
  match v with
  | PNone => Hnone
  | PBool b => Hbool b
  | PInt z => Hint z
  | PFloat f => Hfloat f
  | PStr s => Hstr s
  | PList l =>
      Hlist l
        ((fix all (l : list pyval) : Forall P l :=
            match l with
            | [] => Forall_nil_2 P
            | x :: l' => Forall_cons_2 P x l' (pyval_nested_ind x) (all l')
            end) l)
  | PDict d =>
      Hdict d
        ((fix all (d : list (pystr * pyval))
            : Forall (fun kv => P (snd kv)) d :=
            match d with
            | [] => Forall_nil_2 _
            | kv :: d' =>
                Forall_cons_2 _ kv d' (pyval_nested_ind (snd kv)) (all d')
            end) d)
  end.
End PyvalInd.

Definition is_list (v : pyval) : bool :=
  match v with PList _ => true | _ => false end.

End Value.
Export Value.

(** ** Delimiter detection *)

Module Delimiter.

Definition COMMA : N := 0x2C.
Definition TAB : N := 0x09.
Definition SEMICOLON : N := 0x3B.
Definition PIPE : N := 0x7C.

(** The candidates in the order of the source's loop. *)
Definition candidates : list N := [COMMA; TAB; SEMICOLON; PIPE].

Definition nonblank (ln : pystr) : bool :=
  match strip ln with [] => false | _ => true end.

(** [[ln for ln in text.splitlines() if ln.strip()]] *)
Definition nonblank_lines (text : pystr) : list pystr :=
  List.filter nonblank (splitlines text).

(** [sample] of [detect_csv_delimiter]. *)
Definition sample_of (text : pystr) : pystr :=
  match nonblank_lines text with
  | [] => firstn 2000 text
  | lines => join [0x0A] (firstn 10 lines)
  end.

(** One turn of the loop over the candidates. *)
Definition better (sample : pystr) (st : N * Z) (c : N) : N * Z :=
  let cnt := count_char c sample in
  if (snd st <? cnt)%Z then (c, cnt) else st.

(** [detect_csv_delimiter]; the result is the character of the one-character
    string the source returns. *)
Definition detect_csv_delimiter (text : pystr) : N :=
  let sample := sample_of text in
  fst (fold_left (better sample) candidates (COMMA, (-1)%Z)).

End Delimiter.

(** ** Path flattener *)

Module Flatten.

Definition DOT : N := 0x2E.
Definition UNDERSCORE : N := 0x5F.

(** [f"{prefix}.{k}" if prefix else k] *)
Definition key_prefix (prefix k : pystr) : pystr :=
  match prefix with
  | [] => k
  | _ => prefix ++ [DOT] ++ k
  end.

(** [f"{prefix}[{i}]" if prefix else f"[{i}]"] *)
Definition index_prefix (prefix : pystr) (i : N) : pystr :=
  match prefix with
  | [] => [0x5B] ++ str_of_N i ++ [0x5D]
  | _ => prefix ++ [0x5B] ++ str_of_N i ++ [0x5D]
  end.

(** The inner [_flatten] of [flatten_record]. *)
Fixpoint _flatten (obj : pyval) (prefix : pystr) : list (pystr * pyval) :=
  match obj with
  | PDict d =>
      (fix items (d : list (pystr * pyval)) : list (pystr * pyval) :=
         match d with
         | [] => []
         | (k, v) :: d' => _flatten v (key_prefix prefix k) ++ items d'
         end) d
  | PList l =>
      (fix elems (i : N) (l : list pyval) : list (pystr * pyval) :=
         match l with
         | [] => []
         | item :: l' => _flatten item (index_prefix prefix i) ++ elems (i + 1) l'
         end) 0 l
  | _ => [(prefix, obj)]
  end.

Definition flatten_record (rec : pyval) : dict pyval :=
  dict_of_items (_flatten rec []).

(** What [get_nested_value] needs of a store of objects: [D] names a dict,
    [contents] reads it, [as_dict] is the [isinstance(_, dict)] test and
    [of_dict] the dict as a value. *)
Section Lookup.
Context {D V : Type}.
Variable contents : D -> dict V.
Variable as_dict : V -> option D.
Variable of_dict : D -> V.
Variable none : V.

(** The loop over [parts]: [None] when a segment is not found. *)
Fixpoint walk (current : V) (parts : list pystr) : option V :=
  match parts with
  | [] => Some current
  | part :: rest =>
      match as_dict current with
      | Some d =>
          match dict_get (contents d) part with
          | Some v => walk v rest
          | None => None
          end
      | None => None
      end
  end.

(** [get_nested_value(obj, path)] for a dict [obj] and a [path] that is a
    string or [None]. *)
Definition get_nested_value (obj : D) (path : option pystr) : V :=
  match path with
  | None | Some [] => of_dict obj
  | Some p =>
      match dict_get (contents obj) p with
      | Some v => v
      | None =>
          match walk (of_dict obj) (split DOT p) with
          | Some v => v
          | None =>
              let direct_key := replace_char DOT UNDERSCORE p in
              match dict_get (contents obj) direct_key with
              | Some v => v
              | None => none
              end
          end
      end
  end.

End Lookup.

(** The lookup over tree values. *)
Definition tree_as_dict (v : pyval) : option (dict pyval) :=
  match v with PDict d => Some d | _ => None end.

Definition lookup (rec : dict pyval) (path : option pystr) : pyval :=
  get_nested_value (fun d => d) tree_as_dict PDict PNone rec path.

End Flatten.

(** ** Sample parsing *)

Module Parse.
Import Encoding Delimiter Flatten.

(** An [xml.etree.ElementTree.Element]: tag, text (or [None]) and children. *)
Inductive element : Type :=
| Element (tag : pystr) (text : option pystr) (children : list element).

(** [flatten_element_to_dict(el, prefix)] *)
Fixpoint flatten_element_to_dict (el : element) (prefix : pystr) : dict pyval :=
  match el with
  | Element _ _ children =>
      (fix each (out : dict pyval) (cs : list element) : dict pyval :=
         match cs with
         | [] => out
         | (Element tag text kids as child) :: cs' =>
             let key := key_prefix prefix tag in
             match kids with
             | [] => each (dict_set out key (PStr (strip (default [] text)))) cs'
             | _ => each (dict_update out (flatten_element_to_dict child key)) cs'
             end
         end) [] children
  end.

(** A row of [csv.DictReader]: a field name ([None] for the surplus cells,
    which the source skips) and a cell ([None] for a missing one). *)
Definition csv_row := list (option pystr * option pystr).

Definition container_keys : list pystr :=
  [lit "shipments"; lit "items"; lit "data"; lit "records"; lit "payload"].

(** The loop over the conventional container keys. *)
Fixpoint first_container (d : dict pyval) (cands : list pystr)
  : option (list pyval) :=
  match cands with
  | [] => None
  | c :: rest =>
      match dict_get d c with
      | Some (PList l) => Some l
      | _ => first_container d rest
      end
  end.

(** [[v for v in obj.values() if isinstance(v, list)]] *)
Fixpoint list_values (d : dict pyval) : list (list pyval) :=
  match d with
  | [] => []
  | (_, PList l) :: d' => l :: list_values d'
  | _ :: d' => list_values d'
  end.

(** What the JSON branch returns for a parsed document; [None] when it
    returns nothing and the next parser is tried. *)
Definition json_records (obj : pyval) (max_rows : Z) : option (list pyval) :=
  match obj with
  | PList l => Some (slice_to max_rows l)
  | PDict d =>
      match first_container d container_keys with
      | Some l => Some (slice_to max_rows l)
      | None =>
          match list_values d with
          | l :: _ => Some (slice_to max_rows l)
          | [] => Some [obj]
          end
      end
  | _ => None
  end.

(** The cleaning of doubled quoting before the XML parse: every pair of
    adjacent double quotes becomes one, left to right ([str.replace]). *)
Fixpoint collapse_quotes (s : pystr) : pystr :=
  match s with
  | 0x22 :: s' =>
      match s' with
      | 0x22 :: s'' => 0x22 :: collapse_quotes s''
      | _ => 0x22 :: collapse_quotes s'
      end
  | c :: s' => c :: collapse_quotes s'
  | [] => []
  end.

(** [x.strip()] without U+FEFF and U+FFFE, for a header cell or a key. *)
Definition clean_key (k : pystr) : pystr :=
  remove_char 0xFFFE (remove_char 0xFEFF (strip k)).

Definition cell_value (v : option pystr) : pyval :=
  match v with Some s => PStr s | None => PNone end.

(** The inner loop over [r.items()]. *)
Definition clean_row (r : csv_row) : dict pyval :=
  fold_left
    (fun clean kv =>
       match fst kv with
       | None => clean
       | Some k => dict_set clean (clean_key k) (cell_value (snd kv))
       end) r [].

(** The test of [any(...)]: the cell, or the empty string for [None],
    is not blank. *)
Definition value_nonblank (v : pyval) : bool :=
  match v with PStr s => nonblank s | _ => false end.

Definition any_nonblank (d : dict pyval) : bool :=
  existsb value_nonblank (dict_values d).

(** The loop over the reader: [reader] are the rows it yields, [raises]
    whether it raises after them; [None] is that exception. The row of index
    [max_rows] is fetched before the [break]. *)
Fixpoint csv_loop (reader : list csv_row) (raises : bool) (i max_rows : Z)
  (rows : list pyval) : option (list pyval) :=
  match reader with
  | [] => if raises then None else Some rows
  | r :: reader' =>
      if (max_rows <=? i)%Z then Some rows
      else
        let clean := clean_row r in
        csv_loop reader' raises (i + 1)%Z max_rows
          (if any_nonblank clean then rows ++ [PDict clean] else rows)
  end.

(** The items of the dict comprehension over [enumerate(header)]:
    [parts[i]], or the empty string past the end of [parts]. *)
Fixpoint header_cells (i : nat) (header parts : list pystr)
  : list (pystr * pyval) :=
  match header with
  | [] => []
  | h :: header' => (h, PStr (nth i parts [])) :: header_cells (S i) header' parts
  end.

(** One line of the manual split. *)
Definition manual_record (delim : N) (header : list pystr) (ln : pystr)
  : dict pyval :=
  let parts := List.map strip (split delim ln) in
  let parts :=
    if (length parts <? length header)%nat
    then parts ++ repeat [] (length header - length parts)
    else parts in
  dict_of_items (header_cells 0 header parts).

(** The [except] branch: split by hand, first line as header. *)
Definition manual_rows (delim : N) (lines : list pystr) (max_rows : Z)
  : list pyval :=
  let header := List.map clean_key (split delim (hd [] lines)) in
  fold_left
    (fun rows ln =>
       let rec := manual_record delim header ln in
       if any_nonblank rec then rows ++ [PDict rec] else rows)
    (slice_from_to 1 (1 + max_rows)%Z lines) [].

Definition nonempty_rows (rows : list pyval) : option (list pyval) :=
  match rows with [] => None | _ => Some rows end.

Definition raw_line_record (ln : pystr) : pyval :=
  PDict [(lit "raw_line", PStr ln)].

Section Parser.
(** The file system: the bytes of a path that exists. *)
Variable fs : pystr -> option bytes.
(** [json.loads]; [None] when it raises. *)
Variable json_loads : pystr -> option pyval.
(** [ET.fromstring]; [None] when it raises. *)
Variable ET_fromstring : pystr -> option element.
(** [csv.DictReader(io.StringIO(txt), delimiter=delim)]: the rows it yields
    and whether it raises after them. *)
Variable csv_DictReader : pystr -> N -> list csv_row * bool.

Definition json_stage (s : pystr) (max_rows : Z) : option (list pyval) :=
  if startswith (lit "{") s || startswith (lit "[") s then
    match json_loads s with
    | Some obj => json_records obj max_rows
    | None => None
    end
  else None.

Definition xml_stage (s : pystr) : option (list pyval) :=
  if startswith (lit "<") s then
    match ET_fromstring (collapse_quotes s) with
    | Some root => Some [PDict (flatten_element_to_dict root [])]
    | None => None
    end
  else None.

Definition delimited_stage (txt : pystr) (lines : list pystr) (max_rows : Z)
  : option (list pyval) :=
  match lines with
  | [] => None
  | _ =>
      let delim := detect_csv_delimiter txt in
      let (reader, raises) := csv_DictReader txt delim in
      match csv_loop reader raises 0%Z max_rows [] with
      | Some rows => nonempty_rows rows
      | None => nonempty_rows (manual_rows delim lines max_rows)
      end
  end.

(** [parse_sample_to_records(path, max_rows)]: the records and the raw
    text. No branch of it raises. *)
Definition parse_sample_to_records (path : pystr) (max_rows : Z)
  : result (list pyval * pystr) :=
  match fs path with
  | None => Ok ([], [])
  | Some raw =>
      let txt := read_file_bytes_to_text raw in
      let raw_text := txt in
      let s := strip txt in
      match json_stage s max_rows with
      | Some records => Ok (records, raw_text)
      | None =>
          match xml_stage s with
          | Some records => Ok (records, raw_text)
          | None =>
              let lines := nonblank_lines txt in
              match delimited_stage txt lines max_rows with
              | Some rows => Ok (rows, raw_text)
              | None =>
                  Ok (List.map raw_line_record (slice_to max_rows lines),
                      raw_text)
              end
          end
      end
  end.

(** [handle_sftp_sample(file_path)] of [handlers/sftp_handler.py]: the
    check of the path, then the pandas reader [read_frame], which this
    development does not look into. *)
Variable C : Type.
Variable read_frame : pystr -> bytes -> result C.

Definition handle_sftp_sample (file_path : pystr) : result C :=
  match fs file_path with
  | None => Raise FileNotFoundError
  | Some raw => read_frame file_path raw
  end.

End Parser.

End Parse.

(** ** Canonical builder *)

Module Builder.
Import Flatten.

(** Values as the builder sees them: a dict is an object of the store,
    named by its location, because the builder writes into dicts that the
    record and the canonical object may share. Lists are never written to
    and stay values. *)
Inductive hval : Type :=
| HNone
| HBool (b : bool)
| HInt (z : Z)
| HFloat (f : pyfloat)
| HStr (s : pystr)
| HList (l : list hval)
| HRef (l : nat).

(** The store: the dict at every location, and the next free location. *)
Record heap : Type := mkHeap { cell : nat -> dict hval; next : nat }.

(** [{}]: a new dict object. *)
Definition alloc (h : heap) (d : dict hval) : nat * heap :=
  (next h,
   mkHeap (fun l => if Nat.eqb l (next h) then d else cell h l) (S (next h))).

(** [d[k] = v] on the dict object at [l]. *)
Definition store (h : heap) (l : nat) (k : pystr) (v : hval) : heap :=
  mkHeap (fun l' => if Nat.eqb l' l then dict_set (cell h l) k v else cell h l')
         (next h).

Definition href_as_dict (v : hval) : option nat :=
  match v with HRef l => Some l | _ => None end.

(** [get_nested_value] over the store. *)
Definition heap_lookup (h : heap) (rec : nat) (path : option pystr) : hval :=
  get_nested_value (cell h) href_as_dict HRef HNone rec path.

(** A mapping entry: [f.get("partner_field")] and [f.get("mapped_to")],
    each a string or [None]. *)
Record field : Type :=
  mkField { partner_field : option pystr; mapped_to : option pystr }.

(** [t] for a truthy [mapped_to]. *)
Definition target (f : field) : option pystr :=
  match mapped_to f with
  | Some (c :: t) => Some (c :: t)
  | _ => None
  end.

Definition mapped_targets (fields : list field) : list pystr :=
  omap target fields.

(** The loop [for part in parts[:-1]]: the dict to write the leaf into. *)
Fixpoint descend (h : heap) (cur : nat) (parts : list pystr) : heap * nat :=
  match parts with
  | [] => (h, cur)
  | part :: rest =>
      match dict_get (cell h cur) part with
      | Some (HRef l) => descend h l rest
      | _ =>
          let (l, h1) := alloc h [] in
          descend (store h1 cur part (HRef l)) l rest
      end
  end.

(** The nested assignment along the dotted path [mapped]. *)
Definition assign (h : heap) (canon : nat) (mapped : pystr) (v : hval) : heap :=
  let parts := split DOT mapped in
  let (h1, cur) := descend h canon (removelast parts) in
  store h1 cur (List.last parts []) v.

Definition CUSTOMER_CONTACT : pystr := lit "customer_contact".
Definition PHONE : pystr := lit "phone".
Definition DESTINATION : pystr := lit "destination".
Definition ORIGIN : pystr := lit "origin".

(** Loading a tree value into the store, for records read from a sample:
    every dict becomes a new object. *)
Fixpoint load (v : pyval) (h : heap) : hval * heap :=
  match v with
  | PNone => (HNone, h)
  | PBool b => (HBool b, h)
  | PInt z => (HInt z, h)
  | PFloat f => (HFloat f, h)
  | PStr s => (HStr s, h)
  | PList l =>
      let '(l', h') :=
        (fix elems (l : list pyval) (h : heap) : list hval * heap :=
           match l with
           | [] => ([], h)
           | x :: l' =>
               let (x', h1) := load x h in
               let (r, h2) := elems l' h1 in
               (x' :: r, h2)
           end) l h in
      (HList l', h')
  | PDict d =>
      let '(d', h') :=
        (fix items (d : list (pystr * pyval)) (h : heap) : dict hval * heap :=
           match d with
           | [] => ([], h)
           | (k, x) :: d' =>
               let (x', h1) := load x h in
               let (r, h2) := items d' h1 in
               ((k, x') :: r, h2)
           end) d h in
      let (l, h'') := alloc h' d' in
      (HRef l, h'')
  end.

(** The elements of a list, loaded one after the other. *)
Fixpoint load_elems (l : list pyval) (h : heap) : list hval * heap :=
  match l with
  | [] => ([], h)
  | x :: l' =>
      let (x', h1) := load x h in
      let (r, h2) := load_elems l' h1 in
      (x' :: r, h2)
  end.

(** The items of a dict, loaded one after the other. *)
Fixpoint load_items (d : list (pystr * pyval)) (h : heap) : dict hval * heap :=
  match d with
  | [] => ([], h)
  | (k, x) :: d' =>
      let (x', h1) := load x h in
      let (r, h2) := load_items d' h1 in
      ((k, x') :: r, h2)
  end.

(** A record, loaded: its location. *)
Definition load_record (d : dict pyval) (h : heap) : nat * heap :=
  let (d', h1) := load_items d h in
  alloc h1 d'.

Fixpoint load_records (records : list (dict pyval)) (h : heap)
  : list nat * heap :=
  match records with
  | [] => ([], h)
  | d :: rest =>
      let (l, h1) := load_record d h in
      let (ls, h2) := load_records rest h1 in
      (l :: ls, h2)
  end.

(** The store before anything is loaded. *)
Definition empty_heap : heap := mkHeap (fun _ => []) 0.

(** Reading a value back from the store, to a given depth. *)
Fixpoint readback (fuel : nat) (h : heap) (v : hval) : pyval :=
  match v with
  | HNone => PNone
  | HBool b => PBool b
  | HInt z => PInt z
  | HFloat f => PFloat f
  | HStr s => PStr s
  | HList l =>
      match fuel with
      | O => PList []
      | S n => PList (List.map (readback n h) l)
      end
  | HRef l =>
      match fuel with
      | O => PDict []
      | S n =>
          PDict (List.map (fun kv => (fst kv, readback n h (snd kv)))
                   (cell h l))
      end
  end.

Section Build.
(** [str.isdigit], [int(s)] and [float(s)]; [None] is [ValueError]. *)
Variable str_isdigit : pystr -> bool.
Variable int_of_str : pystr -> option Z.
Variable float_of_str : pystr -> option pyfloat.
(** [str(v)] for a float, a list or a dict: their [repr]. *)
Variable py_repr : heap -> hval -> pystr.

(** The basic type conversions. *)
Definition coerce (v : hval) : hval :=
  match v with
  | HStr s =>
      let vs := strip s in
      if str_isdigit vs then
        match int_of_str vs with
        | Some z => HInt z
        | None => v
        end
      else
        match float_of_str vs with
        | Some f => HFloat f
        | None => HStr vs
        end
  | _ => v
  end.

(** [str(v)] *)
Definition py_str (h : heap) (v : hval) : pystr :=
  match v with
  | HNone => lit "None"
  | HBool true => lit "True"
  | HBool false => lit "False"
  | HInt z => str_of_Z z
  | HStr s => s
  | _ => py_repr h v
  end.

(** The body of the loop over the mapping entries. *)
Definition build_field (rec canon : nat) (h : heap) (f : field) : heap :=
  match target f with
  | None => h
  | Some mapped =>
      match heap_lookup h rec (partner_field f) with
      | HNone => h
      | HStr [] => h
      | v => assign h canon mapped (coerce v)
      end
  end.

(** [if needed and key not in canon: canon[key] = canon.get(key, {})] *)
Definition ensure_object (needed : bool) (key : pystr) (canon : nat) (h : heap)
  : heap :=
  if needed && negb (dict_mem (cell h canon) key) then
    let (l, h1) := alloc h [] in
    store h1 canon key (HRef l)
  else h.

(** The phone of the customer contact, made a string. *)
Definition phone_to_string (canon : nat) (h : heap) : heap :=
  match dict_get (cell h canon) CUSTOMER_CONTACT with
  | Some (HRef cc) =>
      match dict_get (cell h cc) PHONE with
      | None => h
      | Some HNone => h
      | Some (HStr _) => h
      | Some ph => store h cc PHONE (HStr (py_str h ph))
      end
  | _ => h
  end.

(** The body of the loop over the records. *)
Definition build_record (needs_dest needs_origin : bool) (fields : list field)
  (h : heap) (rec : nat) : heap * nat :=
  let (canon, h0) := alloc h [] in
  let h1 := fold_left (build_field rec canon) fields h0 in
  let h2 := ensure_object needs_dest DESTINATION canon h1 in
  let h3 := ensure_object needs_origin ORIGIN canon h2 in
  (phone_to_string canon h3, canon).

(** One turn of the loop over the records: the canonical object of the
    record, appended to [canonical_list]. *)
Definition turn (needs_dest needs_origin : bool) (fields : list field)
  (st : heap * list nat) (rec : nat) : heap * list nat :=
  let (h', canon) := build_record needs_dest needs_origin fields (fst st) rec in
  (h', snd st ++ [canon]).

(** [apply_mappings(records, schema_obj)], on the store [h] that holds the
    records; [fields] is [schema_obj.get("fields", [])]. The result is the
    store after the call and the canonical objects. *)
Definition apply_mappings (h : heap) (records : list nat) (fields : list field)
  : heap * list nat :=
  let targets := mapped_targets fields in
  let needs_dest := existsb (startswith (lit "destination.")) targets in
  let needs_origin := existsb (startswith (lit "origin.")) targets in
  fold_left (turn needs_dest needs_origin fields) records (h, []).

(** The canonical builder on records read from a sample: the records are
    loaded in an empty store, each dict a new object. *)
Definition build (records : list (dict pyval)) (fields : list field)
  : heap * list nat :=
  let (recs, h0) := load_records records empty_heap in
  apply_mappings h0 recs fields.

(** The canonical objects of [build], read back as trees (to depth 8, more
    than the examples need). *)
Definition built (records : list (dict pyval)) (fields : list field)
  : list pyval :=
  let (h, canons) := build records fields in
  List.map (fun canon => readback 8 h (HRef canon)) canons.

End Build.

(** *** Ownership

    The builder writes into dicts it reaches from the record, so what a
    turn of its loop may change is stated over sets of locations. *)

(** The locations that a value names, also inside its lists. *)
Fixpoint refs (v : hval) : list nat :=
  match v with
  | HRef l => [l]
  | HList vs =>
      (fix each (vs : list hval) : list nat :=
         match vs with
         | [] => []
         | x :: vs' => refs x ++ each vs'
         end) vs
  | _ => []
  end.

(** A set of locations that names no location outside itself. *)
Definition closed (R : nat -> Prop) (h : heap) : Prop :=
  forall l, R l ->
    (l < next h)%nat
    /\ forall k v l', In (k, v) (cell h l) -> In l' (refs v) -> R l'.

(** The locations a record's turn of the loop may write to: those of the
    record, and those allocated since the store had [n] objects. *)
Definition foot (R : nat -> Prop) (n : nat) (h : heap) : nat -> Prop :=
  fun l => R l \/ (n <= l < next h)%nat.

(** [h] comes from [h0] by writes inside the footprint of [R] only. *)
Definition within (R : nat -> Prop) (h0 h : heap) : Prop :=
  (next h0 <= next h)%nat
  /\ (forall l, (l < next h0)%nat -> ~ R l -> cell h l = cell h0 l)
  /\ closed (foot R (next h0) h) h.

(** The phone of the customer contact of [canon], when there is one, is a
    string. *)
Definition phone_ok (h : heap) (canon : nat) : Prop :=
  forall cc ph,
    dict_get (cell h canon) (lit "customer_contact") = Some (HRef cc) ->
    dict_get (cell h cc) (lit "phone") = Some ph ->
    ph <> HNone ->
    exists s, ph = HStr s.

(** The locations from [a] up to [b]. *)
Definition between (a b : nat) : nat -> Prop := fun l => (a <= l < b)%nat.

(** Sets of locations, no two of which share a location. *)
Fixpoint disjoint_regions (regions : list (nat -> Prop)) : Prop :=
  match regions with
  | [] => True
  | R :: rest =>
      (forall R', In R' rest -> forall l, R l -> ~ R' l)
      /\ disjoint_regions rest
  end.

(** Every record has its own closed set of locations, below [n]. *)
Definition owned (h : heap) (n : nat) (records : list nat)
  (regions : list (nat -> Prop)) : Prop :=
  Forall2
    (fun rec R => R rec /\ closed R h /\ forall l, R l -> (l < n)%nat)
    records regions
  /\ disjoint_regions regions.

(** What loading does to the store: it only adds objects, and the objects
    it adds name one another only. *)
Definition loaded (h h' : heap) : Prop :=
  (next h <= next h')%nat
  /\ (forall l, (l < next h)%nat -> cell h' l = cell h l)
  /\ closed (between (next h) (next h')) h'.

End Builder.

(** ** Schema validator *)

Module Validator.
Import Encoding.

(** What [jsonschema.validate] does on an instance: it returns, it raises
    [ValidationError] with a message, or it raises something else (as
    [SchemaError] for a document that is not a schema). *)
Inductive verdict : Type :=
| Valid
| Invalid (message : pystr)
| Fails (e : exn).

Section Validate.
Context {V : Type}.
Variable fs : pystr -> option bytes.
Variable json_loads : pystr -> option pyval.
Variable js_validate : V -> pyval -> verdict.

Record validation_result : Type :=
  mkResult { index : Z; valid : bool; errors : option pystr; object : V }.

(** The newline translation of a file opened in text mode. *)
Fixpoint universal_newlines (s : pystr) : pystr :=
  match s with
  | 0x0D :: s' =>
      match s' with
      | 0x0A :: s'' => 0x0A :: universal_newlines s''
      | _ => 0x0A :: universal_newlines s'
      end
  | c :: s' => c :: universal_newlines s'
  | [] => []
  end.

(** [json.loads(Path(schema_file).read_text(encoding="utf-8"))]; [None]
    when any of the three steps raises. *)
Definition load_schema (schema_file : pystr) : option pyval :=
  match fs schema_file with
  | None => None
  | Some raw =>
      match utf8_decode (ords raw) with
      | None => None
      | Some txt => json_loads (universal_newlines txt)
      end
  end.

(** The loop over [enumerate(canonical_list)]. *)
Fixpoint validate_loop (schema : pyval) (i : Z) (objs : list V)
  (results : list validation_result) (valid_count : Z)
  : result (list validation_result * Z) :=
  match objs with
  | [] => Ok (results, valid_count)
  | obj :: rest =>
      match js_validate obj schema with
      | Valid =>
          validate_loop schema (i + 1)%Z rest
            (results ++ [mkResult i true None obj]) (valid_count + 1)%Z
      | Invalid message =>
          validate_loop schema (i + 1)%Z rest
            (results ++ [mkResult i false (Some message) obj]) valid_count
      | Fails e => Raise e
      end
  end.

(** [validate_list(canonical_list, schema_file)] *)
Definition validate_list (canonical_list : list V) (schema_file : pystr)
  : result (list validation_result * Z) :=
  match load_schema schema_file with
  | None => Raise RuntimeError
  | Some schema => validate_loop schema 0%Z canonical_list [] 0%Z
  end.

(** The result recorded for a verdict that is not an exception. *)
Definition recorded (i : Z) (obj : V) (vd : verdict) : validation_result :=
  match vd with
  | Invalid message => mkResult i false (Some message) obj
  | _ => mkResult i true None obj
  end.

(** One result for every object, in the order of the input, numbered from
    [i]. *)
Fixpoint expected_results (schema : pyval) (i : Z) (objs : list V)
  : list validation_result :=
  match objs with
  | [] => []
  | obj :: rest =>
      recorded i obj (js_validate obj schema)
        :: expected_results schema (i + 1) rest
  end.

Definition is_valid (schema : pyval) (obj : V) : bool :=
  match js_validate obj schema with Valid => true | _ => false end.

Definition raises_other (schema : pyval) (obj : V) : Prop :=
  exists e, js_validate obj schema = Fails e.

End Validate.

End Validator.

(** ** Definitions that follow the words of the specification *)

Module Spec.
Import Delimiter Flatten.

(** The delimiter as the specification words it: the highest count over
    the first ten non-empty lines, ties broken in the order comma,
    semicolon, tab, pipe. *)
Definition spec_candidates : list N := [COMMA; SEMICOLON; TAB; PIPE].

Definition spec_delimiter (text : pystr) : N :=
  let sample := join [0x0A] (firstn 10 (nonblank_lines text)) in
  fst (fold_left (better sample) spec_candidates (COMMA, (-1)%Z)).

(** A key that the dotted lookup can address: not empty, no dot. *)
Definition key_ok (k : pystr) : bool :=
  match k with
  | [] => false
  | _ => forallb (fun c => negb (c =? DOT)) k
  end.

Fixpoint unique_keys {V} (d : dict V) : bool :=
  match d with
  | [] => true
  | (k, _) :: d' => negb (dict_mem d' k) && unique_keys d'
  end.

(** A mapping of mappings and scalars only, every key addressable, no key
    twice in a mapping. *)
Fixpoint dotted_record (v : pyval) : bool :=
  match v with
  | PDict d =>
      unique_keys d
      && (fix all (d : list (pystr * pyval)) : bool :=
            match d with
            | [] => true
            | (k, x) :: d' => key_ok k && dotted_record x && all d'
            end) d
  | PList _ => false
  | _ => true
  end.

(** A scalar: what the flattener takes for a leaf. *)
Definition is_leaf (v : pyval) : bool :=
  match v with
  | PDict _ | PList _ => false
  | _ => true
  end.

(** An item of a record that the lookup can resolve: a scalar under a key
    that is not empty (it may hold dots: the lookup tries the whole path
    as a key first), or a mapping under an addressable key, itself of
    mappings and scalars with addressable keys. *)
Definition item_ok (kv : pystr * pyval) : bool :=
  if is_leaf (snd kv) then match fst kv with [] => false | _ => true end
  else key_ok (fst kv) && dotted_record (snd kv).

Definition addressable (rec : dict pyval) : bool :=
  unique_keys rec && forallb item_ok rec.

Fixpoint distinct (l : list pystr) : bool :=
  match l with
  | [] => true
  | p :: l' => negb (existsb (str_eqb p) l') && distinct l'
  end.

(** No two leaves of the record flatten to the same path. *)
Definition distinct_paths (rec : dict pyval) : bool :=
  distinct (List.map fst (_flatten (PDict rec) [])).

(** A key without a dot. *)
Definition no_dot (k : pystr) : Prop := ~ In DOT k.

(** The prefix that [_flatten] builds along the keys [ks]. *)
Definition path_from (prefix : pystr) (ks : list pystr) : pystr :=
  fold_left key_prefix ks prefix.

(** The key [k] of [d] holds a list. *)
Definition list_valued (d : dict pyval) (k : pystr) : Prop :=
  exists l, dict_get d k = Some (PList l).

(** The fallback of the JSON branch as the specification words it: the
    first list-valued property found anywhere in the object, at any
    depth, in key order. *)
Fixpoint spec_first_list_anywhere (v : pyval) : option (list pyval) :=
  match v with
  | PDict d =>
      (fix props (d : list (pystr * pyval)) : option (list pyval) :=
         match d with
         | [] => None
         | (_, PList l) :: _ => Some l
         | (_, x) :: d' =>
             match spec_first_list_anywhere x with
             | Some l => Some l
             | None => props d'
             end
         end) d
  | _ => None
  end.

(** The records of a parsed JSON object, in the words of the
    specification. *)
Definition spec_json_object_records (d : dict pyval) (max_rows : Z)
  : list pyval :=
  match Parse.first_container d Parse.container_keys with
  | Some l => slice_to max_rows l
  | None =>
      match spec_first_list_anywhere (PDict d) with
      | Some l => slice_to max_rows l
      | None => [PDict d]
      end
  end.

End Spec.

(** ** A reference runtime for the examples

    The library functions that the engine calls are parameters of the
    definitions above. To run the engine on concrete samples, this module
    gives them for ASCII input: the decimal grammar of [int] and [float]
    with round-to-nearest-even to binary64, the digits of [str.isdigit]
    in Latin-1, and the JSON grammar of [json.loads]. The examples hold no
    XML and no delimited text, and print no float and no container. *)

Module Ref.
Import SpecFloat.

Definition is_ascii_digit (c : N) : bool := (0x30 <=? c) && (c <=? 0x39).

(** [str.isdigit]: the ASCII digits and the superscripts one, two, three. *)
Definition isdigit (s : pystr) : bool :=
  match s with
  | [] => false
  | _ =>
      forallb (fun c => is_ascii_digit c || (c =? 0xB2) || (c =? 0xB3)
                        || (c =? 0xB9)) s
  end.

(** Digits, with single underscores between digits. *)
Fixpoint scan_more (s : pystr) : list N * pystr :=
  match s with
  | c :: s' =>
      if is_ascii_digit c then
        let (ds, r) := scan_more s' in (c :: ds, r)
      else if c =? 0x5F then
        match s' with
        | d :: s'' =>
            if is_ascii_digit d then
              let (ds, r) := scan_more s'' in (d :: ds, r)
            else ([], s)
        | [] => ([], s)
        end
      else ([], s)
  | [] => ([], [])
  end.

Definition scan_digits (s : pystr) : list N * pystr :=
  match s with
  | c :: _ => if is_ascii_digit c then scan_more s else ([], s)
  | [] => ([], [])
  end.

(** Digits without underscores, as JSON has them. *)
Fixpoint scan_plain (s : pystr) : list N * pystr :=
  match s with
  | c :: s' =>
      if is_ascii_digit c then
        let (ds, r) := scan_plain s' in (c :: ds, r)
      else ([], s)
  | [] => ([], [])
  end.

Definition digits_value (ds : list N) : Z :=
  fold_left (fun acc c => (acc * 10 + Z.of_N (c - 0x30))%Z) ds 0%Z.

Definition scan_sign (s : pystr) : bool * pystr :=
  match s with
  | 0x2D :: r => (true, r)
  | 0x2B :: r => (false, r)
  | _ => (false, s)
  end.

(** [int(s)] *)
Definition int_of_str (s : pystr) : option Z :=
  let (neg, r) := scan_sign (strip s) in
  match scan_digits r with
  | ((_ :: _) as ds, []) =>
      Some (if neg then (- digits_value ds)%Z else digits_value ds)
  | _ => None
  end.

(** The binary64 number nearest to [m * 10 ^ e10], ties to even. *)
Definition round_binary64 (neg : bool) (m e10 : Z) : pyfloat :=
  if (m =? 0)%Z then S754_zero neg
  else
    let n := if (0 <=? e10)%Z then (m * 10 ^ e10)%Z else m in
    let d := if (0 <=? e10)%Z then 1%Z else (10 ^ (- e10))%Z in
    let k0 := (Z.log2 n - Z.log2 d - 53)%Z in
    let q0 := if (k0 <? 0)%Z then (n * 2 ^ (- k0) / d)%Z
              else (n / (d * 2 ^ k0))%Z in
    let k1 := if (2 ^ 53 <=? q0)%Z then (k0 + 1)%Z else k0 in
    let k := Z.max k1 (-1074) in
    let num := if (k <? 0)%Z then (n * 2 ^ (- k))%Z else n in
    let den := if (k <? 0)%Z then d else (d * 2 ^ k)%Z in
    let q := (num / den)%Z in
    let r := (num mod den)%Z in
    let up := (den <? 2 * r)%Z || ((2 * r =? den)%Z && Z.odd q) in
    let q1 := if up then (q + 1)%Z else q in
    let q2 := if (q1 =? 2 ^ 53)%Z then (2 ^ 52)%Z else q1 in
    let k2 := if (q1 =? 2 ^ 53)%Z then (k + 1)%Z else k in
    match q2 with
    | Zpos p => if (971 <? k2)%Z then S754_infinity neg else S754_finite neg p k2
    | _ => S754_zero neg
    end.

Definition lower (c : N) : N :=
  if (0x41 <=? c) && (c <=? 0x5A) then c + 32 else c.

(** The exponent part, when there is one: [e], a sign, digits. *)
Definition scan_exponent (digits : pystr -> list N * pystr) (s : pystr)
  : option (Z * pystr) :=
  match s with
  | c :: r =>
      if lower c =? 0x65 then
        let (neg, r1) := scan_sign r in
        match digits r1 with
        | ((_ :: _) as ds, r2) =>
            Some (if neg then (- digits_value ds)%Z else digits_value ds, r2)
        | _ => None
        end
      else None
  | [] => None
  end.

(** [float(s)] *)
Definition float_of_str (s : pystr) : option pyfloat :=
  let (neg, r) := scan_sign (strip s) in
  let word := List.map lower r in
  if str_eqb word (lit "inf") || str_eqb word (lit "infinity")
  then Some (S754_infinity neg)
  else if str_eqb word (lit "nan") then Some S754_nan
  else
    let (ip, r1) := scan_digits r in
    let (fp, r2) :=
      match r1 with
      | 0x2E :: r' => scan_digits r'
      | _ => ([], r1)
      end in
    match ip, fp with
    | [], [] => None
    | _, _ =>
        let m := digits_value (ip ++ fp) in
        let shift := Z.of_nat (length fp) in
        match r2 with
        | [] => Some (round_binary64 neg m (- shift))
        | _ =>
            match scan_exponent scan_digits r2 with
            | Some (e, []) => Some (round_binary64 neg m (e - shift))
            | _ => None
            end
        end
    end.

(** [repr] of a float or a container is not given: no example prints
    one. *)
Definition py_repr (h : Builder.heap) (v : Builder.hval) : pystr :=
  lit "<repr>".

Definition is_json_ws (c : N) : bool :=
  (c =? 0x20) || (c =? 0x09) || (c =? 0x0A) || (c =? 0x0D).

Fixpoint skip_ws (s : pystr) : pystr :=
  match s with
  | c :: s' => if is_json_ws c then skip_ws s' else s
  | [] => []
  end.

Definition hex_value (c : N) : option N :=
  if is_ascii_digit c then Some (c - 0x30)
  else if (0x61 <=? lower c) && (lower c <=? 0x66) then Some (lower c - 0x61 + 10)
  else None.

Definition hex4 (a b c d : N) : option N :=
  match hex_value a, hex_value b, hex_value c, hex_value d with
  | Some x, Some y, Some z, Some w => Some (((x * 16 + y) * 16 + z) * 16 + w)
  | _, _, _, _ => None
  end.

Definition simple_escape (c : N) : option N :=
  match c with
  | 0x22 => Some 0x22 | 0x5C => Some 0x5C | 0x2F => Some 0x2F
  | 0x62 => Some 0x08 | 0x66 => Some 0x0C | 0x6E => Some 0x0A
  | 0x72 => Some 0x0D | 0x74 => Some 0x09
  | _ => None
  end.

(** The body of a JSON string, after its opening quote. [acc] is the text
    so far, reversed. *)
Fixpoint json_string (s : pystr) (acc : pystr) : option (pystr * pystr) :=
  match s with
  | [] => None
  | 0x22 :: r => Some (rev acc, r)
  | 0x5C :: r =>
      match r with
      | 0x75 :: a :: b :: c :: d :: r' =>
          match hex4 a b c d with
          | Some u =>
              match r' with
              | 0x5C :: 0x75 :: a2 :: b2 :: c2 :: d2 :: r'' =>
                  match hex4 a2 b2 c2 d2 with
                  | Some u2 =>
                      if Encoding.is_high_surrogate u && Encoding.is_low_surrogate u2
                      then json_string r''
                             ((0x10000 + (u - 0xD800) * 1024 + (u2 - 0xDC00)) :: acc)
                      else json_string r' (u :: acc)
                  | None => json_string r' (u :: acc)
                  end
              | _ => json_string r' (u :: acc)
              end
          | None => None
          end
      | e :: r' =>
          match simple_escape e with
          | Some c => json_string r' (c :: acc)
          | None => None
          end
      | [] => None
      end
  | c :: r => if c <? 0x20 then None else json_string r (c :: acc)
  end.

(** A JSON number: an integer without fraction and exponent, a float
    otherwise. *)
Definition json_number (s : pystr) : option (pyval * pystr) :=
  let (neg, r) := match s with 0x2D :: r => (true, r) | _ => (false, s) end in
  let '(ip, r1) :=
    match r with
    | 0x30 :: r' => ([0x30], r')
    | _ => scan_plain r
    end in
  match ip with
  | [] => None
  | _ =>
      let '(fp, r2) :=
        match r1 with
        | 0x2E :: r' =>
            match scan_plain r' with
            | ((_ :: _) as fp, r2) => (fp, r2)
            | _ => ([], r1)
            end
        | _ => ([], r1)
        end in
      let '(ex, r3) :=
        match scan_exponent scan_plain r2 with
        | Some (e, r3) => (Some e, r3)
        | None => (None, r2)
        end in
      match fp, ex with
      | [], None =>
          Some (PInt (if neg then (- digits_value ip)%Z else digits_value ip), r3)
      | _, _ =>
          let e := match ex with Some e => e | None => 0%Z end in
          Some (PFloat (round_binary64 neg (digits_value (ip ++ fp))
                          (e - Z.of_nat (length fp))), r3)
      end
  end.

Definition json_word (w : string) (v : pyval) (s : pystr)
  : option (pyval * pystr) :=
  if startswith (lit w) s then Some (v, skipn (String.length w) s) else None.

(** A JSON value at the head of [s], and what follows it. *)
Fixpoint json_value (fuel : nat) (s : pystr) : option (pyval * pystr) :=
  match fuel with
  | O => None
  | S f =>
      match s with
      | 0x22 :: r =>
          match json_string r [] with
          | Some (t, r') => Some (PStr t, r')
          | None => None
          end
      | 0x7B :: r =>
          match skip_ws r with
          | 0x7D :: r' => Some (PDict [], r')
          | r' => json_members f r' []
          end
      | 0x5B :: r =>
          match skip_ws r with
          | 0x5D :: r' => Some (PList [], r')
          | r' => json_elements f r' []
          end
      | 0x6E :: _ => json_word "null" PNone s
      | 0x74 :: _ => json_word "true" (PBool true) s
      | 0x66 :: _ => json_word "false" (PBool false) s
      | 0x4E :: _ => json_word "NaN" (PFloat S754_nan) s
      | 0x49 :: _ => json_word "Infinity" (PFloat (S754_infinity false)) s
      | 0x2D :: 0x49 :: _ => json_word "-Infinity" (PFloat (S754_infinity true)) s
      | _ => json_number s
      end
  end
with json_elements (fuel : nat) (s : pystr) (acc : list pyval)
  : option (pyval * pystr) :=
  match fuel with
  | O => None
  | S f =>
      match json_value f s with
      | Some (v, r) =>
          match skip_ws r with
          | 0x2C :: r' => json_elements f (skip_ws r') (acc ++ [v])
          | 0x5D :: r' => Some (PList (acc ++ [v]), r')
          | _ => None
          end
      | None => None
      end
  end
with json_members (fuel : nat) (s : pystr) (acc : dict pyval)
  : option (pyval * pystr) :=
  match fuel with
  | O => None
  | S f =>
      match s with
      | 0x22 :: r =>
          match json_string r [] with
          | Some (k, r1) =>
              match skip_ws r1 with
              | 0x3A :: r2 =>
                  match json_value f (skip_ws r2) with
                  | Some (v, r3) =>
                      match skip_ws r3 with
                      | 0x2C :: r4 => json_members f (skip_ws r4) (dict_set acc k v)
                      | 0x7D :: r4 => Some (PDict (dict_set acc k v), r4)
                      | _ => None
                      end
                  | None => None
                  end
              | _ => None
              end
          | None => None
          end
      | _ => None
      end
  end.

(** [json.loads(s)] *)
Definition json_loads (s : pystr) : option pyval :=
  match s with
  | 0xFEFF :: _ => None
  | _ =>
      match json_value (2 * length s + 2) (skip_ws s) with
      | Some (v, r) => match skip_ws r with [] => Some v | _ => None end
      | None => None
      end
  end.

(** [jsonschema.validate] for schemas written with [required] and
    [properties] only; other keywords are read as annotations. A document
    that is neither an object nor a boolean, or whose [required] is not a
    list of distinct strings, or whose [properties] is not an object of
    schemas, is not a schema: [SchemaError]. The error reported for an
    instance is the first one nearest to its root. *)
Fixpoint distinct_strings (l : list pyval) : bool :=
  match l with
  | [] => true
  | PStr s :: l' =>
      negb (existsb (fun v => match v with PStr t => str_eqb s t | _ => false end) l')
      && distinct_strings l'
  | _ => false
  end.

Fixpoint schema_ok (schema : pyval) : bool :=
  match schema with
  | PBool _ => true
  | PDict d =>
      (fix keywords (d : list (pystr * pyval)) : bool :=
         match d with
         | [] => true
         | (k, v) :: d' =>
             (if str_eqb k (lit "required") then
                match v with PList l => distinct_strings l | _ => false end
              else if str_eqb k (lit "properties") then
                match v with
                | PDict ps =>
                    (fix props (ps : list (pystr * pyval)) : bool :=
                       match ps with
                       | [] => true
                       | (_, sub) :: ps' => schema_ok sub && props ps'
                       end) ps
                | _ => false
                end
              else true)
             && keywords d'
         end) d
  | _ => false
  end.

Definition missing_message (name : pystr) : pystr :=
  lit "'" ++ name ++ lit "' is a required property".

(** The errors of an instance, each with its depth in the instance. *)
Fixpoint schema_errors (schema instance : pyval) (depth : nat)
  : list (nat * pystr) :=
  match schema with
  | PBool false => [(depth, lit "False schema does not allow the instance")]
  | PDict d =>
      (fix keywords (d : list (pystr * pyval)) : list (nat * pystr) :=
         match d with
         | [] => []
         | (k, v) :: d' =>
             (if str_eqb k (lit "required") then
                match v, instance with
                | PList names, PDict obj =>
                    flat_map
                      (fun n =>
                         match n with
                         | PStr name =>
                             if dict_mem obj name then []
                             else [(depth, missing_message name)]
                         | _ => []
                         end) names
                | _, _ => []
                end
              else if str_eqb k (lit "properties") then
                match v, instance with
                | PDict ps, PDict obj =>
                    (fix props (ps : list (pystr * pyval)) : list (nat * pystr) :=
                       match ps with
                       | [] => []
                       | (name, sub) :: ps' =>
                           match dict_get obj name with
                           | Some x => schema_errors sub x (S depth)
                           | None => []
                           end ++ props ps'
                       end) ps
                | _, _ => []
                end
              else [])
             ++ keywords d'
         end) d
  | _ => []
  end.

(** The first error of the least depth. *)
Fixpoint best_match (errs : list (nat * pystr)) : option (nat * pystr) :=
  match errs with
  | [] => None
  | e :: rest =>
      match best_match rest with
      | Some e' => if (fst e' <? fst e)%nat then Some e' else Some e
      | None => Some e
      end
  end.

Definition js_validate (instance schema : pyval) : Validator.verdict :=
  if schema_ok schema then
    match best_match (schema_errors schema instance 0) with
    | Some e => Validator.Invalid (snd e)
    | None => Validator.Valid
    end
  else Validator.Fails SchemaError.

(** A literal written with the apostrophe for the double quote. *)
Definition dq (x : string) : pystr :=
  replace_char 0x27 0x22 (lit x).

(** A file system with one file. *)
Definition one_file (name : pystr) (content : Encoding.bytes)
  : pystr -> option Encoding.bytes :=
  fun p => if str_eqb p name then Some content else None.

(** The bytes of an ASCII text. *)
Definition ascii_bytes (x : string) : Encoding.bytes :=
  List.map byte_of_ascii (list_ascii_of_string x).

(** The bytes of a text written with the apostrophe for the double quote. *)
Definition dq_bytes (x : string) : Encoding.bytes :=
  List.map (fun b => match b with x27 => x22 | _ => b end) (ascii_bytes x).

(** An XML parser and a CSV reader for samples that hold neither: the
    first accepts nothing, the second yields nothing. *)
Definition no_xml (s : pystr) : option Parse.element := None.

Definition no_rows (s : pystr) (delim : N) : list Parse.csv_row * bool :=
  ([], false).

End Ref.

(** ** Field names

    [normalize_partner_field_name] of [ingest.py], which the mapping
    stages and the upload of the interface apply to partner labels. *)

Module Names.
Import Flatten.

(** A text that does not begin with white space. *)
Definition head_fixed (s : pystr) : Prop :=
  match s with c :: _ => is_space c = false | [] => True end.

(** [".." in s] *)
Fixpoint has_dotdot (s : pystr) : bool :=
  match s with
  | x :: s' =>
      match s' with
      | y :: _ => ((x =? DOT) && (y =? DOT)) || has_dotdot s'
      | [] => false
      end
  | [] => false
  end.

(** [s.replace("..", ".")]: the pairs of dots are taken left to right and
    do not overlap, so three dots in a row become two. *)
Fixpoint collapse_dots (s : pystr) : pystr :=
  match s with
  | x :: s' =>
      if x =? DOT then
        match s' with
        | y :: s'' =>
            if y =? DOT then DOT :: collapse_dots s''
            else DOT :: collapse_dots s'
        | [] => [DOT]
        end
      else x :: collapse_dots s'
  | [] => []
  end.

(** The loop [while ".." in out: out = out.replace("..", ".")], for at most
    [fuel] turns. *)
Fixpoint squeeze_dots (fuel : nat) (out : pystr) : pystr :=
  match fuel with
  | O => out
  | S f => if has_dotdot out then squeeze_dots f (collapse_dots out) else out
  end.

(** [normalize_partner_field_name(s)] for a label that is a string or
    [None]. Every turn of the loop shortens the text, so its length is
    fuel enough. *)
Definition normalize_partner_field_name (s : option pystr) : pystr :=
  match s with
  | None => []
  | Some s =>
      let out := strip s in
      let out := remove_char 0 (remove_char 0xFFFE (remove_char 0xFEFF out)) in
      let out := replace_char UNDERSCORE DOT (replace_char 0x20 DOT out) in
      squeeze_dots (length out) out
  end.

End Names.

(** ** The SFTP handler

    What [handlers/sftp_handler.py] does with text before and after the
    pandas reader: the decoding of the bytes, the cleaning of a column
    name and the numbering of repeated names. *)

Module Sftp.
Import Encoding.

(** The body of the strict UTF-16 decoder: [None] for an odd trailing
    byte and for a surrogate without its pair. *)
Fixpoint utf16_strict (le : bool) (b : list N) : option pystr :=
  match b with
  | [] => Some []
  | [_] => None
  | x :: y :: r =>
      let ch := utf16_unit le x y in
      if is_high_surrogate ch then
        match r with
        | x2 :: y2 :: r2 =>
            let ch2 := utf16_unit le x2 y2 in
            if is_low_surrogate ch2
            then cons (0x10000 + (ch - 0xD800) * 1024 + (ch2 - 0xDC00))
                   <$> utf16_strict le r2
            else None
        | _ => None
        end
      else if is_low_surrogate ch then None
      else cons ch <$> utf16_strict le r
  end.

(** [raw.decode('utf-16')]: the byte-order mark chooses the byte order and
    is consumed. *)
Definition utf16_decode (b : list N) : option pystr :=
  match b with
  | 0xFF :: 0xFE :: r => utf16_strict true r
  | 0xFE :: 0xFF :: r => utf16_strict false r
  | _ => utf16_strict true b
  end.

(** The text that [_try_read_csv] hands to the pandas reader. When the
    strict UTF-16 decoder raises, the bytes are read as little-endian
    UTF-16 with replacement, and the mark is then a character like any
    other. *)
Definition csv_text (raw : bytes) : pystr :=
  let b := ords raw in
  let text :=
    if startswith [0xFF; 0xFE] b || startswith [0xFE; 0xFF] b then
      match utf16_decode b with
      | Some t => t
      | None => utf16_body true b
      end
    else
      match first_decoding
              [utf8_sig_decode; utf8_decode; cp1252_decode; latin1_decode] b with
      | Some t => t
      | None => latin1_decode_replace b
      end in
  if existsb (N.eqb 0) text then remove_char 0 text else text.

(** The class [[\x00-\x08\x0b\x0c\x0e-\x1f]]. *)
Definition is_control (c : N) : bool :=
  (c <=? 0x08) || (c =? 0x0B) || (c =? 0x0C) || ((0x0E <=? c) && (c <=? 0x1F)).

(** [re.sub(r"\s+", " ", s)]: every run of white space becomes one space.
    [in_run] tells that the character before was white space. *)
Fixpoint sub_spaces (in_run : bool) (s : pystr) : pystr :=
  match s with
  | c :: s' =>
      if is_space c then
        if in_run then sub_spaces true s' else 0x20 :: sub_spaces true s'
      else c :: sub_spaces false s'
  | [] => []
  end.

(** [_clean_column_name(name)] *)
Definition _clean_column_name (name : option pystr) : pystr :=
  match name with
  | None => []
  | Some s =>
      let s := remove_char 0xFFFE (remove_char 0xFEFF s) in
      let s := List.filter (fun c => negb (is_control c)) s in
      strip (sub_spaces false s)
  end.

(** One turn of the loop that numbers repeated column names: [seen] counts
    the repeats of a name, [unique_cols] are the names given so far. *)
Definition unique_step (st : dict N * list pystr) (c : pystr)
  : dict N * list pystr :=
  let (seen, unique_cols) := st in
  let key := c in
  let (seen', new_name) :=
    match dict_get seen key with
    | Some n => (dict_set seen key (n + 1), key ++ lit "_" ++ str_of_N (n + 1))
    | None => (dict_set seen key 0, key)
    end in
  let new_name :=
    match new_name with
    | [] => lit "col_" ++ str_of_N (N.of_nat (length unique_cols))
    | _ => new_name
    end in
  (seen', unique_cols ++ [new_name]).

(** The column names after the loop of [handle_sftp_sample]. *)
Definition unique_columns (cols : list pystr) : list pystr :=
  snd (fold_left unique_step cols ([], [])).

End Sftp.

(** ** Text saved as UTF-8

    [str.encode("utf-8")], the inverse of the strict decoder: what a
    sample holds on disk when its text was saved as UTF-8. *)

Module Utf8.

(** A Unicode scalar value: a code point that is no surrogate. *)
Definition is_scalar (c : N) : bool :=
  (c <? 0xD800) || ((0xDFFF <? c) && (c <? 0x110000)).

(** The bytes of one scalar value, six bits for every byte after the
    first. *)
Definition utf8_encode_char (c : N) : list N :=
  let q1 := c / 64 in
  let q2 := q1 / 64 in
  let q3 := q2 / 64 in
  if c <? 0x80 then [c]
  else if c <? 0x800 then [0xC0 + q1; 0x80 + c mod 64]
  else if c <? 0x10000 then [0xE0 + q2; 0x80 + q1 mod 64; 0x80 + c mod 64]
  else [0xF0 + q3; 0x80 + q2 mod 64; 0x80 + q1 mod 64; 0x80 + c mod 64].

Definition utf8_encode (s : pystr) : list N := flat_map utf8_encode_char s.

End Utf8.

(** ** Rows of a delimited sample *)

Module Rows.
Import Parse.

(** An item of a row: a key without byte-order mark, and a cell that is a
    string, or [None] when the reader found the cell missing. *)
Definition item_clean (kv : pystr * pyval) : Prop :=
  (~ In 0xFEFF (fst kv) /\ ~ In 0xFFFE (fst kv))
  /\ (snd kv = PNone \/ exists s, snd kv = PStr s).

(** A row as the delimited tier of the parser returns it: a mapping with a
    cell that is not blank, every item clean. *)
Definition row_ok (r : pyval) : Prop :=
  exists d, r = PDict d /\ any_nonblank d = true /\ Forall item_clean d.

(** A reader that raises before its first row, as [csv.DictReader] does on
    a field larger than its limit: the parser then splits by hand. *)
Definition failing_reader (txt : pystr) (delim : N) : list csv_row * bool :=
  ([], true).

End Rows.

(** ** Shapes of the builder's store *)

Module BuilderSpec.
Import Flatten Builder.

(** [h'] has the objects of [h], and every key that a dict of [h] held. *)
Definition grows (h h' : heap) : Prop :=
  (next h <= next h')%nat
  /\ forall l k, (l < next h)%nat ->
       dict_mem (cell h l) k = true -> dict_mem (cell h' l) k = true.

(** The test [if not mapped: continue] of the builder, negated. *)
Definition is_mapped (f : field) : bool :=
  match target f with Some _ => true | None => false end.

(** A record whose values name no dict object: scalars, and lists of
    scalars. *)
Definition flat_record (h : heap) (rec : nat) : Prop :=
  forall k v, In (k, v) (cell h rec) -> refs v = [].

(** A mapped entry names its source: its [partner_field] is a string that
    is not empty. *)
Definition has_source (f : field) : Prop :=
  match target f with
  | Some _ => exists c p, partner_field f = Some (c :: p)
  | None => True
  end.

(** A scalar: a value that is no list and no dict. *)
Definition scalar_value (v : hval) : bool :=
  match v with
  | HList _ | HRef _ => false
  | _ => true
  end.

(** A record of scalars, as the rows of a delimited sample, the records of
    an XML sample and the flattened records are. *)
Definition scalar_record (h : heap) (rec : nat) : Prop :=
  forall k v, In (k, v) (cell h rec) -> scalar_value v = true.

(** A string that is not empty and holds white space only. *)
Definition is_blank (v : hval) : bool :=
  match v with
  | HStr (c :: s) => match strip (c :: s) with [] => true | _ => false end
  | _ => false
  end.

(** A record without a blank string. *)
Definition no_blank (h : heap) (rec : nat) : Prop :=
  forall k v, In (k, v) (cell h rec) -> is_blank v = false.

(** The dicts of an object: [l] is reached from the dict [c] through the
    values of dicts, also those inside lists. *)
Inductive reaches (h : heap) (c : nat) : nat -> Prop :=
| reaches_here : reaches h c c
| reaches_step (l : nat) (k : pystr) (v : hval) (l' : nat) :
    reaches h c l -> In (k, v) (cell h l) -> In l' (refs v) ->
    reaches h c l'.

(** The value is the empty string, or a list that holds one. *)
Fixpoint holds_empty (v : hval) : bool :=
  match v with
  | HStr [] => true
  | HList vs => existsb holds_empty vs
  | _ => false
  end.

(** Every item of the dicts from location [a] on satisfies [P]. *)
Definition cells_hold (P : pystr -> hval -> Prop) (a : nat) (h : heap) : Prop :=
  forall l k v, (a <= l < next h)%nat -> In (k, v) (cell h l) -> P k v.

Section Leaves.
Variable str_isdigit : pystr -> bool.
Variable int_of_str : pystr -> option Z.
Variable float_of_str : pystr -> option pyfloat.
Variable py_repr : heap -> hval -> pystr.
(** The store that [apply_mappings] is called on, a record of it and the
    mapping entries. *)
Variable h : heap.
Variable rec : nat.
Variable fields : list field.

(** The entry [f] writes the item [(k, v)]: it has a target whose last
    segment is [k], its source value in the record is neither [None] nor
    the empty string, and [v] is that value after the conversions. *)
Definition contributes (f : field) (k : pystr) (v : hval) : Prop :=
  exists mapped,
    target f = Some mapped
    /\ List.last (split DOT mapped) [] = k
    /\ heap_lookup h rec (partner_field f) <> HNone
    /\ heap_lookup h rec (partner_field f) <> HStr []
    /\ v = coerce str_isdigit int_of_str float_of_str
             (heap_lookup h rec (partner_field f)).

Definition written (k : pystr) (v : hval) : Prop :=
  exists f, In f fields /\ contributes f k v.

(** Where an item of a canonical object comes from: it names a dict of
    the object; or an entry wrote it; or it is the phone made a string,
    of a phone that an entry wrote or that is a dict. *)
Definition item_origin (k : pystr) (v : hval) : Prop :=
  (exists l, v = HRef l)
  \/ written k v
  \/ (k = PHONE
      /\ exists h' ph,
           v = HStr (py_str py_repr h' ph)
           /\ ph <> HNone /\ (forall s, ph <> HStr s)
           /\ ((exists l, ph = HRef l) \/ written PHONE ph)).

End Leaves.

End BuilderSpec.

(** ** The REST handler

    [handle_rest_sample] of [handlers/rest_handler.py]. *)

Module Rest.
Import Encoding Parse.

(** The output contract of a transport handler. *)
Record sample : Type :=
  mkSample { transport : pystr; sample_records : list pyval;
             raw_text : pystr; metadata : dict pyval }.

(** The keys under which the handler looks for the records, in the order
    of its loop. *)
Definition rest_keys : list pystr := [lit "shipments"; lit "data"; lit "items"].

Section Handler.
(** The file system: the bytes of a path that exists. *)
Variable fs : pystr -> option bytes.
(** [json.loads]; [None] when it raises. *)
Variable json_loads : pystr -> option pyval.
(** [requests.get(url, timeout=10)] followed by [raise_for_status()]: what
    is raised, or the text of the response with what [r.json()] returns
    ([None] when it raises). *)
Variable requests_get : pystr -> result (pystr * option pyval).
(** [str(v)] for a float, a list or a dict: their [repr]. *)
Variable py_repr : pyval -> pystr.

(** [str(data)] *)
Definition py_str (v : pyval) : pystr :=
  match v with
  | PNone => lit "None"
  | PBool true => lit "True"
  | PBool false => lit "False"
  | PInt z => str_of_Z z
  | PStr s => s
  | _ => py_repr v
  end.

(** The records that the handler takes from the parsed document. The loop
    stops at the first key that holds a list; when that list is empty the
    test [if not sample_records] sees no record and the document is
    wrapped. *)
Definition rest_records (data : pyval) : list pyval :=
  match data with
  | PDict d =>
      let sample_records :=
        match first_container d rest_keys with
        | Some l => slice_to 3 l
        | None => []
        end in
      match sample_records with
      | [] => [data]
      | _ => sample_records
      end
  | PList l => slice_to 3 l
  | _ => [PDict [(lit "raw", PStr (py_str data))]]
  end.

Definition is_url (s : pystr) : bool :=
  startswith (lit "http://") s || startswith (lit "https://") s.

(** The raw text and the parsed document: fetched from the URL, or read
    from the file as UTF-8 in text mode. [UnicodeDecodeError] and the
    errors of the JSON parsers are [OtherError]. *)
Definition fetch (file_or_url : pystr) : result (pystr * pyval) :=
  if is_url file_or_url then
    match requests_get file_or_url with
    | Raise e => Raise e
    | Ok (text, Some data) => Ok (text, data)
    | Ok (text, None) => Raise OtherError
    end
  else
    match fs file_or_url with
    | None => Raise FileNotFoundError
    | Some raw =>
        match utf8_decode (ords raw) with
        | None => Raise OtherError
        | Some txt =>
            let raw_text := Validator.universal_newlines txt in
            match json_loads raw_text with
            | Some data => Ok (raw_text, data)
            | None => Raise OtherError
            end
        end
    end.

(** [handle_rest_sample(file_or_url)] *)
Definition handle_rest_sample (file_or_url : pystr) : result sample :=
  match fetch file_or_url with
  | Raise e => Raise e
  | Ok (raw_text, data) =>
      Ok (mkSample (lit "rest") (rest_records data) raw_text
            [(lit "source", PStr file_or_url)])
  end.

End Handler.

End Rest.

(** ** Nested assignment in the transform script

    [set_nested] of [generate_and_run_transform.py]. The script builds
    every canonical object from [{}] and writes strings, floats and [None]
    only, so the object is a tree and the write is modelled on trees. *)

Module Transform.
Import Flatten.

(** The loop over [parts[:-1]] and the write of [parts[-1]]: a segment
    that is missing, or holds no dict, gets a new dict. *)
Fixpoint set_parts (d : dict pyval) (parts : list pystr) (value : pyval)
  : dict pyval :=
  match parts with
  | [] => d
  | [last] => dict_set d last value
  | p :: rest =>
      let child :=
        match dict_get d p with
        | Some (PDict c) => c
        | _ => []
        end in
      dict_set d p (PDict (set_parts child rest value))
  end.

(** [set_nested(d, path, value)]: the dict after the call. *)
Definition set_nested (d : dict pyval) (path : pystr) (value : pyval)
  : dict pyval :=
  set_parts d (split DOT path) value.

End Transform.

(** ** JSON in the text of a model

    [_extract_json_from_model_text] of [ingest.py]. *)

Module ModelText.

Definition LBRACE : N := 0x7B.
Definition RBRACE : N := 0x7D.
Definition LBRACKET : N := 0x5B.
Definition RBRACKET : N := 0x5D.

(** The longest prefix of [s] that ends with [c]: what a greedy
    [(?:.|\n)*] followed by [c] matches. *)
Fixpoint upto_last (c : N) (s : pystr) : option pystr :=
  match s with
  | [] => None
  | x :: s' =>
      match upto_last c s' with
      | Some p => Some (x :: p)
      | None => if x =? c then Some [x] else None
      end
  end.

(** The first match of the pattern for an object or an array: at the
    leftmost position where a brace has a closing brace after it, or a
    bracket a closing bracket, up to the last of them. *)
Fixpoint first_span (s : pystr) : option pystr :=
  match s with
  | [] => None
  | x :: s' =>
      if x =? LBRACE then
        match upto_last RBRACE s' with
        | Some p => Some (x :: p)
        | None => first_span s'
        end
      else if x =? LBRACKET then
        match upto_last RBRACKET s' with
        | Some p => Some (x :: p)
        | None => first_span s'
        end
      else first_span s'
  end.

(** [re.sub(r",\s*X", "X", s)] for a closing character [X]: a comma, the
    white space after it and [X] become [X]. [pend] holds a comma and the
    white space read after it, reversed, while the match is open. *)
Fixpoint drop_commas (close : N) (pend : option pystr) (s : pystr) : pystr :=
  match s with
  | [] => match pend with Some buf => rev buf | None => [] end
  | x :: s' =>
      match pend with
      | Some buf =>
          if x =? close then close :: drop_commas close None s'
          else if is_space x then drop_commas close (Some (x :: buf)) s'
          else if x =? 0x2C then rev buf ++ drop_commas close (Some [x]) s'
          else rev buf ++ x :: drop_commas close None s'
      | None =>
          if x =? 0x2C then drop_commas close (Some [x]) s'
          else x :: drop_commas close None s'
      end
  end.

Section Extract.
(** [json.loads]; [None] when it raises. *)
Variable json_loads : pystr -> option pyval.

(** [_extract_json_from_model_text(text)]; [ValueError] is
    [OtherError]. *)
Definition _extract_json_from_model_text (text : pystr) : result pyval :=
  let text := strip text in
  match json_loads text with
  | Some v => Ok v
  | None =>
      match first_span text with
      | Some candidate =>
          match json_loads candidate with
          | Some v => Ok v
          | None =>
              let fixed := drop_commas RBRACE None candidate in
              let fixed := drop_commas RBRACKET None fixed in
              match json_loads fixed with
              | Some v => Ok v
              | None => Raise OtherError
              end
          end
      | None => Raise OtherError
      end
  end.

End Extract.

End ModelText.

(** ** The log of the interface

    [log_llm] of [streamlit_mapping_ui.py]. *)

Module Ui.

Record log_entry : Type :=
  mkEntry { time : pystr; model : pystr; raw_prompt : pyval;
            raw_response : pyval }.

(** A call of [log_llm]: the clock [datetime.utcnow().isoformat()] at the
    call, and the three arguments. *)
Record log_call : Type :=
  mkCall { now : pystr; prompt : pyval; response : pyval; model_name : pystr }.

Definition entry_of (c : log_call) : log_entry :=
  mkEntry (now c ++ lit "Z") (model_name c) (prompt c) (response c).

(** [log_llm(raw_prompt, raw_response, model_name)] on the value of
    [st.session_state["llm_logs"]], which is [None] before the first call:
    the value after the call. *)
Definition log_llm (llm_logs : option (list log_entry)) (c : log_call)
  : option (list log_entry) :=
  let logs := match llm_logs with Some l => l | None => [] end in
  let logs := entry_of c :: logs in
  Some (firstn 200 logs).

(** The list that the expander of the interface shows. *)
Definition shown (llm_logs : option (list log_entry)) : list log_entry :=
  match llm_logs with Some l => l | None => [] end.

End Ui.

(** * Properties *)

Module PyFacts.

Lemma str_eqb_spec a b : reflect (a = b) (str_eqb a b).
Proof.
  revert b; induction a as [|x a IH]; intros [|y b]; simpl;
    try (constructor; congruence).
  destruct (N.eqb_spec x y) as [->|Hne]; simpl.
  - destruct (IH b) as [->|Hne]; constructor; congruence.
  - constructor; congruence.
Qed.

Lemma str_eqb_refl a : str_eqb a a = true.
Proof. destruct (str_eqb_spec a a); congruence. Qed.

Lemma str_eqb_eq a b : str_eqb a b = true <-> a = b.
Proof. destruct (str_eqb_spec a b); split; congruence. Qed.

Lemma str_eqb_neq a b : str_eqb a b = false <-> a <> b.
Proof. destruct (str_eqb_spec a b); split; congruence. Qed.

Lemma Forall_In {A} (P : A -> Prop) (l : list A) :
  Forall P l -> forall x, In x l -> P x.
Proof.
  induction 1 as [|y l Hy _ IH]; intros x []; [subst; assumption | now apply IH].
Qed.

End PyFacts.

(** ** Encoding and text recovery *)

Module EncodingProps.
Import Encoding.

(** [remove_char] leaves no occurrence of the character. *)
Lemma remove_char_absent c s : ~ In c (remove_char c s).
Proof.
  unfold remove_char. rewrite filter_In. intros [_ H].
  rewrite N.eqb_refl in H. discriminate.
Qed.

(** The UTF-16 branch strips every NUL. *)
Lemma utf16_branch_no_nul raw :
  startswith [0xFF; 0xFE] (ords raw) || startswith [0xFE; 0xFF] (ords raw) = true ->
  ~ In 0 (read_file_bytes_to_text raw).
Proof.
  intros H. unfold read_file_bytes_to_text. rewrite H.
  apply remove_char_absent.
Qed.

(** One of the four candidate decoders accepts the bytes: the last one
    accepts everything, and the lossy fallback is never reached. *)
Lemma candidate_decoders_succeed b :
  exists text,
    first_decoding [utf8_sig_decode; utf8_decode; cp1252_decode; latin1_decode] b
    = Some text.
Proof.
  simpl. destruct (utf8_sig_decode b) as [t|]; [now exists t|].
  destruct (utf8_decode b) as [t|]; [now exists t|].
  destruct (cp1252_decode b) as [t|]; [now exists t|].
  now exists b.
Qed.

(** C1. [read_file_bytes_to_text] returns a text for every byte sequence,
    but the text is not always free of NUL. The three bytes 61 00 62 carry
    no UTF-16 mark, decode as UTF-8 and come back as the three characters
    a, NUL, b: the NUL is stripped in the UTF-16 branch only. *)
Theorem read_file_bytes_to_text_keeps_nul :
  read_file_bytes_to_text [x61; x00; x62] = [0x61; 0x00; 0x62]
  /\ In 0 (read_file_bytes_to_text [x61; x00; x62]).
Proof. split; [reflexivity | vm_compute; tauto]. Qed.

End EncodingProps.

(** ** Delimiter detection *)

Module DelimiterProps.
Import Delimiter Spec.

Lemma count_char_nonneg c s : (0 <= count_char c s)%Z.
Proof. induction s as [|x s IH]; simpl; [lia|]. destruct (N.eqb x c); lia. Qed.

(** C6, amended. [detect_csv_delimiter] returns the first candidate, in the
    order comma, tab, semicolon, pipe, whose count in the sample is the
    highest; the sample is the first ten non-blank lines, or the first 2000
    characters of a text without a non-blank line. On the text of the
    specification, with as many commas as semicolons, it returns the
    comma. *)
Theorem detect_csv_delimiter_first_highest text :
  (exists before after,
      candidates = before ++ detect_csv_delimiter text :: after
      /\ (forall c, In c before ->
            (count_char c (sample_of text)
             < count_char (detect_csv_delimiter text) (sample_of text))%Z)
      /\ (forall c, In c after ->
            (count_char c (sample_of text)
             <= count_char (detect_csv_delimiter text) (sample_of text))%Z))
  /\ detect_csv_delimiter
       (lit "a,b;c" ++ [0x0A] ++ lit "1,2;3" ++ [0x0A] ++ lit "4,5;6") = COMMA.
Proof.
  split; [|reflexivity].
  unfold detect_csv_delimiter, candidates. cbn [fold_left].
  generalize (sample_of text); intros s.
  pose proof (count_char_nonneg COMMA s) as H1.
  pose proof (count_char_nonneg TAB s) as H2.
  pose proof (count_char_nonneg SEMICOLON s) as H3.
  pose proof (count_char_nonneg PIPE s) as H4.
  unfold better; cbn [fst snd].
  destruct (Z.ltb_spec (-1) (count_char COMMA s)) as [_|?]; [|lia].
  cbn [fst snd].
  destruct (Z.ltb_spec (count_char COMMA s) (count_char TAB s)); cbn [fst snd];
  [ destruct (Z.ltb_spec (count_char TAB s) (count_char SEMICOLON s))
  | destruct (Z.ltb_spec (count_char COMMA s) (count_char SEMICOLON s)) ];
  cbn [fst snd];
  match goal with
  | |- context [Z.ltb ?a (count_char PIPE s)] =>
      destruct (Z.ltb_spec a (count_char PIPE s))
  end; cbn [fst snd].
  all: first
    [ exists [], [TAB; SEMICOLON; PIPE]; split; [reflexivity|]
    | exists [COMMA], [SEMICOLON; PIPE]; split; [reflexivity|]
    | exists [COMMA; TAB], [PIPE]; split; [reflexivity|]
    | exists [COMMA; TAB; SEMICOLON], []; split; [reflexivity|] ].
  all: split; intros c Hc; cbn [In] in Hc;
    repeat (destruct Hc as [<-|Hc]; [lia|]); destruct Hc.
Qed.

(** C6, the claim as worded fails: with one semicolon and one tab and no
    comma, the order of the specification selects the semicolon and the
    code selects the tab. *)
Lemma detect_csv_delimiter_tab_before_semicolon :
  let text := lit "a;b" ++ [TAB] ++ lit "c" in
  count_char SEMICOLON (sample_of text) = count_char TAB (sample_of text)
  /\ spec_delimiter text = SEMICOLON
  /\ detect_csv_delimiter text = TAB
  /\ detect_csv_delimiter text <> spec_delimiter text.
Proof. vm_compute. repeat split; congruence. Qed.

End DelimiterProps.

(** ** Dicts *)

Module DictFacts.
Import PyFacts Spec.

Section Facts.
Context {V : Type}.
Implicit Types (d : dict V) (k : pystr) (v : V).

Lemma dict_get_set_same d k v : dict_get (dict_set d k v) k = Some v.
Proof.
  induction d as [|[k' v'] d IH]; simpl.
  - now rewrite str_eqb_refl.
  - destruct (str_eqb k' k) eqn:E; simpl.
    + now rewrite str_eqb_refl.
    + now rewrite E.
Qed.

Lemma dict_get_set_other d k k' v :
  k <> k' -> dict_get (dict_set d k v) k' = dict_get d k'.
Proof.
  intros Hne. induction d as [|[k0 v0] d IH]; simpl.
  - apply str_eqb_neq in Hne. now rewrite Hne.
  - destruct (str_eqb k0 k) eqn:E; simpl.
    + apply str_eqb_eq in E; subst k0.
      apply str_eqb_neq in Hne. now rewrite Hne.
    + destruct (str_eqb k0 k'); [reflexivity | exact IH].
Qed.

Lemma dict_get_In d k v : dict_get d k = Some v -> In (k, v) d.
Proof.
  induction d as [|[k' v'] d IH]; simpl; [discriminate|].
  destruct (str_eqb_spec k' k) as [->|Hne].
  - intros [= ->]. now left.
  - intros H. right. now apply IH.
Qed.

(** In a dict without a repeated key, an item is what its key gets. *)
Lemma In_dict_get d k v :
  unique_keys d = true -> In (k, v) d -> dict_get d k = Some v.
Proof.
  induction d as [|[k' v'] d IH]; simpl; [tauto|].
  intros Hu [[= -> ->]|Hin].
  - now rewrite str_eqb_refl.
  - apply andb_true_iff in Hu as [Hk Hu].
    destruct (str_eqb_spec k' k) as [->|Hne]; [|now apply IH].
    unfold dict_mem in Hk. rewrite (IH Hu Hin) in Hk. discriminate.
Qed.

(** An entry of [dict(items)] is one of the items. *)
Lemma dict_update_get d items k v :
  dict_get (dict_update d items) k = Some v ->
  dict_get d k = Some v \/ In (k, v) items.
Proof.
  unfold dict_update. revert d.
  induction items as [|[k0 v0] items IH]; simpl; intros d H; [now left|].
  apply IH in H as [H|H]; [|now right; right].
  destruct (str_eqb_spec k0 k) as [->|Hne].
  - rewrite dict_get_set_same in H. injection H as ->. right; now left.
  - rewrite dict_get_set_other in H by assumption. now left.
Qed.

Lemma dict_of_items_get items k v :
  dict_get (dict_of_items items) k = Some v -> In (k, v) items.
Proof.
  intros H. apply dict_update_get in H as [H|H]; [discriminate | exact H].
Qed.

End Facts.

End DictFacts.

(** ** Path flattener *)

Module FlattenProps.
Import PyFacts DictFacts Flatten Spec.

Lemma key_ok_no_dot k : key_ok k = true -> k <> [] /\ no_dot k.
Proof.
  unfold key_ok, no_dot. destruct k as [|c k]; [discriminate|].
  intros H. split; [discriminate|].
  rewrite forallb_forall in H. intros Hin. specialize (H _ Hin).
  rewrite N.eqb_refl in H. discriminate.
Qed.

Lemma split_from_no_dot c acc k :
  ~ In c k -> split_from c acc k = [rev acc ++ k].
Proof.
  revert acc. induction k as [|x k IH]; intros acc Hn; simpl.
  - now rewrite app_nil_r.
  - destruct (N.eqb_spec x c) as [->|Hne]; [exfalso; apply Hn; now left|].
    rewrite IH by (intros H; apply Hn; now right).
    simpl. now rewrite <- app_assoc.
Qed.

Lemma split_from_app c acc a b :
  split_from c acc (a ++ [c] ++ b) = split_from c acc a ++ split c b.
Proof.
  revert acc. induction a as [|x a IH]; intros acc; simpl.
  - now rewrite N.eqb_refl.
  - destruct (N.eqb x c); [|apply IH].
    simpl. f_equal. apply IH.
Qed.

(** Splitting a dotted path gives its segments back, when no segment holds
    a dot. *)
Lemma split_join ks :
  ks <> [] -> Forall no_dot ks -> split DOT (join [DOT] ks) = ks.
Proof.
  induction ks as [|k ks IH]; [congruence|]. intros _ Hks.
  apply Forall_cons_iff in Hks as [Hk Hks].
  destruct ks as [|k2 ks].
  - simpl. unfold split. now rewrite split_from_no_dot.
  - change (join [DOT] (k :: k2 :: ks)) with (k ++ [DOT] ++ join [DOT] (k2 :: ks)).
    unfold split at 1. rewrite split_from_app.
    rewrite split_from_no_dot by assumption. simpl.
    f_equal. apply IH; [discriminate | assumption].
Qed.

Lemma path_from_join p0 ks :
  p0 <> [] -> path_from p0 ks = join [DOT] (p0 :: ks).
Proof.
  revert p0. induction ks as [|k ks IH]; intros p0 Hp0; [reflexivity|].
  unfold path_from in *. simpl fold_left.
  assert (Hk : key_prefix p0 k = p0 ++ [DOT] ++ k)
    by (destruct p0; [congruence | reflexivity]).
  rewrite Hk, IH by (destruct p0; [congruence | discriminate]).
  destruct ks as [|k2 ks]; simpl; [reflexivity|].
  now rewrite <- !app_assoc.
Qed.

Abbreviation tree_walk := (walk (fun d : dict pyval => d) tree_as_dict).

Lemma dotted_record_dict d :
  dotted_record (PDict d) = true ->
  unique_keys d = true
  /\ Forall (fun kv => key_ok (fst kv) = true /\ dotted_record (snd kv) = true) d.
Proof.
  simpl. intros H. apply andb_true_iff in H as [Hu Hall]. split; [exact Hu|].
  clear Hu. induction d as [|[k x] d IH]; constructor.
  - simpl. apply andb_true_iff in Hall as [Hkx _].
    now apply andb_true_iff in Hkx.
  - apply IH. now apply andb_true_iff in Hall as [_ Hall].
Qed.

Lemma flatten_dict_In d prefix p v :
  In (p, v) (_flatten (PDict d) prefix) ->
  exists k x, In (k, x) d /\ In (p, v) (_flatten x (key_prefix prefix k)).
Proof.
  simpl. induction d as [|[k x] d IH]; [intros []|].
  intros H. apply in_app_or in H as [H|H].
  - exists k, x. split; [now left | exact H].
  - destruct (IH H) as (k' & x' & Hin & Hp). exists k', x'. split; [now right | exact Hp].
Qed.

(** Every item of the flattener is reached from the object by the keys that
    built its path. *)
Lemma flatten_reaches obj :
  forall prefix p v,
    dotted_record obj = true ->
    In (p, v) (_flatten obj prefix) ->
    exists ks, Forall (fun k => key_ok k = true) ks
               /\ tree_walk obj ks = Some v
               /\ p = path_from prefix ks.
Proof.
  induction obj as [ | b | z | f | s | l _ | d IH] using pyval_nested_ind;
    intros prefix p v Hwf Hin;
    try (destruct Hin as [[= <- <-]|[]]; exists []; repeat split; constructor).
  - discriminate.
  - apply dotted_record_dict in Hwf as [Hu Hall].
    apply flatten_dict_In in Hin as (k & x & Hkx & Hin).
    destruct (Forall_In _ _ Hall _ Hkx) as [Hk Hx]. simpl in Hk, Hx.
    destruct (Forall_In _ _ IH _ Hkx _ _ _ Hx Hin) as (ks & Hks & Hwalk & ->).
    exists (k :: ks). split; [now constructor|]. split; [|reflexivity].
    simpl. now rewrite (In_dict_get _ _ _ Hu Hkx).
Qed.

(** The first tier of the lookup: the path is a key of the record. *)
Lemma lookup_direct (rec : dict pyval) p v :
  p <> [] -> dict_get rec p = Some v -> lookup rec (Some p) = v.
Proof.
  intros Hp H. unfold lookup, get_nested_value.
  destruct p; [congruence|]. now rewrite H.
Qed.

(** The second tier: the path is no key, its segments lead to a value. *)
Lemma lookup_walk (rec : dict pyval) p v :
  p <> [] -> dict_get rec p = None ->
  tree_walk (PDict rec) (split DOT p) = Some v ->
  lookup rec (Some p) = v.
Proof.
  intros Hp H Hw. unfold lookup, get_nested_value.
  destruct p; [congruence|]. now rewrite H, Hw.
Qed.

Lemma join_cons_not_nil k ks : k <> [] -> join [DOT] (k :: ks) <> [].
Proof.
  destruct k; [congruence|]. destruct ks; simpl; discriminate.
Qed.

Lemma distinct_app_r a b : distinct (a ++ b) = true -> distinct b = true.
Proof.
  induction a as [|x a IH]; simpl; [trivial|].
  intros H. apply andb_true_iff in H as [_ H]. now apply IH.
Qed.

Lemma distinct_app_common a b z :
  distinct (a ++ b) = true -> In z a -> In z b -> False.
Proof.
  induction a as [|x a IH]; simpl; [tauto|].
  intros H [<-|Ha] Hb; apply andb_true_iff in H as [Hx H].
  - apply negb_true_iff in Hx.
    assert (Hex : existsb (str_eqb x) (a ++ b) = true).
    { apply existsb_exists. exists x. split; [|apply str_eqb_refl].
      apply in_or_app. now right. }
    congruence.
  - exact (IH H Ha Hb).
Qed.

Lemma flatten_dict_cons k x d prefix :
  _flatten (PDict ((k, x) :: d)) prefix
  = _flatten x (key_prefix prefix k) ++ _flatten (PDict d) prefix.
Proof. reflexivity. Qed.

Lemma flatten_dict_path d prefix k x p v :
  In (k, x) d -> In (p, v) (_flatten x (key_prefix prefix k)) ->
  In p (List.map fst (_flatten (PDict d) prefix)).
Proof.
  induction d as [|[k0 x0] d IH]; [intros []|].
  rewrite flatten_dict_cons, List.map_app, in_app_iff.
  intros [[= -> ->]|Hin] Hp.
  - left. apply in_map_iff. now exists (p, v).
  - right. now apply IH.
Qed.

(** Two items of a record that flatten to a common path: the paths of the
    record are not distinct. *)
Lemma flatten_collision rec k x k' x' p v v' :
  In (k, x) rec -> In (k', x') rec -> k <> k' ->
  In (p, v) (_flatten x k) -> In (p, v') (_flatten x' k') ->
  distinct_paths rec = true -> False.
Proof.
  unfold distinct_paths.
  induction rec as [|[k0 x0] rec IH]; [intros []|].
  rewrite flatten_dict_cons, List.map_app.
  change (key_prefix [] k0) with k0.
  intros [[= -> ->]|Hin] [[= -> ->]|Hin'] Hne Hp Hp' Hd.
  - congruence.
  - apply (distinct_app_common _ _ p Hd).
    + apply in_map_iff. now exists (p, v).
    + exact (flatten_dict_path rec [] k' x' p v' Hin' Hp').
  - apply (distinct_app_common _ _ p Hd).
    + apply in_map_iff. now exists (p, v').
    + exact (flatten_dict_path rec [] k x p v Hin Hp).
  - exact (IH Hin Hin' Hne Hp Hp' (distinct_app_r _ _ Hd)).
Qed.

Lemma flatten_leaf x prefix : is_leaf x = true -> _flatten x prefix = [(prefix, x)].
Proof. destruct x; intros H; try reflexivity; discriminate. Qed.

Lemma join_has_dot k k2 ks : In DOT (join [DOT] (k :: k2 :: ks)).
Proof.
  change (join [DOT] (k :: k2 :: ks)) with (k ++ [DOT] ++ join [DOT] (k2 :: ks)).
  apply in_or_app; right. now left.
Qed.

(** C2, amended. For a record made of mappings and scalars only, whose keys
    are not empty, in which a key holds a dot only at the top level and
    only for a scalar, and whose leaves flatten to distinct paths, every
    (path, value) of [flatten_record] is found again:
    [get_nested_value(record, path)] is that value. *)
Theorem flatten_lookup_roundtrip (rec : dict pyval) (path : pystr) (v : pyval) :
  addressable rec = true ->
  distinct_paths rec = true ->
  dict_get (flatten_record (PDict rec)) path = Some v ->
  lookup rec (Some path) = v.
Proof.
  intros Hwf Hdistinct Hget. apply dict_of_items_get in Hget.
  apply andb_true_iff in Hwf as [Hu Hall].
  rewrite forallb_forall in Hall.
  apply flatten_dict_In in Hget as (k & x & Hkx & Hin).
  change (key_prefix [] k) with k in Hin.
  pose proof (In_dict_get _ _ _ Hu Hkx) as Hgetk.
  pose proof (Hall _ Hkx) as Hitem. unfold item_ok in Hitem.
  cbn [fst snd] in Hitem.
  destruct (is_leaf x) eqn:Hleaf.
  - rewrite (flatten_leaf x k Hleaf) in Hin.
    destruct Hin as [[= <- <-]|[]].
    apply lookup_direct; [now destruct k | exact Hgetk].
  - apply andb_true_iff in Hitem as [Hk Hx].
    destruct (key_ok_no_dot _ Hk) as [Hne Hnd].
    destruct (flatten_reaches x _ _ _ Hx Hin) as (ks & Hks & Hwalk & Hpath).
    rewrite path_from_join in Hpath by assumption.
    assert (Hkeys : Forall no_dot (k :: ks)).
    { constructor; [assumption|]. eapply Forall_impl; [exact Hks|].
      intros a Ha. now apply key_ok_no_dot in Ha. }
    destruct ks as [|k2 ks].
    + simpl in Hwalk, Hpath. injection Hwalk as <-. subst path.
      apply lookup_direct; assumption.
    + subst path. apply lookup_walk.
      * now apply join_cons_not_nil.
      * destruct (dict_get rec (join [DOT] (k :: k2 :: ks))) as [y|] eqn:Hdirect;
          [exfalso|exact Hdirect].
        apply dict_get_In in Hdirect.
        pose proof (Hall _ Hdirect) as Hy. unfold item_ok in Hy.
        cbn [fst snd] in Hy.
        destruct (is_leaf y) eqn:Hyleaf.
        -- apply (flatten_collision rec k x (join [DOT] (k :: k2 :: ks)) y
                    (join [DOT] (k :: k2 :: ks)) v y Hkx Hdirect); trivial.
           ++ intros Heq. apply Hnd. rewrite Heq. apply join_has_dot.
           ++ rewrite (flatten_leaf y _ Hyleaf). now left.
        -- apply andb_true_iff in Hy as [Hy _].
           apply key_ok_no_dot in Hy as [_ Hy]. apply Hy, join_has_dot.
      * rewrite split_join by (assumption || discriminate).
        simpl. rewrite Hgetk. exact Hwalk.
Qed.

(** C2, the claim as worded fails: the flattener gives the path a[0].b
    for an element of a list, and the lookup, which only walks mappings,
    returns [None] for it; it also returns [None] for the path a.b.c of
    a nested key b.c that holds a dot. *)
Lemma flatten_lookup_list_path_lost :
  let rec := [(lit "a", PList [PDict [(lit "b", PInt 1)]])] in
  let rec2 := [(lit "a", PDict [(lit "b.c", PInt 1)])] in
  dict_get (flatten_record (PDict rec)) (lit "a[0].b") = Some (PInt 1)
  /\ lookup rec (Some (lit "a[0].b")) = PNone
  /\ dict_get (flatten_record (PDict rec2)) (lit "a.b.c") = Some (PInt 1)
  /\ lookup rec2 (Some (lit "a.b.c")) = PNone.
Proof. vm_compute. repeat split. Qed.

(** The round trip on a record of two levels, with a key that holds a
    dot at the top. *)
Lemma flatten_lookup_roundtrip_witness :
  let rec := [(lit "ship.to", PStr (lit "Jane"));
              (lit "address", PDict [(lit "city", PStr (lit "Oslo"));
                                     (lit "zip", PInt 150)])] in
  (addressable rec = true /\ distinct_paths rec = true)
  /\ (dict_get (flatten_record (PDict rec)) (lit "address.zip") = Some (PInt 150)
      /\ lookup rec (Some (lit "address.zip")) = PInt 150)
  /\ (dict_get (flatten_record (PDict rec)) (lit "ship.to")
       = Some (PStr (lit "Jane"))
      /\ lookup rec (Some (lit "ship.to")) = PStr (lit "Jane")).
Proof.
  intros rec.
  assert (Hwf : addressable rec = true) by reflexivity.
  assert (Hd : distinct_paths rec = true) by reflexivity.
  assert (Hzip : dict_get (flatten_record (PDict rec)) (lit "address.zip")
                 = Some (PInt 150)) by reflexivity.
  assert (Hto : dict_get (flatten_record (PDict rec)) (lit "ship.to")
                = Some (PStr (lit "Jane"))) by reflexivity.
  split; [split; assumption|]. split; (split; [assumption|]).
  - exact (flatten_lookup_roundtrip rec (lit "address.zip") (PInt 150)
             Hwf Hd Hzip).
  - exact (flatten_lookup_roundtrip rec (lit "ship.to") (PStr (lit "Jane"))
             Hwf Hd Hto).
Defined.

(** C10. With an empty path, or [None] for a path, [get_nested_value]
    returns the record itself, on every store of objects. *)
Theorem get_nested_value_falsy_path {D V : Type} (contents : D -> dict V)
  (as_dict : V -> option D) (of_dict : D -> V) (none : V) (obj : D) :
  get_nested_value contents as_dict of_dict none obj None = of_dict obj
  /\ get_nested_value contents as_dict of_dict none obj (Some []) = of_dict obj
  /\ forall rec : dict pyval,
       lookup rec None = PDict rec /\ lookup rec (Some []) = PDict rec.
Proof. repeat split. Qed.

End FlattenProps.

(** ** Sample parsing *)

Module ParseProps.
Import PyFacts Encoding Delimiter Parse Spec.

Lemma slice_to_length {A} (n : Z) (l : list A) :
  (0 <= n)%Z -> (Z.of_nat (length (slice_to n l)) <= n)%Z.
Proof.
  intros Hn. unfold slice_to.
  destruct (Z.leb_spec 0 n) as [_|?]; [|lia].
  rewrite length_firstn. lia.
Qed.

Lemma slice_to_firstn {A} (n : Z) (l : list A) :
  (0 <= n)%Z -> slice_to n l = firstn (Z.to_nat n) l.
Proof.
  intros Hn. unfold slice_to. destruct (Z.leb_spec 0 n); [reflexivity | lia].
Qed.

Lemma slice_from_to_length {A} (n : Z) (l : list A) :
  (0 <= n)%Z -> (Z.of_nat (length (slice_from_to 1 (1 + n) l)) <= n)%Z.
Proof.
  intros Hn. unfold slice_from_to.
  rewrite length_skipn.
  pose proof (slice_to_length (1 + n) l ltac:(lia)). lia.
Qed.

(** The JSON branch returns at most [max_rows] rows of a list, or the one
    wrapped object. *)
Lemma json_records_cap obj max_rows records :
  (0 <= max_rows)%Z ->
  json_records obj max_rows = Some records ->
  (Z.of_nat (length records) <= Z.max 1 max_rows)%Z.
Proof.
  intros Hn. unfold json_records.
  destruct obj as [ | | | | | l | d]; try discriminate.
  - intros [= <-]. pose proof (slice_to_length max_rows l Hn). lia.
  - destruct (first_container d container_keys) as [l|].
    + intros [= <-]. pose proof (slice_to_length max_rows l Hn). lia.
    + destruct (list_values d) as [|l ?]; intros [= <-].
      * simpl. lia.
      * pose proof (slice_to_length max_rows l Hn). lia.
Qed.

(** The loop over the reader keeps at most one row for every index below
    [max_rows]. *)
Lemma csv_loop_cap reader raises i max_rows rows out :
  (Z.of_nat (length rows) <= i)%Z -> (i <= max_rows)%Z ->
  csv_loop reader raises i max_rows rows = Some out ->
  (Z.of_nat (length out) <= max_rows)%Z.
Proof.
  revert i rows. induction reader as [|r reader IH]; intros i rows Hlen Hi; simpl.
  - destruct raises; [discriminate|]. intros [= <-]. lia.
  - destruct (Z.leb_spec max_rows i) as [?|Hlt]; [intros [= <-]; lia|].
    apply IH; [|lia].
    destruct (any_nonblank (clean_row r)); [|lia].
    rewrite length_app. simpl. lia.
Qed.

Lemma manual_fold_length delim header lines rows :
  (length
     (fold_left
        (fun rows ln =>
           let rec := manual_record delim header ln in
           if any_nonblank rec then rows ++ [PDict rec] else rows)
        lines rows)
   <= length rows + length lines)%nat.
Proof.
  revert rows. induction lines as [|ln lines IH]; intros rows; simpl; [lia|].
  etransitivity; [apply IH|].
  destruct (any_nonblank _); [rewrite length_app; simpl|]; lia.
Qed.

Lemma manual_rows_cap delim lines max_rows :
  (0 <= max_rows)%Z ->
  (Z.of_nat (length (manual_rows delim lines max_rows)) <= max_rows)%Z.
Proof.
  intros Hn. unfold manual_rows.
  pose proof (manual_fold_length delim
                (List.map clean_key (split delim (hd [] lines)))
                (slice_from_to 1 (1 + max_rows) lines) []) as H.
  pose proof (slice_from_to_length max_rows lines Hn).
  simpl in H. lia.
Qed.

Lemma nonempty_rows_id rows out : nonempty_rows rows = Some out -> out = rows.
Proof. destruct rows; [discriminate | now intros [= <-]]. Qed.

Section WithParsers.
Variable fs : pystr -> option bytes.
Variable json_loads : pystr -> option pyval.
Variable ET_fromstring : pystr -> option element.
Variable csv_DictReader : pystr -> N -> list csv_row * bool.

Abbreviation parse :=
  (parse_sample_to_records fs json_loads ET_fromstring csv_DictReader).

Lemma delimited_stage_cap txt lines max_rows rows :
  (0 <= max_rows)%Z ->
  delimited_stage csv_DictReader txt lines max_rows = Some rows ->
  (Z.of_nat (length rows) <= max_rows)%Z.
Proof.
  intros Hn. unfold delimited_stage.
  destruct lines as [|ln lines]; [discriminate|].
  destruct (csv_DictReader txt (detect_csv_delimiter txt)) as [reader raises].
  destruct (csv_loop reader raises 0 max_rows []) as [out|] eqn:Hloop.
  - intros H. apply nonempty_rows_id in H as ->.
    eapply csv_loop_cap; [| |exact Hloop]; simpl; lia.
  - intros H. apply nonempty_rows_id in H as ->.
    now apply manual_rows_cap.
Qed.

(** C5, amended. For a path that does not exist,
    [parse_sample_to_records] returns the empty sample, no record and the
    empty text, and raises nothing; the transport handler
    [handle_sftp_sample] raises [FileNotFoundError] before it reads. *)
Theorem missing_path_empty_sample (C : Type)
  (read_frame : pystr -> bytes -> result C) (path : pystr) (max_rows : Z) :
  fs path = None ->
  parse path max_rows = Ok ([], [])
  /\ handle_sftp_sample fs C read_frame path = Raise FileNotFoundError.
Proof.
  intros H. unfold parse_sample_to_records, handle_sftp_sample.
  now rewrite H.
Qed.

Lemma first_container_some d cands before c after l :
  cands = before ++ c :: after ->
  (forall c', In c' before -> ~ list_valued d c') ->
  dict_get d c = Some (PList l) ->
  first_container d cands = Some l.
Proof.
  intros -> Hbefore Hc. induction before as [|b before IH]; simpl.
  - now rewrite Hc.
  - destruct (dict_get d b) as [[ | | | | | lb | ]|] eqn:Hb;
      try (apply IH; intros c' Hc'; apply Hbefore; now right).
    exfalso. apply (Hbefore b); [now left | now exists lb].
Qed.

Lemma first_container_none d cands :
  (forall c, In c cands -> ~ list_valued d c) ->
  first_container d cands = None.
Proof.
  induction cands as [|b cands IH]; intros H; simpl; [reflexivity|].
  destruct (dict_get d b) as [[ | | | | | lb | ]|] eqn:Hb;
    try (apply IH; intros c' Hc'; apply H; now right).
  exfalso. apply (H b); [now left | now exists lb].
Qed.

Lemma list_values_first d1 k l d2 :
  (forall kv, In kv d1 -> is_list (snd kv) = false) ->
  list_values (d1 ++ (k, PList l) :: d2) = l :: list_values d2.
Proof.
  induction d1 as [|[k1 v1] d1 IH]; intros H; simpl; [reflexivity|].
  pose proof (H (k1, v1) ltac:(now left)) as Hv. simpl in Hv.
  destruct v1; try discriminate; apply IH; intros kv Hkv; apply H; now right.
Qed.

Lemma list_values_none d :
  (forall kv, In kv d -> is_list (snd kv) = false) -> list_values d = [].
Proof.
  induction d as [|[k1 v1] d IH]; intros H; simpl; [reflexivity|].
  pose proof (H (k1, v1) ltac:(now left)) as Hv. simpl in Hv.
  destruct v1; try discriminate; apply IH; intros kv Hkv; apply H; now right.
Qed.

(** C7, amended. When the text is taken for JSON and its parse is an
    object, the records are: the list (capped) under the first of the
    keys shipments, items, data, records, payload whose value is a list;
    without such a key, the first list (capped) among the values of the
    object itself, in key order; without a list among them, the object
    alone. Lists nested deeper are not looked for. *)
Theorem json_object_records (path : pystr) (max_rows : Z) (raw : bytes)
  (d : dict pyval) :
  fs path = Some raw ->
  let text := read_file_bytes_to_text raw in
  startswith (lit "{") (strip text) || startswith (lit "[") (strip text) = true ->
  json_loads (strip text) = Some (PDict d) ->
  exists records,
    parse path max_rows = Ok (records, text)
    /\ (forall before c after l,
          container_keys = before ++ c :: after ->
          (forall c', In c' before -> ~ list_valued d c') ->
          dict_get d c = Some (PList l) ->
          records = slice_to max_rows l)
    /\ ((forall c, In c container_keys -> ~ list_valued d c) ->
        (forall d1 k l d2,
            d = d1 ++ (k, PList l) :: d2 ->
            (forall kv, In kv d1 -> is_list (snd kv) = false) ->
            records = slice_to max_rows l)
        /\ ((forall kv, In kv d -> is_list (snd kv) = false) ->
            records = [PDict d])).
Proof.
  intros Hfs text Hstart Hjson.
  unfold parse_sample_to_records. rewrite Hfs. fold text.
  unfold json_stage. rewrite Hstart, Hjson. unfold json_records.
  destruct (first_container d container_keys) as [l0|] eqn:Hfirst.
  - exists (slice_to max_rows l0). split; [reflexivity|]. split.
    + intros before c after l Hc Hbefore Hl.
      rewrite (first_container_some _ _ _ _ _ _ Hc Hbefore Hl) in Hfirst.
      now injection Hfirst as <-.
    + intros Hnone. rewrite (first_container_none _ _ Hnone) in Hfirst.
      discriminate.
  - destruct (list_values d) as [|l0 rest] eqn:Hvalues.
    + exists [PDict d]. split; [reflexivity|]. split.
      * intros before c after l Hc Hbefore Hl.
        rewrite (first_container_some _ _ _ _ _ _ Hc Hbefore Hl) in Hfirst.
        discriminate.
      * intros _. split; [|reflexivity].
        intros d1 k l d2 -> Hd1.
        rewrite (list_values_first _ _ _ _ Hd1) in Hvalues. discriminate.
    + exists (slice_to max_rows l0). split; [reflexivity|]. split.
      * intros before c after l Hc Hbefore Hl.
        rewrite (first_container_some _ _ _ _ _ _ Hc Hbefore Hl) in Hfirst.
        discriminate.
      * intros _. split.
        -- intros d1 k l d2 -> Hd1.
           rewrite (list_values_first _ _ _ _ Hd1) in Hvalues.
           now injection Hvalues as <- _.
        -- intros Hno. rewrite (list_values_none _ Hno) in Hvalues.
           discriminate.
Qed.

(** C8, amended. For a cap that is not negative, [parse_sample_to_records]
    returns, and returns at most [max(1, max_rows)] records: the tiers
    that read a list (JSON array or container list, delimited rows, manual
    split, opaque lines) emit at most [max_rows], the tiers of one record
    (XML document, JSON object taken whole) emit one. When the text is a
    JSON array, the records are its first [max_rows] elements, in order. *)
Theorem parse_sample_row_cap (path : pystr) (max_rows : Z) :
  (0 <= max_rows)%Z ->
  exists records raw_text,
    parse path max_rows = Ok (records, raw_text)
    /\ (Z.of_nat (length records) <= Z.max 1 max_rows)%Z
    /\ forall raw l,
         fs path = Some raw ->
         let s := strip (read_file_bytes_to_text raw) in
         startswith (lit "{") s || startswith (lit "[") s = true ->
         json_loads s = Some (PList l) ->
         records = firstn (Z.to_nat max_rows) l.
Proof.
  intros Hn. unfold parse_sample_to_records.
  destruct (fs path) as [raw|] eqn:Hfs.
  2:{ exists [], []. split; [reflexivity|]. split; [simpl; lia|]. discriminate. }
  set (txt := read_file_bytes_to_text raw).
  destruct (json_stage json_loads (strip txt) max_rows) as [records|] eqn:Hjson.
  { exists records, txt. split; [reflexivity|].
    unfold json_stage in Hjson.
    destruct (startswith (lit "{") (strip txt) || startswith (lit "[") (strip txt))
      eqn:Hstart; [|discriminate].
    destruct (json_loads (strip txt)) as [obj|] eqn:Hobj; [|discriminate].
    split; [now apply (json_records_cap obj)|].
    intros raw' l [= <-]. cbv zeta. fold txt. intros _ Hl.
    rewrite Hl in Hobj. injection Hobj as <-. simpl in Hjson.
    injection Hjson as <-. now apply slice_to_firstn. }
  assert (Hnotlist : forall raw' l,
             Some raw = Some raw' ->
             let s := strip (read_file_bytes_to_text raw') in
             startswith (lit "{") s || startswith (lit "[") s = true ->
             json_loads s = Some (PList l) -> False).
  { intros raw' l [= <-] s Hstart Hl. subst s. fold txt in Hstart, Hl.
    unfold json_stage in Hjson. rewrite Hstart, Hl in Hjson. discriminate. }
  destruct (xml_stage ET_fromstring (strip txt)) as [records|] eqn:Hxml.
  { exists records, txt. split; [reflexivity|]. split.
    - unfold xml_stage in Hxml.
      destruct (startswith (lit "<") (strip txt)); [|discriminate].
      destruct (ET_fromstring _); [|discriminate].
      injection Hxml as <-. simpl. lia.
    - intros raw' l H1 H2 H3. destruct (Hnotlist raw' l H1 H2 H3). }
  destruct (delimited_stage csv_DictReader txt (nonblank_lines txt) max_rows)
    as [rows|] eqn:Hdelim.
  { exists rows, txt. split; [reflexivity|]. split.
    - pose proof (delimited_stage_cap _ _ _ _ Hn Hdelim). lia.
    - intros raw' l H1 H2 H3. destruct (Hnotlist raw' l H1 H2 H3). }
  eexists _, txt. split; [reflexivity|]. split.
  - rewrite length_map.
    pose proof (slice_to_length max_rows (nonblank_lines txt) Hn). lia.
  - intros raw' l H1 H2 H3. destruct (Hnotlist raw' l H1 H2 H3).
Qed.

End WithParsers.

End ParseProps.

(** ** Schema validator *)

Module ValidatorProps.
Import Encoding Validator.

Section WithValidator.
Context {V : Type}.
Variable fs : pystr -> option bytes.
Variable json_loads : pystr -> option pyval.
Variable js_validate : V -> pyval -> verdict.

Lemma validate_loop_ok schema objs :
  forall i results count,
    (forall obj, In obj objs -> ~ raises_other js_validate schema obj) ->
    validate_loop js_validate schema i objs results count
    = Ok (results ++ expected_results js_validate schema i objs,
          (count
           + Z.of_nat (length (List.filter (is_valid js_validate schema) objs)))%Z).
Proof.
  induction objs as [|obj rest IH]; intros i results count Hok; simpl.
  - rewrite app_nil_r. do 2 f_equal. lia.
  - unfold is_valid at 1.
    destruct (js_validate obj schema) as [|message|e] eqn:Hv.
    + rewrite IH by (intros o Ho; apply Hok; now right).
      rewrite <- app_assoc. simpl. do 2 f_equal. lia.
    + rewrite IH by (intros o Ho; apply Hok; now right).
      rewrite <- app_assoc. simpl. do 2 f_equal.
    + exfalso. apply (Hok obj); [now left | now exists e].
Qed.

Lemma validate_loop_raise schema before obj after e :
  forall i results count,
    (forall o, In o before -> ~ raises_other js_validate schema o) ->
    js_validate obj schema = Fails e ->
    validate_loop js_validate schema i (before ++ obj :: after) results count
    = Raise e.
Proof.
  induction before as [|o before IH]; intros i results count Hok He; simpl.
  - now rewrite He.
  - destruct (js_validate o schema) as [|message|e'] eqn:Hv.
    + apply IH; [intros o' Ho'; apply Hok; now right | exact He].
    + apply IH; [intros o' Ho'; apply Hok; now right | exact He].
    + exfalso. apply (Hok o); [now left | now exists e'].
Qed.

Lemma expected_results_length schema objs :
  forall i, length (expected_results js_validate schema i objs) = length objs.
Proof. induction objs as [|o objs IH]; intros i; simpl; [|rewrite IH]; reflexivity. Qed.

(** C9, amended. [validate_list] raises [RuntimeError] at once when the
    schema document is missing or cannot be read and parsed. With a schema
    loaded, it raises what the validator raises for the first object on
    which the validator raises something other than [ValidationError] (a
    parsed document that is not a schema gives [SchemaError]); when the
    validator does that on no object, it returns one result for every
    object, in the order of the input: index, [valid=true] and no error for
    an object that conforms, [valid=false] and the message for one that
    does not, and with them the count of the valid ones. *)
Theorem validate_list_outcome (canonical_list : list V) (schema_file : pystr) :
  (load_schema fs json_loads schema_file = None ->
   validate_list fs json_loads js_validate canonical_list schema_file
   = Raise RuntimeError)
  /\ (forall schema,
        load_schema fs json_loads schema_file = Some schema ->
        ((forall obj, In obj canonical_list ->
                      ~ raises_other js_validate schema obj) ->
         validate_list fs json_loads js_validate canonical_list schema_file
         = Ok (expected_results js_validate schema 0 canonical_list,
               Z.of_nat (length (List.filter (is_valid js_validate schema)
                                   canonical_list)))
         /\ length (expected_results js_validate schema 0 canonical_list)
            = length canonical_list)
        /\ (forall before obj after e,
              canonical_list = before ++ obj :: after ->
              (forall o, In o before -> ~ raises_other js_validate schema o) ->
              js_validate obj schema = Fails e ->
              validate_list fs json_loads js_validate canonical_list schema_file
              = Raise e)).
Proof.
  unfold validate_list. split.
  - now intros ->.
  - intros schema ->. split.
    + intros Hok. split; [|apply expected_results_length].
      now rewrite validate_loop_ok.
    + intros before obj after e -> Hok He.
      now apply validate_loop_raise.
Qed.

End WithValidator.

End ValidatorProps.

(** ** Sample parsing on concrete samples *)

Module ParseExamples.
Import Encoding Parse Spec ParseProps.

(** C5, the claim as worded fails: for a path that does not exist the
    parser returns a result, the empty sample, and not an error. *)
Lemma missing_path_is_not_an_error :
  let fs := Ref.one_file (lit "sample.json") (Ref.ascii_bytes "[1]") in
  fs (lit "absent.csv") = None
  /\ parse_sample_to_records fs Ref.json_loads Ref.no_xml Ref.no_rows
       (lit "absent.csv") 200
     = Ok ([], [])
  /\ forall e,
       parse_sample_to_records fs Ref.json_loads Ref.no_xml Ref.no_rows
         (lit "absent.csv") 200
       <> Raise e.
Proof. repeat split. discriminate. Qed.

(** The missing path, in the parser and in the handler. *)
Lemma missing_path_empty_sample_witness :
  let fs := Ref.one_file (lit "sample.json") (Ref.ascii_bytes "[1]") in
  fs (lit "absent.csv") = None
  /\ parse_sample_to_records fs Ref.json_loads Ref.no_xml Ref.no_rows
       (lit "absent.csv") 200
     = Ok ([], [])
  /\ handle_sftp_sample fs unit (fun _ _ => Ok tt) (lit "absent.csv")
     = Raise FileNotFoundError.
Proof.
  intros fs.
  assert (H : fs (lit "absent.csv") = None) by reflexivity.
  split; [exact H|].
  exact (missing_path_empty_sample fs Ref.json_loads Ref.no_xml Ref.no_rows
           unit (fun _ _ => Ok tt) (lit "absent.csv") 200 H).
Defined.

(** C7, the claim as worded fails: a list nested one level down is not
    found, the object is wrapped as the one record. *)
Lemma json_nested_list_not_searched :
  let content := Ref.dq_bytes "{'meta': {'rows': [1, 2]}}" in
  let fs := Ref.one_file (lit "nested.json") content in
  let d := [(lit "meta", PDict [(lit "rows", PList [PInt 1; PInt 2])])] in
  Ref.json_loads (strip (read_file_bytes_to_text content)) = Some (PDict d)
  /\ parse_sample_to_records fs Ref.json_loads Ref.no_xml Ref.no_rows
       (lit "nested.json") 200
     = Ok ([PDict d], read_file_bytes_to_text content)
  /\ spec_json_object_records d 200 = [PInt 1; PInt 2]
  /\ [PDict d] <> spec_json_object_records d 200.
Proof. vm_compute. repeat split. discriminate. Qed.

(** An object with a list under the key items, after a key that holds
    no list. *)
Lemma json_object_records_witness :
  let content :=
    Ref.dq_bytes "{'status': 'ok', 'shipments': 3, 'items': [1, 2, 3], 'data': [9]}" in
  let fs := Ref.one_file (lit "rest.json") content in
  exists records,
    parse_sample_to_records fs Ref.json_loads Ref.no_xml Ref.no_rows
      (lit "rest.json") 2
    = Ok (records, read_file_bytes_to_text content)
    /\ records = [PInt 1; PInt 2].
Proof.
  intros content fs.
  set (d := [(lit "status", PStr (lit "ok")); (lit "shipments", PInt 3);
             (lit "items", PList [PInt 1; PInt 2; PInt 3]);
             (lit "data", PList [PInt 9])]).
  assert (Hfs : fs (lit "rest.json") = Some content) by reflexivity.
  assert (Hstart :
            startswith (lit "{") (strip (read_file_bytes_to_text content))
            || startswith (lit "[") (strip (read_file_bytes_to_text content))
            = true) by reflexivity.
  assert (Hjson :
            Ref.json_loads (strip (read_file_bytes_to_text content))
            = Some (PDict d)) by (vm_compute; reflexivity).
  destruct (json_object_records fs Ref.json_loads Ref.no_xml Ref.no_rows
              (lit "rest.json") 2 content d Hfs Hstart Hjson)
    as (records & Hparse & Hcontainer & _).
  exists records. split; [exact Hparse|].
  apply (Hcontainer [lit "shipments"] (lit "items")
           [lit "data"; lit "records"; lit "payload"]
           [PInt 1; PInt 2; PInt 3]).
  - reflexivity.
  - intros c' [<-|[]] [l Hl]. vm_compute in Hl. discriminate.
  - reflexivity.
Defined.

(** C8, the claim as worded fails: with a cap of zero, a JSON object is
    still returned as one record. *)
Lemma cap_zero_returns_one_record :
  let content := Ref.dq_bytes "{'id': 7}" in
  let fs := Ref.one_file (lit "one.json") content in
  exists records raw_text,
    parse_sample_to_records fs Ref.json_loads Ref.no_xml Ref.no_rows
      (lit "one.json") 0
    = Ok (records, raw_text)
    /\ records = [PDict [(lit "id", PInt 7)]]
    /\ ~ (Z.of_nat (length records) <= 0)%Z.
Proof.
  eexists _, _. split; [vm_compute; reflexivity|].
  split; [reflexivity|]. simpl. lia.
Qed.

(** An array of ten records under a cap of three. *)
Lemma parse_sample_row_cap_witness :
  let content :=
    Ref.dq_bytes
      "[{'id': 1}, {'id': 2}, {'id': 3}, {'id': 4}, {'id': 5}, {'id': 6}, {'id': 7}, {'id': 8}, {'id': 9}, {'id': 10}]" in
  let fs := Ref.one_file (lit "ten.json") content in
  (0 <= 3)%Z
  /\ exists records raw_text,
       parse_sample_to_records fs Ref.json_loads Ref.no_xml Ref.no_rows
         (lit "ten.json") 3
       = Ok (records, raw_text)
       /\ (Z.of_nat (length records) <= 3)%Z
       /\ records = [PDict [(lit "id", PInt 1)]; PDict [(lit "id", PInt 2)];
                     PDict [(lit "id", PInt 3)]].
Proof.
  intros content fs.
  assert (H3 : (0 <= 3)%Z) by lia.
  split; [exact H3|].
  destruct (parse_sample_row_cap fs Ref.json_loads Ref.no_xml Ref.no_rows
              (lit "ten.json") 3 H3)
    as (records & raw_text & Hparse & Hcap & Harray).
  exists records, raw_text. split; [exact Hparse|]. split; [exact Hcap|].
  apply (Harray content
           (List.map (fun i => PDict [(lit "id", PInt i)])
              [1; 2; 3; 4; 5; 6; 7; 8; 9; 10]%Z)).
  - reflexivity.
  - reflexivity.
  - vm_compute. reflexivity.
Defined.

End ParseExamples.

(** ** Canonical builder *)

Module BuilderProps.
Import PyFacts DictFacts Flatten Builder.

(** *** The store *)

Lemma cell_store h l k v l' :
  cell (store h l k v) l'
  = if Nat.eqb l' l then dict_set (cell h l) k v else cell h l'.
Proof. reflexivity. Qed.

Lemma cell_store_same h l k v :
  cell (store h l k v) l = dict_set (cell h l) k v.
Proof. rewrite cell_store. now rewrite Nat.eqb_refl. Qed.

Lemma cell_store_other h l k v l' :
  l' <> l -> cell (store h l k v) l' = cell h l'.
Proof.
  intros H. rewrite cell_store. apply Nat.eqb_neq in H. now rewrite H.
Qed.

Lemma cell_alloc_new h d : cell (snd (alloc h d)) (next h) = d.
Proof. simpl. now rewrite Nat.eqb_refl. Qed.

Lemma cell_alloc_old h d l :
  l <> next h -> cell (snd (alloc h d)) l = cell h l.
Proof. intros H. simpl. apply Nat.eqb_neq in H. now rewrite H. Qed.

Lemma dict_set_In {V} (d : dict V) k v k' v' :
  In (k', v') (dict_set d k v) -> (k', v') = (k, v) \/ In (k', v') d.
Proof.
  induction d as [|[k0 v0] d IH]; simpl.
  - intros [H|[]]. now left.
  - destruct (str_eqb k0 k).
    + intros [H|H]; [now left | right; now right].
    + intros [H|H]; [right; now left|].
      destruct (IH H) as [?|?]; [now left | right; now right].
Qed.

(** *** Footprints *)

Lemma foot_mono R n h h' l :
  (next h <= next h')%nat -> foot R n h l -> foot R n h' l.
Proof. unfold foot. intros Hn [H|H]; [now left | right; lia]. Qed.

Lemma within_refl R h : closed R h -> within R h h.
Proof.
  intros Hc. split; [lia|]. split; [reflexivity|].
  intros l [Hl|Hl]; [|lia].
  destruct (Hc l Hl) as [Hlt Hrefs]. split; [exact Hlt|].
  intros k v l' Hin Hl'. left. eapply Hrefs; eassumption.
Qed.

Lemma within_next R h0 h : within R h0 h -> (next h0 <= next h)%nat.
Proof. now intros [H _]. Qed.

Lemma within_closed R h0 h :
  within R h0 h -> closed (foot R (next h0) h) h.
Proof. now intros (_ & _ & H). Qed.

(** A new dict, empty, stays inside the footprint. *)
Lemma within_alloc R h0 h :
  within R h0 h ->
  within R h0 (snd (alloc h [])) /\ foot R (next h0) (snd (alloc h [])) (next h).
Proof.
  intros (Hn & Hframe & Hc). split; [|right; simpl; lia].
  split; [simpl; lia|]. split.
  - intros l Hl HR. rewrite cell_alloc_old by lia. now apply Hframe.
  - intros l Hl.
    destruct (Nat.eq_dec l (next h)) as [->|Hne].
    + split; [simpl; lia|]. rewrite cell_alloc_new. intros k v l' [].
    + assert (Hl0 : foot R (next h0) h l).
      { destruct Hl as [Hl|Hl]; [now left | right; simpl in Hl; lia]. }
      destruct (Hc l Hl0) as [Hlt Hrefs]. split; [simpl; lia|].
      rewrite cell_alloc_old by assumption.
      intros k v l' Hin Hl'.
      apply (foot_mono R (next h0) h); [simpl; lia|].
      eapply Hrefs; eassumption.
Qed.

(** A write into a dict of the footprint, of a value that names only
    locations of the footprint, stays inside the footprint. *)
Lemma within_store R h0 h l k v :
  within R h0 h ->
  foot R (next h0) h l ->
  (forall l', In l' (refs v) -> foot R (next h0) h l') ->
  within R h0 (store h l k v).
Proof.
  intros (Hn & Hframe & Hc) Hl Hv. split; [exact Hn|]. split.
  - intros l0 Hl0 HR. rewrite cell_store_other; [now apply Hframe|].
    intros ->. destruct Hl as [Hl|Hl]; [contradiction | lia].
  - intros l0 Hl0. change (foot R (next h0) (store h l k v)) with (foot R (next h0) h) in *.
    destruct (Hc l0 Hl0) as [Hlt Hrefs]. split; [exact Hlt|].
    intros k' v' l' Hin Hl'.
    destruct (Nat.eq_dec l0 l) as [->|Hne].
    + rewrite cell_store_same in Hin.
      apply dict_set_In in Hin as [[= -> ->]|Hin]; [now apply Hv|].
      destruct (Hc l Hl) as [_ Hrefs']. eapply Hrefs'; eassumption.
    + rewrite cell_store_other in Hin by assumption.
      eapply Hrefs; eassumption.
Qed.

(** *** What the lookup returns *)

Abbreviation heap_walk h := (walk (cell h) href_as_dict).

Lemma walk_refs F h parts :
  closed F h ->
  forall current v,
    (forall l, In l (refs current) -> F l) ->
    heap_walk h current parts = Some v ->
    forall l, In l (refs v) -> F l.
Proof.
  intros Hc. induction parts as [|part rest IH]; intros current v Hcur; simpl.
  - now intros [= <-].
  - destruct current as [ | | | | | | l0]; simpl; try discriminate.
    destruct (dict_get (cell h l0) part) as [x|] eqn:Hget; [|discriminate].
    apply IH. intros l Hl.
    destruct (Hc l0 (Hcur l0 ltac:(now left))) as [_ Hrefs].
    apply (Hrefs part x l); [now apply dict_get_In | exact Hl].
Qed.

Lemma heap_lookup_refs F h rec path :
  closed F h -> F rec ->
  forall l, In l (refs (heap_lookup h rec path)) -> F l.
Proof.
  intros Hc Hrec. unfold heap_lookup, get_nested_value.
  assert (Hself : forall l, In l (refs (HRef rec)) -> F l)
    by (intros l [<-|[]]; exact Hrec).
  assert (Hget : forall k x, dict_get (cell h rec) k = Some x ->
                             forall l, In l (refs x) -> F l).
  { intros k x Hk l Hl. destruct (Hc rec Hrec) as [_ Hrefs].
    apply (Hrefs k x l); [now apply dict_get_In | exact Hl]. }
  destruct path as [[|c p]|]; try exact Hself.
  destruct (dict_get (cell h rec) (c :: p)) as [x|] eqn:Hdirect;
    [now apply (Hget _ _ Hdirect)|].
  destruct (walk (cell h) href_as_dict (HRef rec) (split DOT (c :: p)))
    as [x|] eqn:Hwalk.
  - exact (walk_refs F h _ Hc _ _ Hself Hwalk).
  - destruct (dict_get (cell h rec) (replace_char DOT UNDERSCORE (c :: p)))
      as [x|] eqn:Hunder; [now apply (Hget _ _ Hunder)|].
    intros l [].
Qed.

(** *** The nested assignment *)

Lemma descend_found h cur part rest l :
  dict_get (cell h cur) part = Some (HRef l) ->
  descend h cur (part :: rest) = descend h l rest.
Proof. intros H. simpl. now rewrite H. Qed.

Lemma descend_fresh h cur part rest :
  (forall l, dict_get (cell h cur) part <> Some (HRef l)) ->
  descend h cur (part :: rest)
  = descend (store (snd (alloc h [])) cur part (HRef (next h))) (next h) rest.
Proof.
  intros H. simpl.
  destruct (dict_get (cell h cur) part) as [[ | | | | | | l]|]; try reflexivity.
  now destruct (H l).
Qed.

(** The step of [descend] that makes a new dict: allocation, then the
    write of its location into [cur]. *)
Lemma fresh_step_within R h0 h cur part :
  within R h0 h ->
  foot R (next h0) h cur ->
  within R h0 (store (snd (alloc h [])) cur part (HRef (next h)))
  /\ foot R (next h0) (store (snd (alloc h [])) cur part (HRef (next h)))
       (next h)
  /\ (next h <= next (store (snd (alloc h [])) cur part (HRef (next h))))%nat.
Proof.
  intros Hw Hcur. destruct (within_alloc _ _ _ Hw) as [Hw1 Hnew].
  split; [|split; [exact Hnew | simpl; lia]].
  apply within_store; [exact Hw1 | | intros l' [<-|[]]; exact Hnew].
  apply (foot_mono R (next h0) h); [simpl; lia | exact Hcur].
Qed.

Ltac descend_fresh_case IH Hw Hcur Hget part :=
  rewrite descend_fresh by (rewrite Hget; discriminate);
  let Hd := fresh "Hd" in
  let Hw1 := fresh "Hw1" in
  let Hnew := fresh "Hnew" in
  let Hle := fresh "Hle" in
  destruct (fresh_step_within _ _ _ _ part Hw Hcur) as (Hw1 & Hnew & Hle);
  intros Hd; apply IH in Hd; [|exact Hw1 | exact Hnew];
  destruct Hd as (? & ? & ?);
  split; [assumption|]; split; [assumption | lia].

Lemma descend_within R h0 parts :
  forall h cur h1 cur1,
    within R h0 h ->
    foot R (next h0) h cur ->
    descend h cur parts = (h1, cur1) ->
    within R h0 h1 /\ foot R (next h0) h1 cur1 /\ (next h <= next h1)%nat.
Proof.
  induction parts as [|part rest IH]; intros h cur h1 cur1 Hw Hcur.
  - simpl. intros [= <- <-]. split; [exact Hw|]. split; [exact Hcur | lia].
  - destruct (dict_get (cell h cur) part) as [[ | | | | | | l]|] eqn:Hget;
      try descend_fresh_case IH Hw Hcur Hget part.
    rewrite (descend_found _ _ _ _ _ Hget). apply IH; [exact Hw|].
    destruct (within_closed _ _ _ Hw cur Hcur) as [_ Hrefs].
    apply (Hrefs part (HRef l) l); [now apply dict_get_In | now left].
Qed.

Lemma assign_within R h0 h canon mapped v :
  within R h0 h ->
  foot R (next h0) h canon ->
  (forall l, In l (refs v) -> foot R (next h0) h l) ->
  within R h0 (assign h canon mapped v)
  /\ (next h <= next (assign h canon mapped v))%nat.
Proof.
  intros Hw Hcanon Hv. unfold assign.
  destruct (descend h canon (removelast (split DOT mapped))) as [h1 cur] eqn:Hd.
  destruct (descend_within _ _ _ _ _ _ _ Hw Hcanon Hd) as (Hw1 & Hcur & Hle).
  split; [|exact Hle].
  apply within_store; [exact Hw1 | exact Hcur|].
  intros l Hl. apply (foot_mono R (next h0) h); [exact Hle | now apply Hv].
Qed.

Section WithRuntime.
Variable str_isdigit : pystr -> bool.
Variable int_of_str : pystr -> option Z.
Variable float_of_str : pystr -> option pyfloat.
Variable py_repr : heap -> hval -> pystr.

Abbreviation coerce' := (coerce str_isdigit int_of_str float_of_str).
Abbreviation build_field' :=
  (build_field str_isdigit int_of_str float_of_str).
Abbreviation build_record' :=
  (build_record str_isdigit int_of_str float_of_str py_repr).

(** The conversions make no value that names a location. *)
Lemma coerce_refs v l : In l (refs (coerce' v)) -> In l (refs v).
Proof.
  destruct v as [ | | | | s | | ]; simpl; try tauto.
  destruct (str_isdigit (strip s)).
  - destruct (int_of_str (strip s)); simpl; tauto.
  - destruct (float_of_str (strip s)); simpl; tauto.
Qed.

(** A string is written empty only for a source string that is blank. *)
Lemma coerce_empty v :
  coerce' v = HStr [] -> exists s, v = HStr s /\ strip s = [].
Proof.
  destruct v as [ | | | | s | | ]; simpl; try discriminate.
  destruct (str_isdigit (strip s)).
  - destruct (int_of_str (strip s)); [discriminate|].
    intros [= ->]. now exists [].
  - destruct (float_of_str (strip s)); [discriminate|].
    intros [= H]. now exists s.
Qed.

Lemma build_field_within R h0 h rec canon f :
  within R h0 h ->
  foot R (next h0) h rec ->
  foot R (next h0) h canon ->
  within R h0 (build_field' rec canon h f)
  /\ (next h <= next (build_field' rec canon h f))%nat.
Proof.
  intros Hw Hrec Hcanon. unfold build_field.
  destruct (target f) as [mapped|]; [|split; [exact Hw | lia]].
  pose proof (heap_lookup_refs _ h rec (partner_field f) (within_closed _ _ _ Hw) Hrec)
    as Hv.
  destruct (heap_lookup h rec (partner_field f)) as [ | | | | s | | ] eqn:Hlook;
    cbv beta iota;
    try (split; [exact Hw | lia]);
    try (apply assign_within; [exact Hw | exact Hcanon|];
         intros l0 Hl0; apply Hv; now apply coerce_refs).
  destruct s; [split; [exact Hw | lia]|].
  apply assign_within; [exact Hw | exact Hcanon|].
  intros l Hl. apply coerce_refs in Hl. destruct Hl.
Qed.

Lemma build_fields_within R h0 rec canon fields :
  forall h,
    within R h0 h ->
    foot R (next h0) h rec ->
    foot R (next h0) h canon ->
    within R h0 (fold_left (build_field' rec canon) fields h)
    /\ (next h <= next (fold_left (build_field' rec canon) fields h))%nat.
Proof.
  induction fields as [|f fields IH]; intros h Hw Hrec Hcanon; simpl.
  - split; [exact Hw | lia].
  - destruct (build_field_within R h0 h rec canon f Hw Hrec Hcanon) as [Hw1 Hle].
    destruct (IH _ Hw1 (foot_mono _ _ _ _ _ Hle Hrec) (foot_mono _ _ _ _ _ Hle Hcanon))
      as [Hw2 Hle2].
    split; [exact Hw2 | lia].
Qed.

Lemma ensure_object_within R h0 h needed key canon :
  within R h0 h ->
  foot R (next h0) h canon ->
  within R h0 (ensure_object needed key canon h)
  /\ (next h <= next (ensure_object needed key canon h))%nat.
Proof.
  intros Hw Hcanon. unfold ensure_object.
  destruct (needed && negb (dict_mem (cell h canon) key));
    [|split; [exact Hw | lia]].
  destruct (within_alloc _ _ _ Hw) as [Hw1 Hnew].
  split; [|simpl; lia].
  apply within_store; [exact Hw1 | |intros l' [<-|[]]; exact Hnew].
  apply (foot_mono R (next h0) h); [simpl; lia | exact Hcanon].
Qed.

Lemma phone_to_string_within R h0 h canon :
  within R h0 h ->
  foot R (next h0) h canon ->
  within R h0 (phone_to_string py_repr canon h)
  /\ (next h <= next (phone_to_string py_repr canon h))%nat.
Proof.
  intros Hw Hcanon. unfold phone_to_string.
  destruct (dict_get (cell h canon) CUSTOMER_CONTACT) as [x|] eqn:Hcc;
    [|split; [exact Hw | lia]].
  destruct x as [ | | | | | | cc]; try (split; [exact Hw | lia]).
  assert (Hfoot : foot R (next h0) h cc).
  { destruct (within_closed _ _ _ Hw canon Hcanon) as [_ Hrefs].
    apply (Hrefs CUSTOMER_CONTACT (HRef cc) cc);
      [now apply dict_get_In | now left]. }
  destruct (dict_get (cell h cc) PHONE) as [ph|]; [|split; [exact Hw | lia]].
  destruct ph; try (split; [exact Hw | lia]);
    (split; [|simpl; lia]);
    (apply within_store; [exact Hw | exact Hfoot | intros l' []]).
Qed.

(** *** The phone *)

Lemma contact_is_not_phone : CUSTOMER_CONTACT <> PHONE.
Proof. discriminate. Qed.

(** After the last step of a record's turn, the phone of its customer
    contact is a string, if there is one. *)
Lemma phone_to_string_ok h canon :
  phone_ok (phone_to_string py_repr canon h) canon.
Proof.
  unfold phone_ok, phone_to_string.
  fold CUSTOMER_CONTACT. fold PHONE.
  destruct (dict_get (cell h canon) CUSTOMER_CONTACT) as [x|] eqn:Hcc.
  2:{ intros cc ph H. rewrite Hcc in H. discriminate. }
  destruct x as [ | | | | | | cc0];
    try (intros cc ph H; rewrite Hcc in H; discriminate).
  assert (Hkeep : forall v cc,
             dict_get (cell (store h cc0 PHONE v) canon) CUSTOMER_CONTACT
             = Some (HRef cc) -> cc = cc0).
  { intros v cc H. destruct (Nat.eq_dec canon cc0) as [->|Hne].
    - rewrite cell_store_same, dict_get_set_other in H
        by (intros E; symmetry in E; now apply contact_is_not_phone).
      congruence.
    - rewrite cell_store_other in H by assumption. congruence. }
  assert (Hset : forall v cc ph,
             dict_get (cell (store h cc0 PHONE (HStr v)) canon) CUSTOMER_CONTACT
             = Some (HRef cc) ->
             dict_get (cell (store h cc0 PHONE (HStr v)) cc) PHONE = Some ph ->
             exists s, ph = HStr s).
  { intros v cc ph H1 H2. apply Hkeep in H1 as ->.
    rewrite cell_store_same, dict_get_set_same in H2.
    injection H2 as <-. now exists v. }
  destruct (dict_get (cell h cc0) PHONE) as [ph0|] eqn:Hph.
  2:{ intros cc ph H1 H2. rewrite Hcc in H1. injection H1 as <-.
      rewrite Hph in H2. discriminate. }
  destruct ph0;
    try (intros cc ph H1 H2 _; exact (Hset _ cc ph H1 H2));
    intros cc ph H1 H2 Hnone; rewrite Hcc in H1; injection H1 as <-;
    rewrite Hph in H2; injection H2 as <-; [congruence | eauto].
Qed.

(** The property of the phone reads only the canonical object and its
    customer contact: it survives every write elsewhere. *)
Lemma phone_ok_stable (Q : nat -> Prop) h h' canon :
  Q canon -> closed Q h ->
  (forall l, Q l -> cell h' l = cell h l) ->
  phone_ok h canon -> phone_ok h' canon.
Proof.
  intros Hcanon Hc Hsame Hok cc ph H1 H2.
  rewrite (Hsame canon Hcanon) in H1.
  assert (Hcc : Q cc).
  { destruct (Hc canon Hcanon) as [_ Hrefs].
    apply (Hrefs (lit "customer_contact") (HRef cc) cc);
      [now apply dict_get_In | now left]. }
  rewrite (Hsame cc Hcc) in H2. exact (Hok cc ph H1 H2).
Qed.

(** *** One record *)

Lemma build_record_spec R h rec nd no fields :
  closed R h -> R rec ->
  let h' := fst (build_record' nd no fields h rec) in
  let canon := snd (build_record' nd no fields h rec) in
  within R h h'
  /\ canon = next h
  /\ (next h < next h')%nat
  /\ phone_ok h' canon.
Proof.
  intros Hc Hrec. unfold build_record. cbn zeta.
  change (alloc h []) with (next h, snd (alloc h [])). cbn iota.
  destruct (within_alloc R h h (within_refl R h Hc)) as [Hw0 Hcanon0].
  set (h0 := snd (alloc h [])) in *.
  assert (Hrec0 : foot R (next h) h0 rec) by now left.
  destruct (build_fields_within R h rec (next h) fields h0 Hw0 Hrec0 Hcanon0)
    as [Hw1 Hle1].
  set (h1 := fold_left _ fields h0) in *.
  pose proof (foot_mono _ _ _ _ _ Hle1 Hcanon0) as Hcanon1.
  destruct (ensure_object_within R h h1 nd DESTINATION (next h) Hw1 Hcanon1)
    as [Hw2 Hle2].
  set (h2 := ensure_object nd DESTINATION (next h) h1) in *.
  pose proof (foot_mono _ _ _ _ _ Hle2 Hcanon1) as Hcanon2.
  destruct (ensure_object_within R h h2 no ORIGIN (next h) Hw2 Hcanon2)
    as [Hw3 Hle3].
  set (h3 := ensure_object no ORIGIN (next h) h2) in *.
  pose proof (foot_mono _ _ _ _ _ Hle3 Hcanon2) as Hcanon3.
  destruct (phone_to_string_within R h h3 (next h) Hw3 Hcanon3) as [Hw4 Hle4].
  simpl fst. simpl snd.
  split; [exact Hw4|]. split; [reflexivity|].
  split; [subst h0; simpl in Hle1; lia|].
  apply phone_to_string_ok.
Qed.

End WithRuntime.

(** *** The loop over the records *)

Section Loop.
Variable str_isdigit : pystr -> bool.
Variable int_of_str : pystr -> option Z.
Variable float_of_str : pystr -> option pyfloat.
Variable py_repr : heap -> hval -> pystr.
Variables nd no : bool.
Variable fields : list field.

Abbreviation turn' :=
  (turn str_isdigit int_of_str float_of_str py_repr nd no fields).

Lemma closed_frame R h h' :
  closed R h -> (next h <= next h')%nat ->
  (forall l, R l -> cell h' l = cell h l) ->
  closed R h'.
Proof.
  intros Hc Hn Hsame l Hl. destruct (Hc l Hl) as [Hlt Hrefs].
  split; [lia|]. rewrite (Hsame l Hl). exact Hrefs.
Qed.

(** Every turn writes inside the footprint of its record, so the canonical
    objects of the turns before keep their phone. *)
Lemma turns_spec n0 records :
  forall regions h acc,
    owned h n0 records regions ->
    (n0 <= next h)%nat ->
    exists canons h',
      fold_left turn' records (h, acc) = (h', acc ++ canons)
      /\ (next h <= next h')%nat
      /\ (forall l, (l < next h)%nat ->
                    (forall R, In R regions -> ~ R l) ->
                    cell h' l = cell h l)
      /\ (forall c, In c canons -> phone_ok h' c).
Proof.
  induction records as [|rec records IH]; intros regions h acc [Hall Hdis] Hn0.
  - exists [], h. rewrite app_nil_r. repeat split; [lia | intros c []].
  - inversion Hall as [|? R ? Rs (HRrec & Hclosed & Hbelow) Hrest]; subst.
    destruct Hdis as [HdisR Hdis].
    pose proof (build_record_spec str_isdigit int_of_str float_of_str py_repr
                  R h rec nd no fields Hclosed HRrec) as Hspec.
    cbv zeta in Hspec.
    destruct (build_record str_isdigit int_of_str float_of_str py_repr nd no
                fields h rec) as [h1 canon] eqn:Hturn.
    simpl fst in Hspec. simpl snd in Hspec.
    destruct Hspec as (Hw & Hcanon & Hlt & Hphone).
    destruct Hw as (Hle & Hframe & Hfoot).
    assert (Hown1 : owned h1 n0 records Rs).
    { split; [|exact Hdis].
      clear IH Hall. induction Hrest as [|rec' R' recs' Rs' (Hr & Hc & Hb) _ IHr];
        constructor.
      - split; [exact Hr|]. split; [|exact Hb].
        apply (closed_frame R' h h1 Hc Hle).
        intros l Hl. apply Hframe.
        + now destruct (Hc l Hl).
        + intros HRl. apply (HdisR R' ltac:(now left) l HRl Hl).
      - apply IHr.
        + intros R'' HR''. apply HdisR. now right.
        + now destruct Hdis. }
    destruct (IH Rs h1 (acc ++ [canon]) Hown1 ltac:(lia))
      as (canons & h' & Hfold & Hle' & Hframe' & Hphones).
    exists (canon :: canons), h'.
    split.
    { simpl fold_left. unfold turn at 2. simpl fst. simpl snd.
      rewrite Hturn, Hfold. now rewrite <- app_assoc. }
    split; [lia|]. split.
    { intros l Hl Hout. rewrite Hframe'.
      - apply Hframe; [exact Hl | apply Hout; now left].
      - lia.
      - intros R' HR'. apply Hout. now right. }
    intros c [<-|Hc]; [|now apply Hphones].
    apply (phone_ok_stable (foot R (next h) h1) h1 h' canon).
    + right. lia.
    + exact Hfoot.
    + intros l Hl. apply Hframe'.
      * now destruct (Hfoot l Hl).
      * intros R' HR' HR'l. destruct Hl as [Hl|Hl].
        -- exact (HdisR R' HR' l Hl HR'l).
        -- destruct Hown1 as [Hall1 _].
           assert (Hb : (l < n0)%nat).
           { clear - Hall1 HR' HR'l.
             induction Hall1 as [|? ? ? ? (_ & _ & Hb) _ IHa]; [destruct HR'|].
             destruct HR' as [<-|HR']; [now apply Hb | now apply IHa]. }
           lia.
    + exact Hphone.
Qed.

End Loop.

(** *** Records loaded from a sample *)

Lemma load_list_eq l :
  forall h, load (PList l) h
            = (let (l', h') := load_elems l h in (HList l', h')).
Proof.
  induction l as [|x l IH]; intros h; [reflexivity|].
  simpl. destruct (load x h) as [x' h1].
  specialize (IH h1). simpl in IH.
  destruct ((fix elems (l0 : list pyval) (h0 : heap) {struct l0} :
               list hval * heap := _) l h1) as [a b].
  destruct (load_elems l h1) as [a' b']. now injection IH as -> ->.
Qed.

Lemma load_dict_eq d :
  forall h, load (PDict d) h
            = (let (l, h') := load_record d h in (HRef l, h')).
Proof.
  unfold load_record.
  assert (H : forall h,
             (fix items (d0 : list (pystr * pyval)) (h0 : heap) {struct d0} :
                dict hval * heap :=
                match d0 with
                | [] => ([], h0)
                | (k, x) :: d' =>
                    let (x', h1) := load x h0 in
                    let (r, h2) := items d' h1 in ((k, x') :: r, h2)
                end) d h = load_items d h).
  { induction d as [|[k x] d IH]; intros h; [reflexivity|].
    simpl. destruct (load x h) as [x' h1]. now rewrite IH. }
  intros h. simpl. rewrite H. now destruct (load_items d h).
Qed.

Lemma refs_list l vs :
  In l (refs (HList vs)) <-> exists x, In x vs /\ In l (refs x).
Proof.
  simpl. induction vs as [|x vs IH].
  - split; [intros [] | intros (x & [] & _)].
  - rewrite in_app_iff, IH. split.
    + intros [H|(y & Hy & Hl)]; [exists x | exists y]; split;
        try assumption; [now left | now right].
    + intros (y & [<-|Hy] & Hl); [now left | right; now exists y].
Qed.

Lemma loaded_refl h : loaded h h.
Proof.
  split; [lia|]. split; [reflexivity|]. intros l Hl. unfold between in Hl. lia.
Qed.

Lemma loaded_trans h h1 h2 : loaded h h1 -> loaded h1 h2 -> loaded h h2.
Proof.
  intros (Hn1 & Hf1 & Hc1) (Hn2 & Hf2 & Hc2).
  split; [lia|]. split.
  - intros l Hl. rewrite Hf2 by lia. now apply Hf1.
  - intros l Hl. unfold between in *. split; [lia|].
    intros k v l' Hin Hl'.
    destruct (Nat.lt_ge_cases l (next h1)) as [Hlt|Hge].
    + rewrite Hf2 in Hin by assumption.
      destruct (Hc1 l ltac:(unfold between; lia)) as [_ Hrefs].
      specialize (Hrefs k v l' Hin Hl'). unfold between in Hrefs. lia.
    + destruct (Hc2 l ltac:(unfold between; lia)) as [_ Hrefs].
      specialize (Hrefs k v l' Hin Hl'). unfold between in Hrefs. lia.
Qed.

Lemma loaded_alloc h h1 d :
  loaded h h1 ->
  (forall k v l, In (k, v) d -> In l (refs v) -> between (next h) (next h1) l) ->
  loaded h (snd (alloc h1 d)).
Proof.
  intros (Hn & Hf & Hc) Hd. split; [simpl; lia|]. split.
  - intros l Hl. rewrite cell_alloc_old by lia. now apply Hf.
  - intros l Hl. unfold between in *. simpl in Hl. split; [simpl; lia|].
    intros k v l' Hin Hl'.
    destruct (Nat.eq_dec l (next h1)) as [->|Hne].
    + rewrite cell_alloc_new in Hin.
      specialize (Hd k v l' Hin Hl'). unfold between in Hd. simpl. lia.
    + rewrite cell_alloc_old in Hin by assumption.
      destruct (Hc l ltac:(unfold between; lia)) as [_ Hrefs].
      specialize (Hrefs k v l' Hin Hl'). unfold between in Hrefs. simpl. lia.
Qed.

Lemma load_spec v :
  forall h v' h',
    load v h = (v', h') ->
    loaded h h'
    /\ forall l, In l (refs v') -> between (next h) (next h') l.
Proof.
  induction v as [ | b | z | f | s | vs IH | d IH] using pyval_nested_ind;
    intros h v' h';
    try (intros [= <- <-]; split; [apply loaded_refl | intros l []]).
  - rewrite load_list_eq.
    destruct (load_elems vs h) as [vs' h1] eqn:Hl. intros [= <- <-].
    assert (H : loaded h h1
                /\ forall x l, In x vs' -> In l (refs x) ->
                               between (next h) (next h1) l).
    { clear -IH Hl. revert h vs' h1 Hl.
      induction IH as [|x vs Hx _ IHvs]; intros h vs' h1; simpl.
      - intros [= <- <-]. split; [apply loaded_refl | intros x l []].
      - destruct (load x h) as [x' ha] eqn:Hxa.
        destruct (load_elems vs ha) as [r hb] eqn:Hr. intros [= <- <-].
        destruct (Hx _ _ _ Hxa) as [La Ra].
        destruct (IHvs _ _ _ Hr) as [Lb Rb].
        split; [exact (loaded_trans _ _ _ La Lb)|].
        destruct La as (Hna & _), Lb as (Hnb & _).
        intros y l [<-|Hy] Hin.
        + specialize (Ra l Hin). unfold between in *. lia.
        + specialize (Rb y l Hy Hin). unfold between in *. lia. }
    destruct H as [Hload Hrefs]. split; [exact Hload|].
    intros l Hin. apply refs_list in Hin as (x & Hx & Hin).
    exact (Hrefs x l Hx Hin).
  - rewrite load_dict_eq. unfold load_record.
    destruct (load_items d h) as [d' h1] eqn:Hd.
    change (alloc h1 d') with (next h1, snd (alloc h1 d')).
    intros [= <- <-].
    assert (H : loaded h h1
                /\ forall k x l, In (k, x) d' -> In l (refs x) ->
                                 between (next h) (next h1) l).
    { clear -IH Hd. revert h d' h1 Hd.
      induction IH as [|[k x] d Hx _ IHd]; intros h d' h1; simpl.
      - intros [= <- <-]. split; [apply loaded_refl | intros k x l []].
      - simpl in Hx. destruct (load x h) as [x' ha] eqn:Hxa.
        destruct (load_items d ha) as [r hb] eqn:Hr. intros [= <- <-].
        destruct (Hx _ _ _ Hxa) as [La Ra].
        destruct (IHd _ _ _ Hr) as [Lb Rb].
        split; [exact (loaded_trans _ _ _ La Lb)|].
        destruct La as (Hna & _), Lb as (Hnb & _).
        intros k' y l [[= <- <-]|Hy] Hin.
        + specialize (Ra l Hin). unfold between in *. lia.
        + specialize (Rb k' y l Hy Hin). unfold between in *. lia. }
    destruct H as [Hload Hrefs]. split.
    + now apply loaded_alloc.
    + destruct Hload as (Hn & _). intros l [<-|[]]. unfold between. simpl. lia.
Qed.

Lemma load_record_spec d h :
  loaded h (snd (load_record d h))
  /\ between (next h) (next (snd (load_record d h))) (fst (load_record d h)).
Proof.
  pose proof (load_dict_eq d h) as Heq.
  destruct (load_record d h) as [l h'] eqn:Hr. simpl.
  destruct (load_spec (PDict d) h (HRef l) h' Heq) as [Hload Hrefs].
  split; [exact Hload | apply Hrefs; now left].
Qed.

(** Records loaded one after the other own disjoint sets of locations. *)
Lemma load_records_owned records :
  forall h recs h',
    load_records records h = (recs, h') ->
    (next h <= next h')%nat
    /\ (forall l, (l < next h)%nat -> cell h' l = cell h l)
    /\ exists regions,
         owned h' (next h') recs regions
         /\ forall R, In R regions -> forall l, R l -> (next h <= l)%nat.
Proof.
  induction records as [|d records IH]; intros h recs h'; simpl.
  - intros [= <- <-]. split; [lia|]. split; [reflexivity|].
    exists []. split; [split; [constructor | exact I] | intros R []].
  - pose proof (load_record_spec d h) as [Hload Hrec].
    destruct (load_record d h) as [l h1]. simpl in Hload, Hrec.
    destruct (load_records records h1) as [ls h2] eqn:Hrest.
    intros [= <- <-].
    destruct (IH _ _ _ Hrest) as (Hn2 & Hf2 & regions & [Hall Hdis] & Hlow).
    destruct Hload as (Hn1 & Hf1 & Hc1).
    split; [lia|]. split; [intros l0 Hl0; rewrite Hf2 by lia; now apply Hf1|].
    exists (between (next h) (next h1) :: regions). split; [split|].
    + constructor.
      * split; [exact Hrec|]. split.
        -- apply (closed_frame _ h1 h2 Hc1 Hn2).
           intros l0 Hl0. apply Hf2. unfold between in Hl0. lia.
        -- intros l0 Hl0. unfold between in Hl0. lia.
      * exact Hall.
    + split; [|exact Hdis].
      intros R' HR' l0 Hl0 HR'l. specialize (Hlow R' HR' l0 HR'l).
      unfold between in Hl0. lia.
    + intros R [<-|HR] l0 Hl0.
      * unfold between in Hl0. lia.
      * specialize (Hlow R HR l0 Hl0). lia.
Qed.

(** C4. In every canonical object that the builder makes from the records
    of a sample, the value at [customer_contact.phone], when there is one
    (the customer contact is a mapping and its phone is not [None], which
    is how the lookup reports an absent value), is a string, whatever the
    conversions made of it. In particular the number 5551234 mapped to
    [customer_contact.phone] ends as the string of its digits. *)
Theorem canonical_phone_is_string
  (str_isdigit : pystr -> bool) (int_of_str : pystr -> option Z)
  (float_of_str : pystr -> option pyfloat) (py_repr : heap -> hval -> pystr) :
  (forall (records : list (dict pyval)) (fields : list field),
      let out :=
        build str_isdigit int_of_str float_of_str py_repr records fields in
      forall canon cc ph,
        In canon (snd out) ->
        dict_get (cell (fst out) canon) (lit "customer_contact")
        = Some (HRef cc) ->
        dict_get (cell (fst out) cc) (lit "phone") = Some ph ->
        ph <> HNone ->
        exists s, ph = HStr s)
  /\ built str_isdigit int_of_str float_of_str py_repr
       [[(lit "phone", PInt 5551234)]]
       [mkField (Some (lit "phone")) (Some (lit "customer_contact.phone"))]
     = [PDict [(lit "customer_contact",
                PDict [(lit "phone", PStr (lit "5551234"))])]].
Proof.
  split; [|vm_compute; reflexivity].
  intros records fields out canon cc ph Hin. subst out. unfold build in *.
  destruct (load_records records empty_heap) as [recs h0] eqn:Hload.
  destruct (load_records_owned _ _ _ _ Hload) as (_ & _ & regions & Hown & _).
  unfold apply_mappings in *.
  destruct (turns_spec str_isdigit int_of_str float_of_str py_repr
              (existsb (startswith (lit "destination.")) (mapped_targets fields))
              (existsb (startswith (lit "origin.")) (mapped_targets fields))
              fields (next h0) recs regions h0 [] Hown ltac:(lia))
    as (canons & h' & Hfold & _ & _ & Hphones).
  rewrite Hfold in *. simpl in Hin |- *.
  exact (Hphones canon Hin cc ph).
Qed.

Module Examples.

Abbreviation run := (built Ref.isdigit Ref.int_of_str Ref.float_of_str Ref.py_repr).

(** C3, the claim as worded fails: a canonical object can hold an empty
    string at a leaf. A mapping that holds an empty string is copied as it
    is; and a source string of one space passes the test for the empty
    string and is then stripped. *)
Lemma canonical_object_with_empty_leaf :
  run [[(lit "a", PDict [(lit "b", PStr [])])]]
      [mkField (Some (lit "a")) (Some (lit "x"))]
  = [PDict [(lit "x", PDict [(lit "b", PStr [])])]]
  /\ run [[(lit "a", PStr (lit " "))]]
         [mkField (Some (lit "a")) (Some (lit "x"))]
     = [PDict [(lit "x", PStr [])]].
Proof. split; vm_compute; reflexivity. Qed.

(** The phone 5551234, as a number and as text, of two records. *)
Lemma canonical_phone_is_string_witness :
  let records := [[(lit "phone", PInt 5551234)];
                  [(lit "phone", PStr (lit "5551234"))]] in
  let fields := [mkField (Some (lit "phone"))
                         (Some (lit "customer_contact.phone"))] in
  let out := build Ref.isdigit Ref.int_of_str Ref.float_of_str Ref.py_repr
               records fields in
  snd out = [2%nat; 4%nat]
  /\ dict_get (cell (fst out) 2) (lit "customer_contact") = Some (HRef 3)
  /\ dict_get (cell (fst out) 3) (lit "phone") = Some (HStr (lit "5551234"))
  /\ dict_get (cell (fst out) 4) (lit "customer_contact") = Some (HRef 5)
  /\ dict_get (cell (fst out) 5) (lit "phone") = Some (HStr (lit "5551234"))
  /\ exists s, HStr (lit "5551234") = HStr s.
Proof.
  intros records fields out.
  assert (H0 : snd out = [2%nat; 4%nat]) by (vm_compute; reflexivity).
  assert (H1 : dict_get (cell (fst out) 2) (lit "customer_contact")
               = Some (HRef 3)) by (vm_compute; reflexivity).
  assert (H2 : dict_get (cell (fst out) 3) (lit "phone")
               = Some (HStr (lit "5551234"))) by (vm_compute; reflexivity).
  assert (H3 : dict_get (cell (fst out) 4) (lit "customer_contact")
               = Some (HRef 5)) by (vm_compute; reflexivity).
  assert (H4 : dict_get (cell (fst out) 5) (lit "phone")
               = Some (HStr (lit "5551234"))) by (vm_compute; reflexivity).
  repeat (split; [assumption|]).
  apply (proj1 (canonical_phone_is_string Ref.isdigit Ref.int_of_str
                  Ref.float_of_str Ref.py_repr)
           records fields 2%nat 3%nat (HStr (lit "5551234"))).
  - fold out. rewrite H0. now left.
  - exact H1.
  - exact H2.
  - discriminate.
Defined.

End Examples.

End BuilderProps.

(** ** Schema validation on concrete documents *)

Module ValidatorExamples.
Import Validator ValidatorProps.

Abbreviation validate fs :=
  (validate_list (V := pyval) fs Ref.json_loads Ref.js_validate).

(** C9, the claim as worded fails: a schema document that is there and
    parses, here a JSON array, makes [validate_list] raise, and what it
    raises is not the error of a schema that cannot be loaded. *)
Lemma parsable_document_that_is_no_schema :
  let content := Ref.dq_bytes "[{'required': ['tracking_id']}]" in
  let fs := Ref.one_file (lit "canonical_schema.json") content in
  load_schema fs Ref.json_loads (lit "canonical_schema.json")
  = Some (PList [PDict [(lit "required", PList [PStr (lit "tracking_id")])]])
  /\ validate fs [PDict []] (lit "canonical_schema.json") = Raise SchemaError.
Proof. split; vm_compute; reflexivity. Qed.

(** A schema that requires a tracking id, an object that has one and
    an object that has none. *)
Lemma validate_list_outcome_witness :
  let content := Ref.dq_bytes "{'required': ['tracking_id']}" in
  let fs := Ref.one_file (lit "canonical_schema.json") content in
  let schema := PDict [(lit "required", PList [PStr (lit "tracking_id")])] in
  let good := PDict [(lit "tracking_id", PStr (lit "T1"))] in
  let bad := PDict [(lit "status", PStr (lit "new"))] in
  load_schema fs Ref.json_loads (lit "canonical_schema.json") = Some schema
  /\ validate fs [good; bad] (lit "canonical_schema.json")
     = Ok ([mkResult 0 true None good;
            mkResult 1 false (Some (lit "'tracking_id' is a required property")) bad],
           1%Z)
  /\ validate fs [good; bad] (lit "missing.json") = Raise RuntimeError.
Proof.
  intros content fs schema good bad.
  assert (Hload : load_schema fs Ref.json_loads (lit "canonical_schema.json")
                  = Some schema) by (vm_compute; reflexivity).
  assert (Hmiss : load_schema fs Ref.json_loads (lit "missing.json") = None)
    by reflexivity.
  split; [exact Hload|]. split.
  - destruct (validate_list_outcome fs Ref.json_loads Ref.js_validate
                [good; bad] (lit "canonical_schema.json")) as [_ Hloaded].
    destruct (Hloaded schema Hload) as [Hok _].
    assert (Hnone : forall obj, In obj [good; bad] ->
                      ~ raises_other Ref.js_validate schema obj).
    { intros obj [<-|[<-|[]]] [e He]; vm_compute in He; discriminate. }
    destruct (Hok Hnone) as [Hres _]. exact Hres.
  - destruct (validate_list_outcome fs Ref.json_loads Ref.js_validate
                [good; bad] (lit "missing.json")) as [Hraise _].
    exact (Hraise Hmiss).
Defined.

End ValidatorExamples.

(** ** Strings *)

Module StringFacts.
Import PyFacts.

Lemma lstrip_app_nonspace a c b :
  is_space c = false -> lstrip (a ++ c :: b) = lstrip a ++ c :: b.
Proof.
  intros Hc. induction a as [|x a IH]; simpl.
  - now rewrite Hc.
  - destruct (is_space x); [exact IH | reflexivity].
Qed.

Lemma lstrip_app_space a c :
  is_space c = true ->
  lstrip (a ++ [c]) = match lstrip a with [] => [] | r => r ++ [c] end.
Proof.
  intros Hc. induction a as [|x a IH]; simpl.
  - now rewrite Hc.
  - destruct (is_space x); [exact IH | reflexivity].
Qed.

(** [rstrip], read from the left. *)
Lemma rstrip_cons c t :
  rstrip (c :: t)
  = match rstrip t with
    | [] => if is_space c then [] else [c]
    | r => c :: r
    end.
Proof.
  unfold rstrip. simpl rev.
  destruct (is_space c) eqn:Hc.
  - rewrite lstrip_app_space by assumption.
    destruct (lstrip (rev t)) as [|y r] eqn:E; [reflexivity|].
    rewrite rev_app_distr. simpl.
    destruct (rev r ++ [y]) eqn:E2; [|reflexivity].
    apply app_eq_nil in E2 as [_ E2]. discriminate.
  - rewrite <- (app_nil_r (rev t ++ [c])), <- app_assoc. simpl.
    rewrite lstrip_app_nonspace by assumption.
    rewrite rev_app_distr. simpl.
    destruct (rev (lstrip (rev t))); reflexivity.
Qed.

Lemma rstrip_nil : rstrip [] = [].
Proof. reflexivity. Qed.

Lemma lstrip_In x s : In x (lstrip s) -> In x s.
Proof.
  induction s as [|c s IH]; simpl; [tauto|].
  destruct (is_space c); [intros H; right; now apply IH | trivial].
Qed.

Lemma rstrip_In x s : In x (rstrip s) -> In x s.
Proof.
  induction s as [|c s IH]; [tauto|]. rewrite rstrip_cons.
  destruct (rstrip s) as [|y r].
  - destruct (is_space c); [intros [] | intros [<-|[]]; now left].
  - intros [<-|H]; [now left | right; now apply IH].
Qed.

Lemma strip_In x s : In x (strip s) -> In x s.
Proof. intros H. now apply lstrip_In, rstrip_In. Qed.

(** What [lstrip] returns does not begin with white space. *)
Lemma lstrip_head s : match lstrip s with c :: _ => is_space c = false | [] => True end.
Proof.
  induction s as [|c s IH]; simpl; [trivial|].
  destruct (is_space c) eqn:Hc; [exact IH | exact Hc].
Qed.

Lemma lstrip_id s :
  match s with c :: _ => is_space c = false | [] => True end -> lstrip s = s.
Proof. destruct s as [|c s]; simpl; [trivial|]. now intros ->. Qed.

Lemma rstrip_head c t : is_space c = false -> rstrip (c :: t) = c :: rstrip t.
Proof.
  intros Hc. rewrite rstrip_cons, Hc. now destruct (rstrip t).
Qed.

Lemma rstrip_idem s : rstrip (rstrip s) = rstrip s.
Proof.
  unfold rstrip. rewrite rev_involutive. f_equal.
  apply lstrip_id, lstrip_head.
Qed.

(** [strip] leaves a text that [strip] does not change. *)
Lemma strip_idem s : strip (strip s) = strip s.
Proof.
  unfold strip. pose proof (lstrip_head s) as Hh.
  destruct (lstrip s) as [|c t]; [reflexivity|].
  rewrite rstrip_head by assumption. simpl. rewrite Hh.
  rewrite rstrip_head by assumption. now rewrite rstrip_idem.
Qed.

Lemma remove_char_id c s : ~ In c s -> remove_char c s = s.
Proof.
  unfold remove_char. induction s as [|x s IH]; simpl; [trivial|].
  intros H. destruct (N.eqb_spec x c) as [->|Hne]; simpl.
  - exfalso. apply H. now left.
  - f_equal. apply IH. intros Hin. apply H. now right.
Qed.

Lemma remove_char_In x c s : In x (remove_char c s) -> In x s /\ x <> c.
Proof.
  unfold remove_char. rewrite filter_In. intros [H1 H2]. split; [exact H1|].
  intros ->. rewrite N.eqb_refl in H2. discriminate.
Qed.

Lemma replace_char_In x a b s :
  In x (replace_char a b s) -> (x = b \/ In x s) /\ (a <> b -> x <> a).
Proof.
  unfold replace_char. rewrite in_map_iff. intros (y & Hy & Hin).
  revert Hy. destruct (N.eqb_spec y a) as [Heq|Hne]; intros <-.
  - split; [now left | congruence].
  - split; [now right | intros _; exact Hne].
Qed.

Lemma replace_char_id a b s : ~ In a s -> replace_char a b s = s.
Proof.
  unfold replace_char. induction s as [|x s IH]; simpl; [trivial|].
  intros H. destruct (N.eqb_spec x a) as [->|Hne].
  - exfalso. apply H. now left.
  - f_equal. apply IH. intros Hin. apply H. now right.
Qed.

End StringFacts.

(** ** Field names *)

Module NamesProps.
Import PyFacts StringFacts Flatten Names.

(** Induction on a text two characters at a time. *)
Lemma list_ind2 {A} (P : list A -> Prop) :
  P [] -> (forall x, P [x]) ->
  (forall x y l, P l -> P (y :: l) -> P (x :: y :: l)) ->
  forall l, P l.
Proof.
  intros H0 H1 H2 l.
  enough (H : P l /\ forall x, P (x :: l)) by apply H.
  induction l as [|y l [IHl IHc]]; split; auto.
Qed.

Lemma collapse_dots_cons2 a b s :
  collapse_dots (a :: b :: s)
  = if a =? DOT then
      if b =? DOT then DOT :: collapse_dots s else DOT :: collapse_dots (b :: s)
    else a :: collapse_dots (b :: s).
Proof. reflexivity. Qed.

Lemma has_dotdot_cons2 a b s :
  has_dotdot (a :: b :: s) = ((a =? DOT) && (b =? DOT)) || has_dotdot (b :: s).
Proof. reflexivity. Qed.

Lemma collapse_dots_In x s : In x (collapse_dots s) -> In x s.
Proof.
  induction s as [|a|a b s IH1 IH2] using list_ind2; [simpl; tauto| |].
  - simpl. destruct (N.eqb_spec a DOT) as [->|Ha]; trivial.
  - rewrite collapse_dots_cons2.
    destruct (N.eqb_spec a DOT) as [->|Ha].
    + destruct (N.eqb_spec b DOT) as [->|Hb].
      * intros [<-|H]; [now left | right; right; now apply IH1].
      * intros [<-|H]; [now left | right; now apply IH2].
    + intros [<-|H]; [now left | right; now apply IH2].
Qed.

Lemma collapse_dots_length s : (length (collapse_dots s) <= length s)%nat.
Proof.
  induction s as [|a|a b s IH1 IH2] using list_ind2; [simpl; lia| |].
  - simpl. destruct (a =? DOT); simpl; lia.
  - rewrite collapse_dots_cons2.
    destruct (a =? DOT); [destruct (b =? DOT)|]; cbn [length] in *; lia.
Qed.

(** A turn of the loop shortens the text. *)
Lemma collapse_dots_shorter s :
  has_dotdot s = true -> (length (collapse_dots s) < length s)%nat.
Proof.
  induction s as [|a|a b s IH1 IH2] using list_ind2; [discriminate..|].
  rewrite has_dotdot_cons2, collapse_dots_cons2.
  pose proof (collapse_dots_length s) as Hs.
  pose proof (collapse_dots_length (b :: s)) as Hbs.
  destruct (a =? DOT); destruct (b =? DOT); cbn [andb orb]; intros H;
    try (specialize (IH2 H)); cbn [length] in *; lia.
Qed.

Lemma squeeze_dots_done fuel :
  forall s, (length s <= fuel)%nat -> has_dotdot (squeeze_dots fuel s) = false.
Proof.
  induction fuel as [|f IH]; intros s Hs; simpl.
  - destruct s; [reflexivity | simpl in Hs; lia].
  - destruct (has_dotdot s) eqn:E; [|exact E].
    apply IH. pose proof (collapse_dots_shorter s E). lia.
Qed.

Lemma squeeze_dots_In x fuel : forall s, In x (squeeze_dots fuel s) -> In x s.
Proof.
  induction fuel as [|f IH]; intros s; simpl; [trivial|].
  destruct (has_dotdot s); [|trivial].
  intros H. now apply collapse_dots_In, IH.
Qed.

Lemma squeeze_dots_id fuel s : has_dotdot s = false -> squeeze_dots fuel s = s.
Proof. intros H. destruct fuel; simpl; [reflexivity | now rewrite H]. Qed.

Lemma normalize_shape (s : pystr) :
  let out := normalize_partner_field_name (Some s) in
  ~ In 0x20 out /\ ~ In UNDERSCORE out /\ ~ In 0 out
  /\ ~ In 0xFEFF out /\ ~ In 0xFFFE out
  /\ has_dotdot out = false
  /\ normalize_partner_field_name None = [].
Proof.
  cbv zeta. unfold normalize_partner_field_name.
  set (u := remove_char 0 (remove_char 0xFFFE (remove_char 0xFEFF (strip s)))).
  set (w := replace_char UNDERSCORE DOT (replace_char 0x20 DOT u)).
  assert (Hw : forall x, In x w ->
                 x <> 0x20 /\ x <> UNDERSCORE /\ x <> 0 /\ x <> 0xFEFF /\ x <> 0xFFFE).
  { intros x Hx. subst w.
    apply replace_char_In in Hx as [Hx Hu].
    specialize (Hu ltac:(discriminate)).
    assert (Hsp : x <> 0x20).
    { destruct Hx as [->|Hx]; [discriminate|].
      apply replace_char_In in Hx as [_ Hx]. apply Hx. discriminate. }
    split; [exact Hsp|]. split; [exact Hu|].
    destruct Hx as [->|Hx]; [repeat split; discriminate|].
    apply replace_char_In in Hx as [[->|Hx] _]; [repeat split; discriminate|].
    subst u.
    apply remove_char_In in Hx as [Hx H0].
    apply remove_char_In in Hx as [Hx H1].
    apply remove_char_In in Hx as [Hx H2].
    repeat split; assumption. }
  assert (Hout : forall x, In x (squeeze_dots (length w) w) ->
                   x <> 0x20 /\ x <> UNDERSCORE /\ x <> 0 /\ x <> 0xFEFF /\ x <> 0xFFFE)
    by (intros x Hx; apply Hw; now apply squeeze_dots_In in Hx).
  split; [intros H; now destruct (Hout _ H) as (? & _)|].
  split; [intros H; now destruct (Hout _ H) as (_ & ? & _)|].
  split; [intros H; now destruct (Hout _ H) as (_ & _ & ? & _)|].
  split; [intros H; now destruct (Hout _ H) as (_ & _ & _ & ? & _)|].
  split; [intros H; now destruct (Hout _ H) as (_ & _ & _ & _ & ?)|].
  split; [now apply squeeze_dots_done | reflexivity].
Qed.

Lemma has_dotdot_tail c s : has_dotdot (c :: s) = false -> has_dotdot s = false.
Proof.
  destruct s as [|y s]; [reflexivity|].
  rewrite has_dotdot_cons2.
  intros H. now apply orb_false_iff in H as [_ H].
Qed.

Lemma has_dotdot_lstrip s : has_dotdot s = false -> has_dotdot (lstrip s) = false.
Proof.
  induction s as [|c s IH]; simpl lstrip; [trivial|].
  destruct (is_space c); [|trivial].
  intros H. now apply IH, has_dotdot_tail with c.
Qed.

(** What [rstrip] keeps begins as the text does. *)
Lemma rstrip_same_head t y r : rstrip t = y :: r -> exists t', t = y :: t'.
Proof.
  destruct t as [|c t]; [discriminate|]. rewrite rstrip_cons.
  destruct (rstrip t).
  - destruct (is_space c); [discriminate|]. intros [= <- _]. now exists t.
  - intros [= <- _]. now exists t.
Qed.

Lemma has_dotdot_rstrip s : has_dotdot s = false -> has_dotdot (rstrip s) = false.
Proof.
  induction s as [|c s IH]; [trivial|]. intros H.
  pose proof (IH (has_dotdot_tail _ _ H)) as Hr.
  rewrite rstrip_cons.
  destruct (rstrip s) as [|y r] eqn:E.
  - now destruct (is_space c).
  - destruct (rstrip_same_head _ _ _ E) as [t' ->].
    rewrite has_dotdot_cons2 in *.
    apply orb_false_iff in H as [H _]. now rewrite H, Hr.
Qed.

Lemma normalize_twice (s : pystr) :
  normalize_partner_field_name (Some (normalize_partner_field_name (Some s)))
  = strip (normalize_partner_field_name (Some s)).
Proof.
  destruct (normalize_shape s) as (H20 & H5f & H0 & Hfeff & Hfffe & Hdd & _).
  cbv zeta in *.
  set (r := normalize_partner_field_name (Some s)) in *.
  unfold normalize_partner_field_name at 1.
  assert (Hin : forall x, In x (strip r) -> In x r) by (intros x; apply strip_In).
  rewrite (remove_char_id 0xFEFF) by (intros H; now apply Hfeff, Hin).
  rewrite (remove_char_id 0xFFFE) by (intros H; now apply Hfffe, Hin).
  rewrite (remove_char_id 0) by (intros H; now apply H0, Hin).
  rewrite (replace_char_id 0x20) by (intros H; now apply H20, Hin).
  rewrite (replace_char_id UNDERSCORE) by (intros H; now apply H5f, Hin).
  apply squeeze_dots_id. unfold strip.
  now apply has_dotdot_rstrip, has_dotdot_lstrip.
Qed.

(** The two ends of a text: [lstrip] and [rstrip] leave it as it is. *)
Lemma rstrip_fixed_cons c t :
  rstrip (c :: t) = c :: t <->
  (t = [] /\ is_space c = false) \/ (t <> [] /\ rstrip t = t).
Proof.
  rewrite rstrip_cons. split.
  - destruct (rstrip t) as [|y r] eqn:E.
    + destruct (is_space c); [discriminate|].
      intros [= <-]. now left.
    + intros [= <-]. right. split; [discriminate | reflexivity].
  - intros [[-> Hc]|[Hne Ht]].
    + simpl. now rewrite Hc.
    + rewrite Ht. destruct t; [congruence | reflexivity].
Qed.

Lemma rstrip_fixed_map (f : N -> N) s :
  (forall c, is_space c = false -> is_space (f c) = false) ->
  rstrip s = s -> rstrip (List.map f s) = List.map f s.
Proof.
  intros Hf. induction s as [|c t IH]; [trivial|].
  simpl List.map. rewrite !rstrip_fixed_cons.
  intros [[-> Hc]|[Hne Ht]].
  - left. split; [reflexivity | now apply Hf].
  - right. split; [destruct t; [congruence | discriminate] | now apply IH].
Qed.

Lemma collapse_dots_nil s : collapse_dots s = [] -> s = [].
Proof.
  destruct s as [|a [|b s]]; trivial; simpl.
  - destruct (a =? DOT); discriminate.
  - destruct (a =? DOT); [destruct (b =? DOT)|]; discriminate.
Qed.

Lemma rstrip_fixed_collapse s :
  rstrip s = s -> rstrip (collapse_dots s) = collapse_dots s.
Proof.
  induction s as [|a|a b s IH1 IH2] using list_ind2; [trivial| |].
  - simpl. destruct (N.eqb_spec a DOT) as [->|Ha]; trivial.
  - intros H. apply rstrip_fixed_cons in H as [[[=] _]|[_ Hb]].
    pose proof (IH2 Hb) as Hc2.
    assert (Hne2 : collapse_dots (b :: s) <> [])
      by (intros E; apply collapse_dots_nil in E; discriminate).
    rewrite collapse_dots_cons2.
    destruct (N.eqb_spec a DOT) as [->|Ha];
      [destruct (N.eqb_spec b DOT) as [->|Hb']|];
      try (apply rstrip_fixed_cons; right; split; assumption).
    destruct s as [|c s]; [reflexivity|].
    apply rstrip_fixed_cons in Hb as [[[=] _]|[_ Hs]].
    apply rstrip_fixed_cons. right. split; [|now apply IH1].
    intros E. apply collapse_dots_nil in E. discriminate.
Qed.

Lemma rstrip_fixed_squeeze fuel :
  forall s, rstrip s = s -> rstrip (squeeze_dots fuel s) = squeeze_dots fuel s.
Proof.
  induction fuel as [|f IH]; intros s H; simpl; [exact H|].
  destruct (has_dotdot s); [|exact H]. now apply IH, rstrip_fixed_collapse.
Qed.

Lemma head_fixed_collapse s : head_fixed s -> head_fixed (collapse_dots s).
Proof.
  destruct s as [|a [|b s]]; trivial; simpl.
  - destruct (N.eqb_spec a DOT) as [->|Ha]; trivial.
  - destruct (N.eqb_spec a DOT) as [->|Ha]; [destruct (b =? DOT)|]; trivial.
Qed.

Lemma head_fixed_squeeze fuel :
  forall s, head_fixed s -> head_fixed (squeeze_dots fuel s).
Proof.
  induction fuel as [|f IH]; intros s H; simpl; [exact H|].
  destruct (has_dotdot s); [|exact H]. now apply IH, head_fixed_collapse.
Qed.

Lemma head_fixed_map (f : N -> N) s :
  (forall c, is_space c = false -> is_space (f c) = false) ->
  head_fixed s -> head_fixed (List.map f s).
Proof. intros Hf. destruct s; simpl; auto. Qed.

Lemma strip_ends s : head_fixed (strip s) /\ rstrip (strip s) = strip s.
Proof.
  split; [|apply rstrip_idem].
  unfold strip. pose proof (lstrip_head s) as Hh.
  destruct (lstrip s) as [|c t]; [exact I|].
  now rewrite rstrip_head.
Qed.

Lemma replace_keeps_nonspace a c :
  is_space DOT = false ->
  is_space c = false -> is_space (if c =? a then DOT else c) = false.
Proof. intros Hd Hc. now destruct (c =? a). Qed.

(** A name without a byte-order mark and without a NUL is normalized in
    one pass. *)
Lemma normalize_idempotent (s : pystr) :
  ~ In 0xFEFF s -> ~ In 0xFFFE s -> ~ In 0 s ->
  normalize_partner_field_name (Some (normalize_partner_field_name (Some s)))
  = normalize_partner_field_name (Some s).
Proof.
  intros Hfeff Hfffe H0. rewrite normalize_twice.
  unfold normalize_partner_field_name.
  assert (Hin : forall x, In x (strip s) -> In x s) by (intros x; apply strip_In).
  rewrite (remove_char_id 0xFEFF) by (intros H; now apply Hfeff, Hin).
  rewrite (remove_char_id 0xFFFE) by (intros H; now apply Hfffe, Hin).
  rewrite (remove_char_id 0) by (intros H; now apply H0, Hin).
  destruct (strip_ends s) as [Hh Hr].
  set (w := replace_char UNDERSCORE DOT (replace_char 0x20 DOT (strip s))).
  assert (Hwh : head_fixed w).
  { subst w. unfold replace_char.
    apply head_fixed_map; [intros c; now apply replace_keeps_nonspace|].
    apply head_fixed_map; [intros c; now apply replace_keeps_nonspace|].
    exact Hh. }
  assert (Hwr : rstrip w = w).
  { subst w. unfold replace_char.
    apply rstrip_fixed_map; [intros c; now apply replace_keeps_nonspace|].
    apply rstrip_fixed_map; [intros c; now apply replace_keeps_nonspace|].
    exact Hr. }
  unfold strip.
  rewrite lstrip_id by (apply head_fixed_squeeze; exact Hwh).
  now apply rstrip_fixed_squeeze.
Qed.

(** X1. The name that [normalize_partner_field_name] returns holds no
    space, no underscore, no NUL, none of the two byte-order marks, and no
    two dots in a row: the loop that joins the dots runs to its end. For
    [None] the name is empty. *)
Theorem normalized_name_shape (s : pystr) :
  let out := normalize_partner_field_name (Some s) in
  ~ In 0x20 out /\ ~ In UNDERSCORE out /\ ~ In 0 out
  /\ ~ In 0xFEFF out /\ ~ In 0xFFFE out
  /\ has_dotdot out = false
  /\ normalize_partner_field_name None = [].
Proof. exact (normalize_shape s). Qed.

(** X2. A second pass of [normalize_partner_field_name] over a normalized
    name does what [strip] does and nothing else: it removes the white
    space that a byte-order mark or a NUL shielded from the first pass. *)
Theorem normalize_twice_is_strip (s : pystr) :
  normalize_partner_field_name (Some (normalize_partner_field_name (Some s)))
  = strip (normalize_partner_field_name (Some s)).
Proof. exact (normalize_twice s). Qed.

(** X3. On a label that holds no byte-order mark and no NUL,
    [normalize_partner_field_name] is idempotent: the interface can
    normalize again what the extraction stage has normalized. *)
Theorem normalize_partner_field_name_idempotent (s : pystr) :
  ~ In 0xFEFF s -> ~ In 0xFFFE s -> ~ In 0 s ->
  normalize_partner_field_name (Some (normalize_partner_field_name (Some s)))
  = normalize_partner_field_name (Some s).
Proof. exact (normalize_idempotent s). Qed.

(** The label [" Receiver_Name  (full) "]. *)
Lemma normalize_partner_field_name_idempotent_witness :
  let s := lit " Receiver_Name  (full) " in
  normalize_partner_field_name (Some s) = lit "Receiver.Name.(full)"
  /\ normalize_partner_field_name (Some (normalize_partner_field_name (Some s)))
     = normalize_partner_field_name (Some s).
Proof.
  intros s. split; [reflexivity|].
  apply (normalize_partner_field_name_idempotent s);
    vm_compute; intuition discriminate.
Defined.

End NamesProps.

(** ** The SFTP handler *)

Module SftpProps.
Import PyFacts StringFacts DictFacts Encoding Sftp.

Lemma sub_spaces_length b s : (length (sub_spaces b s) <= length s)%nat.
Proof.
  revert b. induction s as [|c s IH]; intros b; simpl; [lia|].
  destruct (is_space c); [destruct b|]; simpl;
    [specialize (IH true) | specialize (IH true) | specialize (IH false)]; lia.
Qed.

Lemma sub_spaces_idem s : forall b, sub_spaces b (sub_spaces b s) = sub_spaces b s.
Proof.
  induction s as [|c s IH]; intros b; [reflexivity|]. simpl.
  destruct (is_space c) eqn:Hc.
  - destruct b; [apply IH|].
    simpl. change (is_space 0x20) with true. cbv iota. f_equal. apply IH.
  - simpl. rewrite Hc. f_equal. apply IH.
Qed.

(** A character of the result is a space, or a character of the text that
    is not white space. *)
Lemma sub_spaces_In x b s :
  In x (sub_spaces b s) -> x = 0x20 \/ (In x s /\ is_space x = false).
Proof.
  revert b. induction s as [|c s IH]; intros b; simpl; [tauto|].
  destruct (is_space c) eqn:Hc.
  - destruct b.
    + intros H. destruct (IH _ H) as [?|[? ?]]; [now left | right; tauto].
    + intros [<-|H]; [now left|].
      destruct (IH _ H) as [?|[? ?]]; [now left | right; tauto].
  - intros [<-|H]; [right; tauto|].
    destruct (IH _ H) as [?|[? ?]]; [now left | right; tauto].
Qed.

(** A text in which [sub_spaces] finds nothing to do, from inside a run of
    white space, does not begin with white space. *)
Lemma sub_spaces_true_fixed t :
  sub_spaces true t = t -> Names.head_fixed t /\ sub_spaces false t = t.
Proof.
  destruct t as [|c t]; [now split|]. simpl.
  destruct (is_space c) eqn:Hc.
  - intros H. pose proof (sub_spaces_length true t) as Hl.
    rewrite H in Hl. simpl in Hl. lia.
  - intros H. split; [reflexivity | exact H].
Qed.

Lemma sub_spaces_fixed_lstrip s :
  sub_spaces false s = s -> sub_spaces false (lstrip s) = lstrip s.
Proof.
  destruct s as [|c t]; [trivial|]. simpl.
  destruct (is_space c) eqn:Hc; [|intros H; simpl; rewrite Hc; exact H].
  intros [= _ H]. destruct (sub_spaces_true_fixed t H) as [Hh Hf].
  rewrite lstrip_id by exact Hh. exact Hf.
Qed.

Lemma sub_spaces_fixed_rstrip s :
  forall b, sub_spaces b s = s -> sub_spaces b (rstrip s) = rstrip s.
Proof.
  induction s as [|c t IH]; intros b; [trivial|].
  rewrite rstrip_cons. simpl.
  destruct (is_space c) eqn:Hc.
  - destruct b.
    + intros H. pose proof (sub_spaces_length true t) as Hl.
      rewrite H in Hl. simpl in Hl. lia.
    + intros [= <- H]. specialize (IH true H).
      destruct (rstrip t) as [|y r]; [reflexivity|].
      simpl sub_spaces at 1. change (is_space 0x20) with true. cbv iota.
      f_equal. exact IH.
  - intros [= H]. specialize (IH false H).
    destruct (rstrip t) as [|y r]; simpl; rewrite Hc; [reflexivity|].
    f_equal. exact IH.
Qed.

Lemma filter_id {A} (f : A -> bool) l :
  (forall x, In x l -> f x = true) -> List.filter f l = l.
Proof.
  induction l as [|x l IH]; simpl; [trivial|]. intros H.
  rewrite (H x) by now left. f_equal. apply IH. intros y Hy. apply H. now right.
Qed.

(** Two spaces in a row are a run that [sub_spaces] shortens. *)
Lemma sub_spaces_pair (a t : pystr) :
  forall b, (length (sub_spaces b (a ++ 0x20%N :: 0x20%N :: t))
             < length (a ++ 0x20%N :: 0x20%N :: t))%nat.
Proof.
  induction a as [|x a IH]; intros b.
  - simpl app. simpl sub_spaces. change (is_space 0x20) with true. cbv iota.
    pose proof (sub_spaces_length true t).
    destruct b; simpl; lia.
  - simpl. destruct (is_space x); [destruct b|]; simpl;
      [specialize (IH true) | specialize (IH true) | specialize (IH false)]; lia.
Qed.

(** What [_clean_column_name] returns. *)
Lemma clean_shape (s : pystr) :
  let r := _clean_column_name (Some s) in
  (forall c, In c r ->
     c <> 0xFEFF /\ c <> 0xFFFE /\ is_control c = false
     /\ (is_space c = true -> c = 0x20))
  /\ strip r = r
  /\ sub_spaces false r = r.
Proof.
  cbv zeta. unfold _clean_column_name.
  set (u := List.filter (fun c => negb (is_control c))
              (remove_char 0xFFFE (remove_char 0xFEFF s))).
  split; [|split].
  - intros c Hc. apply strip_In in Hc.
    apply sub_spaces_In in Hc as [->|[Hc Hsp]].
    + repeat split; try discriminate; trivial.
    + subst u. apply filter_In in Hc as [Hc Hctl].
      apply remove_char_In in Hc as [Hc H1].
      apply remove_char_In in Hc as [Hc H2].
      split; [exact H2|]. split; [exact H1|].
      split; [now apply negb_true_iff in Hctl | congruence].
  - apply strip_idem.
  - unfold strip. apply sub_spaces_fixed_rstrip, sub_spaces_fixed_lstrip.
    apply sub_spaces_idem.
Qed.

Lemma clean_idempotent (name : option pystr) :
  _clean_column_name (Some (_clean_column_name name)) = _clean_column_name name.
Proof.
  destruct name as [s|]; [|reflexivity].
  destruct (clean_shape s) as (Hchars & Hstrip & Hsub). cbv zeta in *.
  set (r := _clean_column_name (Some s)) in *.
  unfold _clean_column_name at 1.
  rewrite (remove_char_id 0xFEFF) by (intros H; now destruct (Hchars _ H)).
  rewrite (remove_char_id 0xFFFE) by (intros H; now destruct (Hchars _ H) as (_ & ? & _)).
  rewrite filter_id
    by (intros x Hx; destruct (Hchars _ Hx) as (_ & _ & -> & _); reflexivity).
  now rewrite Hsub.
Qed.

(** X4. A column name cleaned by [_clean_column_name] holds no byte-order
    mark and no control character, neither begins nor ends with white
    space, and holds white space only as single spaces. *)
Theorem clean_column_name_shape (s : pystr) :
  let r := _clean_column_name (Some s) in
  (forall c, In c r ->
     c <> 0xFEFF /\ c <> 0xFFFE /\ is_control c = false
     /\ (is_space c = true -> c = 0x20))
  /\ strip r = r
  /\ forall a b, r <> a ++ [0x20; 0x20] ++ b.
Proof.
  destruct (clean_shape s) as (Hchars & Hstrip & Hsub). cbv zeta in *.
  split; [exact Hchars|]. split; [exact Hstrip|].
  intros a b E. rewrite E in Hsub.
  pose proof (sub_spaces_pair a b false) as Hlt.
  simpl app in Hsub. rewrite Hsub in Hlt. lia.
Qed.

(** X5. [_clean_column_name] is idempotent: the promoted first row, which
    the handler cleans again, is not changed by the second cleaning. *)
Theorem clean_column_name_idempotent (name : option pystr) :
  _clean_column_name (Some (_clean_column_name name)) = _clean_column_name name.
Proof. exact (clean_idempotent name). Qed.

(** *** Repeated names *)

Lemma unique_step_snd st c :
  exists name, name <> [] /\ snd (unique_step st c) = snd st ++ [name].
Proof.
  destruct st as [seen out]. unfold unique_step.
  destruct (dict_get seen c) as [n|].
  - exists (c ++ lit "_" ++ str_of_N (n + 1)). split; [now destruct c|].
    simpl. now destruct c.
  - destruct c as [|x c].
    + eexists. split; [|reflexivity]. discriminate.
    + exists (x :: c). split; [discriminate | reflexivity].
Qed.

Lemma unique_fold cols :
  forall st,
    length (snd (fold_left unique_step cols st)) = (length (snd st) + length cols)%nat
    /\ ((forall n, In n (snd st) -> n <> []) ->
        forall n, In n (snd (fold_left unique_step cols st)) -> n <> []).
Proof.
  induction cols as [|c cols IH]; intros st; simpl.
  - split; [lia | trivial].
  - destruct (unique_step_snd st c) as (name & Hname & Hsnd).
    destruct (IH (unique_step st c)) as [Hlen Hne]. split.
    + rewrite Hlen, Hsnd, length_app. simpl. lia.
    + intros Hst. apply Hne. rewrite Hsnd. intros n Hn.
      apply in_app_or in Hn as [Hn|[<-|[]]]; [now apply Hst | exact Hname].
Qed.

(** X6. The loop of [handle_sftp_sample] over the column names gives one
    name for every column, and no name is empty. *)
Theorem unique_columns_total (cols : list pystr) :
  length (unique_columns cols) = length cols
  /\ forall n, In n (unique_columns cols) -> n <> [].
Proof.
  unfold unique_columns. destruct (unique_fold cols ([], [])) as [Hlen Hne].
  split; [exact Hlen|]. apply Hne. intros n [].
Qed.

Lemma unique_step_new st (c : pystr) :
  dict_get (fst st) c = None -> c <> [] ->
  unique_step st c = (dict_set (fst st) c 0, snd st ++ [c]).
Proof.
  destruct st as [seen out]. cbn [fst snd].
  intros H Hc. unfold unique_step. rewrite H. destruct c; [congruence | reflexivity].
Qed.

Lemma unique_step_seen st (c : pystr) n :
  dict_get (fst st) c = Some n ->
  unique_step st c
  = (dict_set (fst st) c (n + 1), snd st ++ [c ++ lit "_" ++ str_of_N (n + 1)]).
Proof.
  destruct st as [seen out]. cbn [fst snd].
  intros H. unfold unique_step. rewrite H. destruct c; reflexivity.
Qed.

Lemma unique_fold_distinct cols :
  forall seen out,
    List.NoDup cols -> ~ In [] cols ->
    (forall c, In c cols -> dict_get seen c = None) ->
    snd (fold_left unique_step cols (seen, out)) = out ++ cols.
Proof.
  induction cols as [|c cols IH]; intros seen out Hnd Hne Hseen; cbn [fold_left].
  - now rewrite app_nil_r.
  - apply List.NoDup_cons_iff in Hnd as [Hc Hnd].
    rewrite unique_step_new;
      [|apply Hseen; now left | intros ->; apply Hne; now left].
    cbn [fst snd]. rewrite IH; [now rewrite <- app_assoc | exact Hnd | |].
    + intros H. apply Hne. now right.
    + intros c' Hc'. rewrite dict_get_set_other; [apply Hseen; now right|].
      intros ->. contradiction.
Qed.

(** X7. Column names that are not empty and pairwise distinct go through
    the loop unchanged. *)
Theorem unique_columns_distinct (cols : list pystr) :
  List.NoDup cols -> ~ In [] cols -> unique_columns cols = cols.
Proof.
  intros Hnd Hne. unfold unique_columns.
  now rewrite unique_fold_distinct.
Qed.

(** The header [id, name, city]. *)
Lemma unique_columns_distinct_witness :
  let cols := [lit "id"; lit "name"; lit "city"] in
  unique_columns cols = cols.
Proof.
  intros cols. apply (unique_columns_distinct cols).
  - repeat constructor; vm_compute; intuition discriminate.
  - vm_compute. intuition discriminate.
Defined.

Lemma app_neq_self (c : pystr) (t : pystr) : t <> [] -> c <> c ++ t.
Proof.
  intros Ht E. apply (f_equal (@length N)) in E. rewrite length_app in E.
  destruct t; [congruence | simpl in E; lia].
Qed.

(** X8. The loop does not make the names unique: a name that repeats is
    numbered [c_1], and a later column that already bears the name [c_1]
    keeps it. *)
Theorem unique_columns_may_repeat (c : pystr) :
  unique_columns [c; c; c ++ lit "_1"]
  = [match c with [] => lit "col_0" | _ => c end; c ++ lit "_1"; c ++ lit "_1"].
Proof.
  destruct c as [|x c]; [reflexivity|].
  assert (Hk : x :: c <> []) by discriminate.
  assert (Hk1 : (x :: c) ++ lit "_1" <> []) by discriminate.
  set (k := x :: c) in *. unfold unique_columns. cbn [fold_left].
  rewrite (unique_step_new (_, _) k); [|reflexivity|exact Hk].
  cbn [fst snd].
  rewrite (unique_step_seen (_, _) k 0) by apply dict_get_set_same.
  cbn [fst snd].
  rewrite (unique_step_new (_, _)).
  - reflexivity.
  - cbn [fst snd dict_set]. rewrite str_eqb_refl. cbn [dict_get].
    assert (Hne : str_eqb k (k ++ lit "_1") = false)
      by (apply str_eqb_neq, app_neq_self; vm_compute; discriminate).
    now rewrite Hne.
  - exact Hk1.
Qed.

(** *** The text handed to the reader *)

(** What the strict UTF-16 decoder accepts, the replacing one reads the
    same. *)
Lemma utf16_strict_body le n :
  forall b t, (length b <= n)%nat ->
    utf16_strict le b = Some t -> utf16_body le b = t.
Proof.
  induction n as [|n IH]; intros b t Hn.
  - destruct b; [now intros [= <-] | simpl in Hn; lia].
  - destruct b as [|x [|y r]]; [now intros [= <-] | discriminate|].
    cbn [utf16_strict utf16_body]. cbv zeta.
    destruct (is_high_surrogate (utf16_unit le x y)).
    + destruct r as [|x2 [|y2 r2]]; try discriminate.
      destruct (is_low_surrogate (utf16_unit le x2 y2)); [|discriminate].
      destruct (utf16_strict le r2) as [t2|] eqn:E; [|discriminate].
      intros [= <-]. f_equal. apply IH; [simpl in Hn; lia | exact E].
    + destruct (is_low_surrogate (utf16_unit le x y)); [discriminate|].
      destruct (utf16_strict le r) as [t2|] eqn:E; [|discriminate].
      intros [= <-]. f_equal. apply IH; [simpl in Hn; lia | exact E].
Qed.

(** The cases of a byte against a literal: the bits of the byte, one after
    the other, until the literal is met or missed. *)
Ltac byte_cases x :=
  let p := fresh "p" in
  destruct x as [|p]; [try reflexivity|];
  do 8 (try (destruct p as [p|p|]; try reflexivity)).

(** The two marks of UTF-16, and the bytes that begin with neither. *)
Lemma utf16_mark_cases (b : list N) :
  (exists r, b = 0xFF :: 0xFE :: r)
  \/ (exists r, b = 0xFE :: 0xFF :: r)
  \/ (startswith [0xFF; 0xFE] b || startswith [0xFE; 0xFF] b = false).
Proof.
  destruct b as [|x [|y r]].
  - right; right; reflexivity.
  - right; right. byte_cases x.
  - destruct (N.eqb_spec x 0xFF) as [->|Hx].
    + destruct (N.eqb_spec y 0xFE) as [->|Hy]; [left; now exists r|].
      right; right. apply N.eqb_neq in Hy. cbn. rewrite N.eqb_sym in Hy.
      cbn in Hy. now rewrite Hy.
    + destruct (N.eqb_spec x 0xFE) as [->|Hx'].
      * destruct (N.eqb_spec y 0xFF) as [->|Hy]; [right; left; now exists r|].
        right; right. apply N.eqb_neq in Hy. cbn. rewrite N.eqb_sym in Hy.
        cbn in Hy. now rewrite Hy.
      * right; right. apply N.eqb_neq in Hx, Hx'. cbn.
        rewrite N.eqb_sym in Hx. rewrite N.eqb_sym in Hx'. cbn in Hx, Hx'.
        now rewrite Hx, Hx'.
Qed.

Lemma existsb_nul (text : pystr) :
  (if existsb (N.eqb 0) text then remove_char 0 text else text)
  = remove_char 0 text.
Proof.
  destruct (existsb (N.eqb 0) text) eqn:E; [reflexivity|].
  symmetry. apply remove_char_id. intros H.
  assert (Hex : existsb (N.eqb 0) text = true)
    by (apply existsb_exists; exists 0; split; [exact H | reflexivity]).
  congruence.
Qed.

(** X9. The text that [_try_read_csv] hands to the reader never holds a
    NUL, whichever decoder matched. When the bytes bear no UTF-16 mark, or
    bear one and are well-formed UTF-16, it is the text that
    [read_file_bytes_to_text] of [ingest.py] returns for the same bytes,
    without its NULs. *)
Theorem csv_text_has_no_nul (raw : bytes) :
  ~ In 0 (csv_text raw)
  /\ ((startswith [0xFF; 0xFE] (ords raw) || startswith [0xFE; 0xFF] (ords raw) = true ->
       utf16_decode (ords raw) <> None) ->
      csv_text raw = remove_char 0 (read_file_bytes_to_text raw)).
Proof.
  unfold csv_text. cbv zeta. rewrite existsb_nul.
  split; [apply EncodingProps.remove_char_absent|].
  unfold read_file_bytes_to_text. cbv zeta.
  destruct (utf16_mark_cases (ords raw)) as [[r ->]|[[r ->]|Hno]].
  - intros Hok. specialize (Hok eq_refl).
    change (utf16_decode (0xFF :: 0xFE :: r)) with (utf16_strict true r) in *.
    change (utf16_decode_replace (0xFF :: 0xFE :: r)) with (utf16_body true r).
    change (startswith [0xFF; 0xFE] (0xFF :: 0xFE :: r)
            || startswith [0xFE; 0xFF] (0xFF :: 0xFE :: r)) with true.
    cbv iota.
    destruct (utf16_strict true r) as [t|] eqn:E; [|congruence].
    rewrite (utf16_strict_body true (length r) r t (le_n _) E).
    symmetry. apply remove_char_id, EncodingProps.remove_char_absent.
  - intros Hok. specialize (Hok eq_refl).
    change (utf16_decode (0xFE :: 0xFF :: r)) with (utf16_strict false r) in *.
    change (utf16_decode_replace (0xFE :: 0xFF :: r)) with (utf16_body false r).
    change (startswith [0xFF; 0xFE] (0xFE :: 0xFF :: r)
            || startswith [0xFE; 0xFF] (0xFE :: 0xFF :: r)) with true.
    cbv iota.
    destruct (utf16_strict false r) as [t|] eqn:E; [|congruence].
    rewrite (utf16_strict_body false (length r) r t (le_n _) E).
    symmetry. apply remove_char_id, EncodingProps.remove_char_absent.
  - intros _. now rewrite Hno.
Qed.

(** The bytes a, NUL, b, which [read_file_bytes_to_text] returns with the
    NUL. *)
Lemma csv_text_has_no_nul_witness :
  csv_text [x61; x00; x62] = [0x61; 0x62]
  /\ read_file_bytes_to_text [x61; x00; x62] = [0x61; 0x00; 0x62]
  /\ csv_text [x61; x00; x62]
     = remove_char 0 (read_file_bytes_to_text [x61; x00; x62]).
Proof.
  split; [reflexivity|]. split; [reflexivity|].
  apply (csv_text_has_no_nul [x61; x00; x62]).
  vm_compute. discriminate.
Defined.

End SftpProps.

(** ** Reading text back *)

Module ReadProps.
Import PyFacts StringFacts Encoding Utf8.

Ltac decide_tests :=
  repeat match goal with
         | |- context [N.eqb ?a ?b] =>
             destruct (N.eqb_spec a b); try (exfalso; lia)
         | |- context [N.ltb ?a ?b] =>
             destruct (N.ltb_spec a b); try (exfalso; lia)
         | |- context [N.leb ?a ?b] =>
             destruct (N.leb_spec a b); try (exfalso; lia)
         end.

(** The groups of six bits of a code point, as numbers that [lia] takes
    for unknowns. *)
Ltac sextets c :=
  let E1 := fresh "E1" in let L1 := fresh "L1" in
  let E2 := fresh "E2" in let L2 := fresh "L2" in
  let E3 := fresh "E3" in let L3 := fresh "L3" in
  pose proof (N.div_mod c 64 ltac:(lia)) as E1;
  pose proof (N.mod_lt c 64 ltac:(lia)) as L1;
  pose proof (N.div_mod (c / 64) 64 ltac:(lia)) as E2;
  pose proof (N.mod_lt (c / 64) 64 ltac:(lia)) as L2;
  pose proof (N.div_mod (c / 64 / 64) 64 ltac:(lia)) as E3;
  pose proof (N.mod_lt (c / 64 / 64) 64 ltac:(lia)) as L3;
  let m0 := fresh "m0" in let q1 := fresh "q1" in
  let m1 := fresh "m1" in let q2 := fresh "q2" in
  let m2 := fresh "m2" in let q3 := fresh "q3" in
  set (m0 := c mod 64) in *; set (q1 := c / 64) in *;
  set (m1 := q1 mod 64) in *; set (q2 := q1 / 64) in *;
  set (m2 := q2 mod 64) in *; set (q3 := q2 / 64) in *;
  clearbody m0 m1 m2 q3; clearbody q2; clearbody q1.

(** The decoder reads back the bytes of a scalar value. *)
Lemma utf8_decode_encode_char c rest :
  is_scalar c = true ->
  utf8_decode (utf8_encode_char c ++ rest) = cons c <$> utf8_decode rest.
Proof.
  unfold is_scalar, utf8_encode_char. cbv zeta. intros Hc.
  sextets c.
  assert (Hs : c < 0xD800 \/ (0xDFFF < c /\ c < 0x110000)).
  { apply orb_true_iff in Hc as [Hc|Hc].
    - left. now apply N.ltb_lt.
    - right. apply andb_true_iff in Hc as [H1 H2].
      split; now apply N.ltb_lt. }
  clear Hc.
  destruct (N.ltb_spec c 0x80) as [H80|H80].
  { cbn [app utf8_decode]. apply N.ltb_lt in H80. now rewrite H80. }
  destruct (N.ltb_spec c 0x800) as [H800|H800].
  { cbn [app utf8_decode]. unfold is_cont. decide_tests.
    cbn [andb]. do 2 f_equal.
    lia. }
  destruct (N.ltb_spec c 0x10000) as [H10000|H10000].
  { cbn [app utf8_decode]. cbv zeta. unfold is_cont, in_range. decide_tests.
    all: cbn [andb]; do 2 f_equal; lia. }
  cbn [app utf8_decode]. cbv zeta. unfold is_cont, in_range. decide_tests.
  all: cbn [andb]; do 2 f_equal; lia.
Qed.

Lemma utf8_decode_encode s :
  forallb is_scalar s = true -> utf8_decode (utf8_encode s) = Some s.
Proof.
  induction s as [|c s IH]; [reflexivity|]. simpl forallb.
  intros H. apply andb_true_iff in H as [Hc Hs].
  unfold utf8_encode. cbn [flat_map].
  rewrite utf8_decode_encode_char by exact Hc.
  fold (utf8_encode s). now rewrite IH.
Qed.

(** The cases of a byte against a literal, in a goal that is a choice
    between the literal and the default of the match. *)
Ltac byte_default x :=
  let p := fresh "p" in
  destruct x as [|p]; [right; reflexivity|];
  do 8 (try (destruct p as [p|p|]; try (right; reflexivity))).

(** The bytes begin with the UTF-8 mark, or [utf-8-sig] reads them as
    [utf-8] does. *)
Lemma utf8_sig_cases (b : list N) :
  (exists r, b = 0xEF :: 0xBB :: 0xBF :: r)
  \/ utf8_sig_decode b = utf8_decode b.
Proof.
  destruct b as [|x b]; [now right|]. byte_default x.
  destruct b as [|y b]; [now right|]. byte_default y.
  destruct b as [|z b]; [now right|]. byte_default z.
  left. now exists b.
Qed.

Lemma utf8_decode_mark r :
  utf8_decode (0xEF :: 0xBB :: 0xBF :: r) = cons 0xFEFF <$> utf8_decode r.
Proof. reflexivity. Qed.

(** The first byte of an encoded scalar value is none of FF and FE. *)
Lemma utf8_encode_char_head c :
  is_scalar c = true ->
  exists x r, utf8_encode_char c = x :: r /\ x < 0xF5.
Proof.
  unfold is_scalar, utf8_encode_char. cbv zeta. intros Hc.
  sextets c.
  assert (Hs : c < 0x110000).
  { apply orb_true_iff in Hc as [Hc|Hc].
    - apply N.ltb_lt in Hc. lia.
    - apply andb_true_iff in Hc as [_ H2]. now apply N.ltb_lt. }
  destruct (N.ltb_spec c 0x80); [eexists _, _; split; [reflexivity | lia]|].
  destruct (N.ltb_spec c 0x800); [eexists _, _; split; [reflexivity | lia]|].
  destruct (N.ltb_spec c 0x10000); eexists _, _; (split; [reflexivity | lia]).
Qed.

Lemma utf8_encode_no_mark16 s :
  forallb is_scalar s = true ->
  startswith [0xFF; 0xFE] (utf8_encode s) || startswith [0xFE; 0xFF] (utf8_encode s)
  = false.
Proof.
  destruct s as [|c s]; [reflexivity|]. simpl forallb. intros H.
  apply andb_true_iff in H as [Hc _].
  destruct (utf8_encode_char_head c Hc) as (x & r & E & Hx).
  unfold utf8_encode. cbn [flat_map]. rewrite E. cbn [app startswith].
  destruct (N.eqb_spec 0xFF x); [lia|].
  destruct (N.eqb_spec 0xFE x); [lia|]. reflexivity.
Qed.

(** Only U+FEFF is encoded as EF BB BF. *)
Lemma utf8_encode_char_mark c rest r :
  is_scalar c = true ->
  utf8_encode_char c ++ rest = 0xEF :: 0xBB :: 0xBF :: r -> c = 0xFEFF.
Proof.
  unfold is_scalar, utf8_encode_char. cbv zeta. intros Hc.
  sextets c.
  destruct (N.ltb_spec c 0x80); [intros [= ? _]; lia|].
  destruct (N.ltb_spec c 0x800); [intros [= ? ? _]; lia|].
  destruct (N.ltb_spec c 0x10000); [intros [= ? ? ? _]; lia|].
  intros [= ? ? ? _]. lia.
Qed.

Lemma cp1252_decode_length b :
  forall t, cp1252_decode b = Some t -> length t = length b.
Proof.
  induction b as [|x b IH]; intros t; simpl; [now intros [= <-]|].
  destruct (cp1252_high x) as [c|]; [|discriminate].
  destruct (cp1252_decode b) as [t'|]; [|discriminate].
  intros [= <-]. simpl. f_equal. now apply IH.
Qed.

(** X10. A sample whose bytes are the UTF-8 encoding of a text is read
    back by [read_file_bytes_to_text] as that text, without its first
    character when that is the byte-order mark U+FEFF: only one mark is
    dropped, and no other character is changed. *)
Theorem utf8_text_read_back (raw : bytes) (s : pystr) :
  ords raw = utf8_encode s ->
  forallb is_scalar s = true ->
  read_file_bytes_to_text raw = if startswith [0xFEFF] s then skipn 1 s else s.
Proof.
  intros Hraw Hs. unfold read_file_bytes_to_text. cbv zeta.
  rewrite Hraw, (utf8_encode_no_mark16 s Hs). cbn [first_decoding].
  pose proof (utf8_decode_encode s Hs) as Hdec.
  destruct s as [|c s]; [reflexivity|].
  cbn [startswith]. rewrite andb_true_r.
  destruct (N.eqb_spec 0xFEFF c) as [<-|Hc].
  - simpl forallb in Hs.
    change (utf8_encode (0xFEFF :: s))
      with (0xEF :: 0xBB :: 0xBF :: utf8_encode s).
    change (utf8_sig_decode (0xEF :: 0xBB :: 0xBF :: utf8_encode s))
      with (utf8_decode (utf8_encode s)).
    now rewrite (utf8_decode_encode s Hs).
  - destruct (utf8_sig_cases (utf8_encode (c :: s))) as [[r Hr]|Hsame].
    + exfalso. apply Hc. symmetry.
      simpl forallb in Hs. apply andb_true_iff in Hs as [Hsc _].
      exact (utf8_encode_char_mark c _ r Hsc Hr).
    + now rewrite Hsame, Hdec.
Qed.

(** The bytes EF BB BF 63 C3 A9: the mark, then a c and an e with an
    acute accent. *)
Lemma utf8_text_read_back_witness :
  read_file_bytes_to_text [xef; xbb; xbf; x63; xc3; xa9] = [0x63; 0xE9].
Proof.
  apply (utf8_text_read_back [xef; xbb; xbf; x63; xc3; xa9] [0xFEFF; 0x63; 0xE9]);
    reflexivity.
Defined.

(** X11. Bytes that bear no UTF-16 mark and are not UTF-8 are read one
    character for every byte: by code page 1252 when every byte has a
    character there, by Latin-1 otherwise. *)
Theorem non_utf8_read_bytewise (raw : bytes) :
  startswith [0xFF; 0xFE] (ords raw) || startswith [0xFE; 0xFF] (ords raw) = false ->
  utf8_decode (ords raw) = None ->
  read_file_bytes_to_text raw
  = match cp1252_decode (ords raw) with
    | Some t => t
    | None => ords raw
    end
  /\ length (read_file_bytes_to_text raw) = length raw.
Proof.
  intros Hmark Hutf. unfold read_file_bytes_to_text. cbv zeta.
  rewrite Hmark. cbn [first_decoding].
  assert (Hsig : utf8_sig_decode (ords raw) = None).
  { destruct (utf8_sig_cases (ords raw)) as [[r Hr]|Hsame]; [|congruence].
    rewrite Hr in *. rewrite utf8_decode_mark in Hutf.
    change (utf8_sig_decode (0xEF :: 0xBB :: 0xBF :: r)) with (utf8_decode r).
    now destruct (utf8_decode r). }
  rewrite Hsig, Hutf.
  destruct (cp1252_decode (ords raw)) as [t|] eqn:E.
  - split; [reflexivity|].
    rewrite (cp1252_decode_length _ _ E). unfold ords. apply length_map.
  - split; [reflexivity|]. unfold ords. apply length_map.
Qed.

(** The bytes 63 E9 80: in code page 1252 a c, an e with an acute accent
    and the euro sign. *)
Lemma non_utf8_read_bytewise_witness :
  read_file_bytes_to_text [x63; xe9; x80] = [0x63; 0xE9; 0x20AC]
  /\ length (read_file_bytes_to_text [x63; xe9; x80]) = 3%nat.
Proof.
  destruct (non_utf8_read_bytewise [x63; xe9; x80]) as [H1 H2];
    [reflexivity | reflexivity |].
  split; [exact H1 | exact H2].
Defined.

End ReadProps.

(** ** More on the path flattener *)

Module FlattenMore.
Import PyFacts DictFacts Flatten Spec.

Lemma flatten_list_In l :
  forall i prefix p v,
    In (p, v)
       ((fix elems (i : N) (l : list pyval) : list (pystr * pyval) :=
           match l with
           | [] => []
           | item :: l' =>
               _flatten item (index_prefix prefix i) ++ elems (i + 1) l'
           end) i l) ->
    exists x j, In x l /\ In (p, v) (_flatten x (index_prefix prefix j)).
Proof.
  induction l as [|x l IH]; intros i prefix p v; [intros []|].
  intros H. apply in_app_or in H as [H|H].
  - exists x, i. split; [now left | exact H].
  - destruct (IH _ _ _ _ H) as (x' & j & Hin & Hp).
    exists x', j. split; [now right | exact Hp].
Qed.

(** The flattener ends every path at a scalar. *)
Lemma flatten_items_leaves obj :
  forall prefix p v, In (p, v) (_flatten obj prefix) -> is_leaf v = true.
Proof.
  induction obj as [ | b | z | f | s | l IH | d IH] using pyval_nested_ind;
    intros prefix p v Hin;
    try (destruct Hin as [[= <- <-]|[]]; reflexivity).
  - apply flatten_list_In in Hin as (x & j & Hx & Hin).
    exact (Forall_In _ _ IH _ Hx _ _ _ Hin).
  - apply FlattenProps.flatten_dict_In in Hin as (k & x & Hkx & Hin).
    exact (Forall_In _ _ IH _ Hkx _ _ _ Hin).
Qed.

(** X12. Every value of a flattened record is a scalar: no mapping and no
    list survives [flatten_record], at any depth of the record. *)
Theorem flatten_record_values_are_scalars (rec : pyval) (p : pystr) (v : pyval) :
  dict_get (flatten_record rec) p = Some v -> is_leaf v = true.
Proof.
  intros H. apply dict_of_items_get in H.
  exact (flatten_items_leaves rec [] p v H).
Qed.

(** A nested record. *)
Lemma flatten_record_values_are_scalars_witness :
  let rec := PDict [(lit "id", PInt 7);
                    (lit "to", PDict [(lit "city", PStr (lit "Oslo"))]);
                    (lit "tags", PList [PStr (lit "a"); PDict []])] in
  flatten_record rec
  = [(lit "id", PInt 7); (lit "to.city", PStr (lit "Oslo"));
     (lit "tags[0]", PStr (lit "a"))]
  /\ is_leaf (PStr (lit "Oslo")) = true.
Proof.
  intros rec. split; [reflexivity|].
  apply (flatten_record_values_are_scalars rec (lit "to.city")). reflexivity.
Defined.

Lemma dict_get_app_found {V} (a b : dict V) k v :
  dict_get (a ++ (k, v) :: b) k <> None.
Proof.
  induction a as [|[k0 v0] a IH]; simpl.
  - now rewrite str_eqb_refl.
  - destruct (str_eqb k0 k); [discriminate | exact IH].
Qed.

Lemma unique_keys_app_fresh {V} (acc items : dict V) k v :
  unique_keys (acc ++ (k, v) :: items) = true -> dict_get acc k = None.
Proof.
  induction acc as [|[k0 v0] acc IH]; [reflexivity|]. simpl.
  intros H. apply andb_true_iff in H as [Hk0 Hu].
  destruct (str_eqb_spec k0 k) as [->|Hne]; [|now apply IH].
  unfold dict_mem in Hk0.
  pose proof (dict_get_app_found acc items k v) as Hf.
  destruct (dict_get (acc ++ (k, v) :: items) k); [discriminate | congruence].
Qed.

Lemma dict_set_fresh {V} (d : dict V) k v :
  dict_get d k = None -> dict_set d k v = d ++ [(k, v)].
Proof.
  induction d as [|[k0 v0] d IH]; simpl; [reflexivity|].
  destruct (str_eqb k0 k); [discriminate|]. intros H. f_equal. now apply IH.
Qed.

(** [dict(items)] keeps items whose keys are distinct as they are. *)
Lemma dict_update_unique {V} (items : dict V) :
  forall acc, unique_keys (acc ++ items) = true ->
              dict_update acc items = acc ++ items.
Proof.
  unfold dict_update.
  induction items as [|[k v] items IH]; intros acc Hu; simpl.
  - now rewrite app_nil_r.
  - rewrite dict_set_fresh by (eapply unique_keys_app_fresh; exact Hu).
    rewrite IH; rewrite <- app_assoc; [reflexivity | exact Hu].
Qed.

Lemma flatten_flat_items d :
  forallb (fun kv => is_leaf (snd kv)) d = true -> _flatten (PDict d) [] = d.
Proof.
  induction d as [|[k x] d IH]; [reflexivity|].
  rewrite FlattenProps.flatten_dict_cons. simpl forallb.
  intros H. apply andb_true_iff in H as [Hx Hd].
  rewrite (FlattenProps.flatten_leaf x _ Hx), IH by exact Hd. reflexivity.
Qed.

Lemma flatten_flat d :
  unique_keys d = true ->
  forallb (fun kv => is_leaf (snd kv)) d = true ->
  flatten_record (PDict d) = d.
Proof.
  intros Hu Hl. unfold flatten_record, dict_of_items.
  rewrite flatten_flat_items by exact Hl.
  now apply (dict_update_unique d []).
Qed.

(** X13. A record that is flat already, as every row of a delimited sample
    is, goes through [flatten_record] unchanged: same keys, same values,
    same order. *)
Theorem flatten_record_flat (d : dict pyval) :
  unique_keys d = true ->
  forallb (fun kv => is_leaf (snd kv)) d = true ->
  flatten_record (PDict d) = d.
Proof. exact (flatten_flat d). Qed.

(** A row of a delimited sample. *)
Lemma flatten_record_flat_witness :
  let row := [(lit "awb", PStr (lit "A1")); (lit "to.city", PStr (lit "Oslo"));
              (lit "weight", PNone)] in
  flatten_record (PDict row) = row.
Proof. intros row. apply (flatten_record_flat row); reflexivity. Defined.

Lemma dict_mem_set {V} (d : dict V) k v k' :
  dict_mem (dict_set d k v) k' = str_eqb k k' || dict_mem d k'.
Proof.
  unfold dict_mem. destruct (str_eqb_spec k k') as [->|Hne].
  - now rewrite dict_get_set_same.
  - now rewrite dict_get_set_other.
Qed.

Lemma unique_keys_set {V} (d : dict V) k v :
  unique_keys d = true -> unique_keys (dict_set d k v) = true.
Proof.
  induction d as [|[k0 v0] d IH]; [reflexivity|]. simpl.
  intros H. apply andb_true_iff in H as [Hk0 Hu].
  destruct (str_eqb_spec k0 k) as [->|Hne]; simpl.
  - now rewrite Hk0, Hu.
  - rewrite dict_mem_set, IH by exact Hu.
    apply negb_true_iff in Hk0. rewrite Hk0.
    assert (E : str_eqb k k0 = false) by (apply str_eqb_neq; congruence).
    now rewrite E.
Qed.

Lemma unique_keys_update {V} (items : dict V) :
  forall acc, unique_keys acc = true -> unique_keys (dict_update acc items) = true.
Proof.
  unfold dict_update. induction items as [|[k v] items IH]; intros acc H; simpl;
    [exact H|].
  apply IH. now apply unique_keys_set.
Qed.

Lemma dict_update_In {V} (items : dict V) :
  forall acc k v, In (k, v) (dict_update acc items) ->
                  In (k, v) acc \/ In (k, v) items.
Proof.
  unfold dict_update. induction items as [|[k0 v0] items IH]; intros acc k v; simpl;
    [now left|].
  intros H. apply IH in H as [H|H]; [|right; now right].
  apply BuilderProps.dict_set_In in H as [H|H]; [right; now left | now left].
Qed.

(** X14. [flatten_record] is idempotent: the extraction stage, which
    flattens records that may be flat already, loses nothing by it. *)
Theorem flatten_record_idempotent (rec : pyval) :
  flatten_record (PDict (flatten_record rec)) = flatten_record rec.
Proof.
  apply flatten_flat.
  - unfold flatten_record, dict_of_items. now apply unique_keys_update.
  - apply forallb_forall. intros [k v] Hin. simpl.
    unfold flatten_record, dict_of_items in Hin.
    apply dict_update_In in Hin as [[]|Hin].
    exact (flatten_items_leaves rec [] k v Hin).
Qed.

End FlattenMore.

(** ** More on sample parsing *)

Module ParseMore.
Import PyFacts StringFacts DictFacts Encoding Delimiter Flatten Parse.

(** Induction on an element, through its children. *)
Lemma element_nested_ind (P : element -> Prop) :
  (forall tag text children, Forall P children -> P (Element tag text children)) ->
  forall el, P el.
Proof.
  intros H. fix IH 1. intros [tag text children]. apply H.
  induction children as [|c cs IHcs]; constructor; [apply IH | exact IHcs].
Qed.

Import Rows.

Lemma clean_key_clean k : ~ In 0xFEFF (clean_key k) /\ ~ In 0xFFFE (clean_key k).
Proof.
  unfold clean_key. split.
  - intros H. apply remove_char_In in H as [H _].
    now apply EncodingProps.remove_char_absent in H.
  - apply EncodingProps.remove_char_absent.
Qed.

Lemma dict_set_Forall {V} (P : pystr * V -> Prop) (d : dict V) k v :
  Forall P d -> P (k, v) -> Forall P (dict_set d k v).
Proof.
  intros Hd Hkv. apply List.Forall_forall. intros [k' v'] Hin.
  apply BuilderProps.dict_set_In in Hin as [->|Hin]; [exact Hkv|].
  exact (Forall_In _ _ Hd _ Hin).
Qed.

Lemma dict_update_Forall {V} (P : pystr * V -> Prop) (items : dict V) :
  forall d, Forall P d -> Forall P items -> Forall P (dict_update d items).
Proof.
  unfold dict_update. induction items as [|[k v] items IH]; intros d Hd Hi; simpl;
    [exact Hd|].
  apply Forall_cons_iff in Hi as [Hkv Hi].
  apply IH; [now apply dict_set_Forall | exact Hi].
Qed.

Lemma clean_row_items r : Forall item_clean (clean_row r).
Proof.
  unfold clean_row.
  enough (H : forall acc, Forall item_clean acc ->
                Forall item_clean
                  (fold_left
                     (fun clean kv =>
                        match fst kv with
                        | None => clean
                        | Some k => dict_set clean (clean_key k) (cell_value (snd kv))
                        end) r acc))
    by (apply H; constructor).
  induction r as [|[k v] r IH]; intros acc Hacc; simpl; [exact Hacc|].
  apply IH. destruct k as [k|]; [|exact Hacc].
  apply dict_set_Forall; [exact Hacc|]. split; [apply clean_key_clean|].
  simpl. destruct v as [s|]; [right; now exists s | now left].
Qed.

Lemma csv_loop_rows reader raises max_rows :
  forall i rows out,
    Forall row_ok rows ->
    csv_loop reader raises i max_rows rows = Some out ->
    Forall row_ok out.
Proof.
  induction reader as [|r reader IH]; intros i rows out Hrows; simpl.
  - destruct raises; [discriminate | now intros [= <-]].
  - destruct (max_rows <=? i)%Z; [now intros [= <-]|].
    apply IH. destruct (any_nonblank (clean_row r)) eqn:E; [|exact Hrows].
    apply Forall_app. split; [exact Hrows|]. constructor; [|constructor].
    exists (clean_row r). split; [reflexivity|]. split; [exact E|].
    apply clean_row_items.
Qed.

Lemma header_cells_items header parts :
  Forall (fun h => ~ In 0xFEFF h /\ ~ In 0xFFFE h) header ->
  forall i, Forall item_clean (header_cells i header parts).
Proof.
  induction 1 as [|h header Hh _ IH]; intros i; simpl; constructor.
  - split; [exact Hh | right; eexists; reflexivity].
  - apply IH.
Qed.

Lemma manual_rows_ok delim lines max_rows :
  Forall row_ok (manual_rows delim lines max_rows).
Proof.
  unfold manual_rows.
  set (header := List.map clean_key (split delim (hd [] lines))).
  assert (Hh : Forall (fun h => ~ In 0xFEFF h /\ ~ In 0xFFFE h) header).
  { subst header. apply List.Forall_forall. intros h Hin.
    apply in_map_iff in Hin as (k & <- & _).
    apply clean_key_clean. }
  enough (H : forall ls acc, Forall row_ok acc ->
                Forall row_ok
                  (fold_left
                     (fun rows ln =>
                        let rec := manual_record delim header ln in
                        if any_nonblank rec then rows ++ [PDict rec] else rows)
                     ls acc))
    by (apply H; constructor).
  induction ls as [|ln ls IH]; intros acc Hacc; simpl; [exact Hacc|].
  apply IH. destruct (any_nonblank (manual_record delim header ln)) eqn:E;
    [|exact Hacc].
  apply Forall_app. split; [exact Hacc|]. constructor; [|constructor].
  eexists. split; [reflexivity|]. split; [exact E|].
  unfold manual_record, dict_of_items.
  apply dict_update_Forall; [constructor|]. now apply header_cells_items.
Qed.

Section WithReader.
Variable fs : pystr -> option bytes.
Variable json_loads : pystr -> option pyval.
Variable ET_fromstring : pystr -> option element.
Variable csv_DictReader : pystr -> N -> list csv_row * bool.

(** X15. The rows that the delimited tier of [parse_sample_to_records]
    returns, from the reader or from the split by hand: there is at least
    one, every row has a cell that is not blank, no key holds a byte-order
    mark, and every value is a string, or [None] for a cell that the
    reader found missing. *)
Theorem delimited_rows_are_clean (txt : pystr) (lines : list pystr)
  (max_rows : Z) (rows : list pyval) :
  delimited_stage csv_DictReader txt lines max_rows = Some rows ->
  rows <> [] /\ Forall row_ok rows.
Proof.
  unfold delimited_stage. destruct lines as [|ln lines]; [discriminate|].
  destruct (csv_DictReader txt (detect_csv_delimiter txt)) as [reader raises].
  destruct (csv_loop reader raises 0 max_rows []) as [out|] eqn:Hloop.
  - unfold nonempty_rows. destruct out as [|r out]; [discriminate|].
    intros [= <-]. split; [discriminate|].
    eapply csv_loop_rows; [|exact Hloop]. constructor.
  - unfold nonempty_rows.
    pose proof (manual_rows_ok (detect_csv_delimiter txt) (ln :: lines) max_rows)
      as Hok.
    destruct (manual_rows _ _ _) as [|r out]; [discriminate|].
    intros [= <-]. split; [discriminate | exact Hok].
Qed.

(** X16. Whatever tier gives the records, the raw text that
    [parse_sample_to_records] returns for a file that exists is the
    decoded text of the whole file, neither stripped nor cut at the cap. *)
Theorem raw_text_is_the_decoded_file (path : pystr) (max_rows : Z) (raw : bytes) :
  fs path = Some raw ->
  exists records,
    parse_sample_to_records fs json_loads ET_fromstring csv_DictReader
      path max_rows
    = Ok (records, read_file_bytes_to_text raw).
Proof.
  intros Hfs. unfold parse_sample_to_records. rewrite Hfs. cbv zeta.
  destruct (json_stage _ _ _); [eexists; reflexivity|].
  destruct (xml_stage _ _); [eexists; reflexivity|].
  destruct (delimited_stage _ _ _ _); eexists; reflexivity.
Qed.

End WithReader.

(** Three lines split by hand on the semicolon after the reader raised,
    the second line without a cell that is not blank. *)
Lemma delimited_rows_are_clean_witness :
  let txt := [0xFEFF] ++ lit "id; name" ++ [0x0A] ++ lit " ;" ++ [0x0A]
             ++ lit "7;Ann;x" in
  delimited_stage failing_reader txt (nonblank_lines txt) 200
  = Some [PDict [(lit "id", PStr (lit "7")); (lit "name", PStr (lit "Ann"))]]
  /\ Forall row_ok
       [PDict [(lit "id", PStr (lit "7")); (lit "name", PStr (lit "Ann"))]].
Proof.
  intros txt.
  assert (H : delimited_stage failing_reader txt (nonblank_lines txt) 200
              = Some [PDict [(lit "id", PStr (lit "7"));
                             (lit "name", PStr (lit "Ann"))]])
    by reflexivity.
  split; [exact H|].
  exact (proj2 (delimited_rows_are_clean failing_reader txt (nonblank_lines txt)
                  200 _ H)).
Defined.

(** A text of one opaque line, with a space at each end. *)
Lemma raw_text_is_the_decoded_file_witness :
  let content := Ref.ascii_bytes " hello world " in
  exists records,
    parse_sample_to_records (Ref.one_file (lit "note.txt") content)
      Ref.json_loads Ref.no_xml Ref.no_rows (lit "note.txt") 1
    = Ok (records, lit " hello world ").
Proof.
  intros content.
  exact (raw_text_is_the_decoded_file
           (Ref.one_file (lit "note.txt") content)
           Ref.json_loads Ref.no_xml Ref.no_rows (lit "note.txt") 1 content
           eq_refl).
Defined.

(** *** The XML record *)

Lemma flatten_children_values (prefix : pystr) (children : list element) :
  Forall (fun el => forall prefix,
            Forall (fun kv => exists s, snd kv = PStr s /\ strip s = s)
              (flatten_element_to_dict el prefix)) children ->
  forall out,
    Forall (fun kv => exists s, snd kv = PStr s /\ strip s = s) out ->
    Forall (fun kv => exists s, snd kv = PStr s /\ strip s = s)
      ((fix each (out : dict pyval) (cs : list element) : dict pyval :=
          match cs with
          | [] => out
          | (Element tag text kids as child) :: cs' =>
              let key := key_prefix prefix tag in
              match kids with
              | [] => each (dict_set out key (PStr (strip (default [] text)))) cs'
              | _ => each (dict_update out (flatten_element_to_dict child key)) cs'
              end
          end) out children).
Proof.
  induction 1 as [|[tag text kids] cs Hc _ IH]; intros out Hout; [exact Hout|].
  cbv zeta. destruct kids as [|kid kids].
  - apply IH. apply dict_set_Forall; [exact Hout|].
    eexists. split; [reflexivity | apply strip_idem].
  - apply IH. apply dict_update_Forall; [exact Hout | apply Hc].
Qed.

Lemma flatten_element_values el :
  forall prefix,
    Forall (fun kv => exists s, snd kv = PStr s /\ strip s = s)
      (flatten_element_to_dict el prefix).
Proof.
  induction el as [tag text children IH] using element_nested_ind.
  intros prefix. simpl.
  apply (flatten_children_values prefix children IH). constructor.
Qed.

(** X17. Every value of the record that [flatten_element_to_dict] makes of
    an XML document is a string without white space at its ends; an
    element without text gives the empty string, never [None]. *)
Theorem xml_record_values_are_stripped (root : element) (k : pystr) (v : pyval) :
  dict_get (flatten_element_to_dict root []) k = Some v ->
  exists s, v = PStr s /\ strip s = s.
Proof.
  intros H. apply dict_get_In in H.
  exact (Forall_In _ _ (flatten_element_values root []) _ H).
Qed.

(** A shipment with a receiver, and an element without text. *)
Lemma xml_record_values_are_stripped_witness :
  let root :=
    Element (lit "Shipment") None
      [Element (lit "Receiver") None
         [Element (lit "Name") (Some (lit " Jane ")) []];
       Element (lit "Note") None []] in
  flatten_element_to_dict root []
  = [(lit "Receiver.Name", PStr (lit "Jane")); (lit "Note", PStr [])]
  /\ exists s, PStr (lit "Jane") = PStr s /\ strip s = s.
Proof.
  intros root. split; [reflexivity|].
  apply (xml_record_values_are_stripped root (lit "Receiver.Name")). reflexivity.
Defined.

End ParseMore.
(** ** More on the canonical builder *)

Module BuilderMore.
Import PyFacts DictFacts Flatten Builder BuilderProps.

Import BuilderSpec.

Lemma grows_refl h : grows h h.
Proof. split; [lia | trivial]. Qed.

Lemma grows_trans h1 h2 h3 : grows h1 h2 -> grows h2 h3 -> grows h1 h3.
Proof.
  intros [Hn1 Hk1] [Hn2 Hk2]. split; [lia|].
  intros l k Hl Hm. apply Hk2; [lia|]. now apply Hk1.
Qed.

Lemma grows_store h l k v : grows h (store h l k v).
Proof.
  split; [simpl; lia|]. intros l' k' _ Hm. rewrite cell_store.
  destruct (Nat.eqb_spec l' l) as [->|Hne]; [|exact Hm].
  rewrite FlattenMore.dict_mem_set, Hm. apply orb_true_r.
Qed.

Lemma grows_alloc h d : grows h (snd (alloc h d)).
Proof.
  split; [simpl; lia|]. intros l k Hl Hm.
  rewrite cell_alloc_old by lia. exact Hm.
Qed.

Lemma descend_grows parts : forall h cur, grows h (fst (descend h cur parts)).
Proof.
  induction parts as [|part rest IH]; intros h cur; [apply grows_refl|].
  assert (Hfresh :
            grows h (fst (descend (store (snd (alloc h [])) cur part (HRef (next h)))
                            (next h) rest))).
  { eapply grows_trans; [|apply IH].
    eapply grows_trans; [apply grows_alloc | apply grows_store]. }
  destruct (dict_get (cell h cur) part) as [[ | | | | | | l]|] eqn:Hget;
    try (rewrite descend_fresh by (rewrite Hget; discriminate); exact Hfresh).
  rewrite (descend_found _ _ _ _ _ Hget). apply IH.
Qed.

Lemma assign_grows h canon mapped v : grows h (assign h canon mapped v).
Proof.
  unfold assign.
  pose proof (descend_grows (removelast (split DOT mapped)) h canon) as Hd.
  destruct (descend h canon (removelast (split DOT mapped))) as [h1 cur].
  eapply grows_trans; [exact Hd | apply grows_store].
Qed.

Section Shape.
Variable str_isdigit : pystr -> bool.
Variable int_of_str : pystr -> option Z.
Variable float_of_str : pystr -> option pyfloat.
Variable py_repr : heap -> hval -> pystr.

Abbreviation field_step := (build_field str_isdigit int_of_str float_of_str).
Abbreviation record_step :=
  (build_record str_isdigit int_of_str float_of_str py_repr).
Abbreviation loop_step := (turn str_isdigit int_of_str float_of_str py_repr).
Abbreviation run_mappings :=
  (apply_mappings str_isdigit int_of_str float_of_str py_repr).

Lemma build_field_grows rec canon h f : grows h (field_step rec canon h f).
Proof.
  unfold build_field. destruct (target f); [|apply grows_refl].
  destruct (heap_lookup h rec (partner_field f)) as [ | | | | [|c s] | | ];
    try apply grows_refl; apply assign_grows.
Qed.

Lemma build_fields_grows rec canon fields :
  forall h, grows h (fold_left (field_step rec canon) fields h).
Proof.
  induction fields as [|f fields IH]; intros h; [apply grows_refl|]. simpl.
  eapply grows_trans; [apply build_field_grows | apply IH].
Qed.

Lemma ensure_object_grows needed key canon h :
  grows h (ensure_object needed key canon h)
  /\ (needed = true -> dict_mem (cell (ensure_object needed key canon h) canon) key = true).
Proof.
  unfold ensure_object.
  destruct needed; simpl andb; [|split; [apply grows_refl | discriminate]].
  destruct (dict_mem (cell h canon) key) eqn:Hm; simpl negb; cbv iota.
  - split; [apply grows_refl | now intros _].
  - split.
    + eapply grows_trans; [apply grows_alloc | apply grows_store].
    + intros _. change (alloc h []) with (next h, snd (alloc h [])). cbv iota.
      now rewrite cell_store_same, FlattenMore.dict_mem_set, str_eqb_refl.
Qed.

Lemma phone_to_string_grows canon h : grows h (phone_to_string py_repr canon h).
Proof.
  unfold phone_to_string.
  destruct (dict_get (cell h canon) CUSTOMER_CONTACT) as [[ | | | | | | cc]|];
    try apply grows_refl.
  destruct (dict_get (cell h cc) PHONE) as [[ | | | | | | ]|];
    try apply grows_refl; apply grows_store.
Qed.

(** One record: a new object, and with it the destination and the origin
    that the mapping asks for. *)
Lemma build_record_shape nd no fields h rec :
  let h' := fst (record_step nd no fields h rec) in
  let canon := snd (record_step nd no fields h rec) in
  canon = next h
  /\ (next h < next h')%nat
  /\ grows h h'
  /\ (nd = true -> dict_mem (cell h' canon) DESTINATION = true)
  /\ (no = true -> dict_mem (cell h' canon) ORIGIN = true).
Proof.
  unfold build_record. cbv zeta.
  change (alloc h []) with (next h, snd (alloc h [])). cbv iota.
  set (h0 := snd (alloc h [])).
  set (h1 := fold_left _ fields h0).
  set (h2 := ensure_object nd DESTINATION (next h) h1).
  set (h3 := ensure_object no ORIGIN (next h) h2).
  simpl fst. simpl snd.
  pose proof (grows_alloc h []) as G0. fold h0 in G0.
  pose proof (build_fields_grows rec (next h) fields h0) as G1. fold h1 in G1.
  destruct (ensure_object_grows nd DESTINATION (next h) h1) as [G2 D2]. fold h2 in G2, D2.
  destruct (ensure_object_grows no ORIGIN (next h) h2) as [G3 D3]. fold h3 in G3, D3.
  pose proof (phone_to_string_grows (next h) h3) as G4.
  assert (Hn0 : next h0 = S (next h)) by reflexivity.
  destruct G1 as [N1 K1], G2 as [N2 K2], G3 as [N3 K3], G4 as [N4 K4].
  split; [reflexivity|]. split; [lia|]. split.
  - eapply grows_trans; [exact G0|].
    eapply grows_trans; [split; [exact N1 | exact K1]|].
    eapply grows_trans; [split; [exact N2 | exact K2]|].
    eapply grows_trans; [split; [exact N3 | exact K3]|].
    split; [exact N4 | exact K4].
  - split.
    + intros Hnd. apply K4; [lia|]. apply K3; [lia|]. now apply D2.
    + intros Hno. apply K4; [lia|]. now apply D3.
Qed.

Lemma turns_shape nd no fields records :
  forall h acc,
    exists canons h',
      fold_left (loop_step nd no fields) records (h, acc) = (h', acc ++ canons)
      /\ grows h h'
      /\ length canons = length records
      /\ List.NoDup canons
      /\ Forall (fun c =>
                   (next h <= c < next h')%nat
                   /\ (nd = true -> dict_mem (cell h' c) DESTINATION = true)
                   /\ (no = true -> dict_mem (cell h' c) ORIGIN = true)) canons.
Proof.
  induction records as [|rec records IH]; intros h acc.
  - exists [], h. rewrite app_nil_r.
    repeat split; [lia | trivial | constructor | constructor].
  - pose proof (build_record_shape nd no fields h rec) as Hrec. cbv zeta in Hrec.
    destruct (record_step nd no fields h rec) as [h1 canon] eqn:Hturn.
    simpl fst in Hrec. simpl snd in Hrec.
    destruct Hrec as (Hcanon & Hlt & G1 & D1 & O1).
    destruct (IH h1 (acc ++ [canon])) as (canons & h' & Hfold & G2 & Hlen & Hnd & Hall).
    exists (canon :: canons), h'. split.
    { simpl fold_left. unfold turn at 2. simpl fst. simpl snd.
      rewrite Hturn, Hfold. now rewrite <- app_assoc. }
    split; [eapply grows_trans; eassumption|].
    split; [simpl; now rewrite Hlen|].
    destruct G2 as [N2 K2]. split.
    { constructor; [|exact Hnd]. intros Hin.
      destruct (Forall_In _ _ Hall _ Hin) as [Hc _]. lia. }
    constructor.
    + split; [lia|]. split.
      * intros H. apply K2; [lia | now apply D1].
      * intros H. apply K2; [lia | now apply O1].
    + eapply Forall_impl; [exact Hall|]. intros c (Hc & Hd & Ho).
      split; [lia|]. split; assumption.
Qed.

(** X18. [apply_mappings] returns one canonical object for every record,
    in the order of the records, and every one of them is a new object:
    none is an object of the input, and no two are the same object. *)
Theorem one_new_object_per_record (h : heap) (records : list nat)
  (fields : list field) :
  let out := run_mappings h records fields in
  length (snd out) = length records
  /\ List.NoDup (snd out)
  /\ forall c, In c (snd out) -> (next h <= c < next (fst out))%nat.
Proof.
  cbv zeta. unfold apply_mappings.
  destruct (turns_shape
              (existsb (startswith (lit "destination.")) (mapped_targets fields))
              (existsb (startswith (lit "origin.")) (mapped_targets fields))
              fields records h [])
    as (canons & h' & Hfold & _ & Hlen & Hnd & Hall).
  cbv zeta. rewrite Hfold. simpl.
  split; [exact Hlen|]. split; [exact Hnd|].
  intros c Hc. now destruct (Forall_In _ _ Hall _ Hc).
Qed.

(** X19. When a mapping entry names a path under [destination.], every
    canonical object has the key [destination], whatever the record held;
    likewise for [origin.]. The keys stay while the later records are
    built. *)
Theorem destination_and_origin_are_ensured (h : heap) (records : list nat)
  (fields : list field) (c : nat) :
  let out := run_mappings h records fields in
  In c (snd out) ->
  (existsb (startswith (lit "destination.")) (mapped_targets fields) = true ->
   dict_mem (cell (fst out) c) DESTINATION = true)
  /\ (existsb (startswith (lit "origin.")) (mapped_targets fields) = true ->
      dict_mem (cell (fst out) c) ORIGIN = true).
Proof.
  cbv zeta. unfold apply_mappings.
  destruct (turns_shape
              (existsb (startswith (lit "destination.")) (mapped_targets fields))
              (existsb (startswith (lit "origin.")) (mapped_targets fields))
              fields records h [])
    as (canons & h' & Hfold & _ & _ & _ & Hall).
  cbv zeta. rewrite Hfold. simpl. intros Hc.
  destruct (Forall_In _ _ Hall _ Hc) as (_ & Hd & Ho). split; assumption.
Qed.

(** Entries without a target change nothing. *)
Lemma mapped_targets_cons f fields :
  mapped_targets (f :: fields)
  = match target f with
    | Some t => t :: mapped_targets fields
    | None => mapped_targets fields
    end.
Proof. reflexivity. Qed.

Lemma mapped_targets_filter fields :
  mapped_targets (List.filter is_mapped fields) = mapped_targets fields.
Proof.
  induction fields as [|f fields IH]; [reflexivity|].
  cbn [List.filter]. unfold is_mapped at 1. rewrite (mapped_targets_cons f fields).
  destruct (target f) as [t|] eqn:E; [|exact IH].
  now rewrite mapped_targets_cons, E, IH.
Qed.

Lemma build_fields_filter rec canon fields :
  forall h,
    fold_left (field_step rec canon) (List.filter is_mapped fields) h
    = fold_left (field_step rec canon) fields h.
Proof.
  induction fields as [|f fields IH]; intros h; [reflexivity|]. simpl.
  unfold is_mapped at 1. unfold build_field at 3.
  destruct (target f) as [t|] eqn:E; [|apply IH].
  simpl. unfold build_field at 2. rewrite E. apply IH.
Qed.

Lemma fold_left_ext {A B} (f g : A -> B -> A) l :
  (forall a b, f a b = g a b) -> forall a, fold_left f l a = fold_left g l a.
Proof.
  intros H. induction l as [|b l IH]; intros a; simpl; [reflexivity|].
  now rewrite H, IH.
Qed.

(** X20. A mapping entry whose [mapped_to] is [None] or empty has no effect
    on the result of [apply_mappings]: the entries can be left out, and
    the canonical objects and the store are the same. *)
Theorem unmapped_entries_are_ignored (h : heap) (records : list nat)
  (fields : list field) :
  run_mappings h records (List.filter is_mapped fields)
  = run_mappings h records fields.
Proof.
  unfold apply_mappings. cbv zeta. rewrite mapped_targets_filter.
  apply fold_left_ext. intros [h0 acc] rec.
  unfold turn, build_record. cbv zeta. simpl fst. simpl snd.
  destruct (alloc h0 []) as [canon h1].
  now rewrite build_fields_filter.
Qed.

(** X21. A phone number made of digits only is read as an integer before
    the builder makes it a string again: the canonical phone is
    [str(int(s))], the digits of the number without the zeros that the
    source had in front. *)
Theorem digit_phone_is_renumbered (k s : pystr) (z : Z) :
  k <> [] -> s <> [] ->
  str_isdigit (strip s) = true -> int_of_str (strip s) = Some z ->
  built str_isdigit int_of_str float_of_str py_repr
    [[(k, PStr s)]] [mkField (Some k) (Some (lit "customer_contact.phone"))]
  = [PDict [(CUSTOMER_CONTACT, PDict [(PHONE, PStr (str_of_Z z))])]].
Proof.
  intros Hk Hs Hd Hi.
  destruct k as [|kc k]; [congruence|]. destruct s as [|sc s]; [congruence|].
  unfold built, build. cbn [load_records load_record load_items load].
  change (alloc empty_heap [(kc :: k, HStr (sc :: s))])
    with (0%nat, snd (alloc empty_heap [(kc :: k, HStr (sc :: s))])).
  cbv iota. set (h0 := snd (alloc empty_heap _)).
  unfold apply_mappings. cbv zeta.
  change (mapped_targets _) with [lit "customer_contact.phone"].
  change (existsb (startswith (lit "destination.")) _) with false.
  change (existsb (startswith (lit "origin.")) _) with false.
  cbn [fold_left]. unfold turn. cbn [fst snd]. unfold build_record.
  change (alloc h0 []) with (1%nat, snd (alloc h0 [])). cbv iota zeta.
  set (h1 := snd (alloc h0 [])). cbn [fold_left].
  unfold build_field at 1.
  change (target _) with (Some (lit "customer_contact.phone")). cbv iota.
  cbn [partner_field].
  assert (Hlook : heap_lookup h1 0 (Some (kc :: k)) = HStr (sc :: s)).
  { unfold heap_lookup, get_nested_value.
    change (cell h1 0) with [(kc :: k, HStr (sc :: s))].
    cbn [dict_get]. now rewrite str_eqb_refl. }
  match goal with
  | |- context [heap_lookup ?a ?b ?c] =>
      replace (heap_lookup a b c) with (HStr (sc :: s)) by (symmetry; exact Hlook)
  end.
  cbv iota. cbn [coerce].
  match goal with
  | |- context [str_isdigit ?a] =>
      replace (str_isdigit a) with true by (symmetry; exact Hd)
  end.
  match goal with
  | |- context [int_of_str ?a] =>
      replace (int_of_str a) with (Some z) by (symmetry; exact Hi)
  end.
  cbv iota. unfold assign.
  change (split DOT (lit "customer_contact.phone")) with [CUSTOMER_CONTACT; PHONE].
  cbn [removelast List.last descend].
  change (cell h1 1) with (@nil (pystr * hval)). cbn [dict_get].
  change (alloc h1 []) with (2%nat, snd (alloc h1 [])). cbv iota.
  set (h2 := store (store _ 1 _ _) 2 _ _).
  unfold ensure_object. cbn [andb]. cbv iota.
  unfold phone_to_string.
  change (cell h2 1) with [(CUSTOMER_CONTACT, HRef 2)].
  change (dict_get [(CUSTOMER_CONTACT, HRef 2)] CUSTOMER_CONTACT)
    with (Some (HRef 2)).
  cbv iota.
  change (cell h2 2) with [(PHONE, HInt z)].
  change (dict_get [(PHONE, HInt z)] PHONE) with (Some (HInt z)). cbv iota.
  reflexivity.
Qed.

(** *** Flat records *)

Abbreviation nothing := (fun _ : nat => False).

Lemma split_from_not_nil c acc s : split_from c acc s <> [].
Proof.
  revert acc. induction s as [|x s IH]; intros acc; simpl; [discriminate|].
  destruct (x =? c)%N; [discriminate | apply IH].
Qed.

(** On a flat record, the lookup of a path that is not empty returns a
    value that names no dict. *)
Lemma flat_lookup h rec c p :
  flat_record h rec -> refs (heap_lookup h rec (Some (c :: p))) = [].
Proof.
  intros Hflat. unfold heap_lookup, get_nested_value.
  destruct (dict_get (cell h rec) (c :: p)) as [v|] eqn:Hd.
  { apply dict_get_In in Hd. exact (Hflat _ _ Hd). }
  destruct (split DOT (c :: p)) as [|part rest] eqn:Hs.
  { exfalso. exact (split_from_not_nil _ _ _ Hs). }
  cbn [walk href_as_dict].
  destruct (dict_get (cell h rec) part) as [v|] eqn:Hp.
  - apply dict_get_In in Hp. pose proof (Hflat _ _ Hp) as Hv.
    destruct rest as [|part2 rest]; [exact Hv|].
    cbn [walk]. destruct v; try discriminate; cbn [href_as_dict];
      (destruct (dict_get (cell h rec) (replace_char DOT UNDERSCORE (c :: p)))
         as [w|] eqn:Hu; [apply dict_get_In in Hu; exact (Hflat _ _ Hu) | reflexivity]).
  - destruct (dict_get (cell h rec) (replace_char DOT UNDERSCORE (c :: p)))
      as [w|] eqn:Hu; [apply dict_get_In in Hu; exact (Hflat _ _ Hu) | reflexivity].
Qed.

Lemma build_field_flat h0 h rec canon f :
  within nothing h0 h ->
  (rec < next h0)%nat -> flat_record h0 rec ->
  has_source f ->
  foot nothing (next h0) h canon ->
  within nothing h0 (field_step rec canon h f)
  /\ (next h <= next (field_step rec canon h f))%nat.
Proof.
  intros Hw Hrec Hflat Hsrc Hcanon. unfold build_field.
  unfold has_source in Hsrc.
  destruct (target f) as [mapped|]; [|split; [exact Hw | lia]].
  destruct Hsrc as (c & p & Hpf). rewrite Hpf.
  assert (Hflat' : flat_record h rec).
  { unfold flat_record. destruct Hw as (_ & Hframe & _).
    rewrite (Hframe rec Hrec (fun x => x)). exact Hflat. }
  pose proof (flat_lookup h rec c p Hflat') as Hv.
  destruct (heap_lookup h rec (Some (c :: p))) as [ | | | | s | | ] eqn:Hlook;
    cbv beta iota;
    try (split; [exact Hw | lia]);
    try (apply assign_within; [exact Hw | exact Hcanon|];
         intros l0 Hl0;
         apply (coerce_refs str_isdigit int_of_str float_of_str) in Hl0;
         rewrite Hv in Hl0; destruct Hl0).
  destruct s; [split; [exact Hw | lia]|].
  apply assign_within; [exact Hw | exact Hcanon|].
  intros l Hl. apply (coerce_refs str_isdigit int_of_str float_of_str) in Hl.
  destruct Hl.
Qed.

Lemma build_fields_flat h0 rec canon fields :
  (rec < next h0)%nat -> flat_record h0 rec ->
  Forall has_source fields ->
  forall h,
    within nothing h0 h ->
    foot nothing (next h0) h canon ->
    within nothing h0 (fold_left (field_step rec canon) fields h)
    /\ (next h <= next (fold_left (field_step rec canon) fields h))%nat.
Proof.
  intros Hrec Hflat. induction 1 as [|f fields Hf _ IH]; intros h Hw Hcanon; simpl.
  - split; [exact Hw | lia].
  - destruct (build_field_flat h0 h rec canon f Hw Hrec Hflat Hf Hcanon) as [Hw1 Hle].
    destruct (IH _ Hw1 (foot_mono _ _ _ _ _ Hle Hcanon)) as [Hw2 Hle2].
    split; [exact Hw2 | lia].
Qed.

Lemma build_record_flat nd no fields h0 h rec :
  within nothing h0 h ->
  (rec < next h0)%nat -> flat_record h0 rec ->
  Forall has_source fields ->
  within nothing h0 (fst (record_step nd no fields h rec)).
Proof.
  intros Hw Hrec Hflat Hsrc. unfold build_record. cbv zeta.
  change (alloc h []) with (next h, snd (alloc h [])). cbv iota.
  destruct (within_alloc nothing h0 h Hw) as [Hwa Hcanon0].
  set (ha := snd (alloc h [])) in *.
  destruct (build_fields_flat h0 rec (next h) fields Hrec Hflat Hsrc ha Hwa Hcanon0)
    as [Hw1 Hle1].
  set (h1 := fold_left _ fields ha) in *.
  pose proof (foot_mono _ _ _ _ _ Hle1 Hcanon0) as Hcanon1.
  destruct (ensure_object_within nothing h0 h1 nd DESTINATION (next h) Hw1 Hcanon1)
    as [Hw2 Hle2].
  set (h2 := ensure_object nd DESTINATION (next h) h1) in *.
  pose proof (foot_mono _ _ _ _ _ Hle2 Hcanon1) as Hcanon2.
  destruct (ensure_object_within nothing h0 h2 no ORIGIN (next h) Hw2 Hcanon2)
    as [Hw3 Hle3].
  set (h3 := ensure_object no ORIGIN (next h) h2) in *.
  pose proof (foot_mono _ _ _ _ _ Hle3 Hcanon2) as Hcanon3.
  destruct (phone_to_string_within py_repr nothing h0 h3 (next h) Hw3 Hcanon3)
    as [Hw4 _].
  exact Hw4.
Qed.

Lemma turn_eq nd no fields st rec :
  loop_step nd no fields st rec
  = (fst (record_step nd no fields (fst st) rec),
     snd st ++ [snd (record_step nd no fields (fst st) rec)]).
Proof. unfold turn. now destruct (record_step nd no fields (fst st) rec). Qed.

Lemma turns_flat nd no fields h0 records :
  (forall rec, In rec records -> (rec < next h0)%nat /\ flat_record h0 rec) ->
  Forall has_source fields ->
  forall h acc,
    within nothing h0 h ->
    within nothing h0
      (fst (fold_left (loop_step nd no fields) records (h, acc))).
Proof.
  intros Hrecs Hsrc. induction records as [|rec records IH]; intros h acc Hw;
    [exact Hw|].
  destruct (Hrecs rec ltac:(now left)) as [Hrec Hflat].
  pose proof (build_record_flat nd no fields h0 h rec Hw Hrec Hflat Hsrc) as Hw1.
  cbn [fold_left]. rewrite turn_eq. cbn [fst snd].
  apply IH; [|exact Hw1]. intros r Hr. apply Hrecs. now right.
Qed.

(** X22. [apply_mappings] does not write into flat records. When every
    record is a dict of scalars and of lists of scalars, as the rows of a
    delimited sample are, and every mapped entry names its source field,
    every dict that the store held before the call is the same after
    it. *)
Theorem flat_records_are_not_written (h : heap) (records : list nat)
  (fields : list field) :
  (forall rec, In rec records -> (rec < next h)%nat /\ flat_record h rec) ->
  Forall has_source fields ->
  forall l, (l < next h)%nat ->
    cell (fst (run_mappings h records fields)) l = cell h l.
Proof.
  intros Hrecs Hsrc l Hl. unfold apply_mappings. cbv zeta.
  assert (Hw0 : within nothing h h).
  { apply within_refl. intros x []. }
  destruct (turns_flat
              (existsb (startswith (lit "destination.")) (mapped_targets fields))
              (existsb (startswith (lit "origin.")) (mapped_targets fields))
              fields h records Hrecs Hsrc h [] Hw0) as (_ & Hframe & _).
  apply Hframe; [exact Hl | tauto].
Qed.

End Shape.

Abbreviation ref_mappings :=
  (apply_mappings Ref.isdigit Ref.int_of_str Ref.float_of_str Ref.py_repr).

(** A record without a zip, under a mapping that asks for the zip of the
    destination. *)
Lemma destination_and_origin_are_ensured_witness :
  let h0 := snd (load_records [[(lit "city", PStr (lit "Oslo"))]] empty_heap) in
  let fields := [mkField (Some (lit "zip")) (Some (lit "destination.zip"))] in
  let out := ref_mappings h0 [0%nat] fields in
  snd out = [1%nat]
  /\ dict_mem (cell (fst out) 1) DESTINATION = true
  /\ readback 8 (fst out) (HRef 1) = PDict [(DESTINATION, PDict [])].
Proof.
  intros h0 fields out. split; [reflexivity|]. split; [|reflexivity].
  apply (destination_and_origin_are_ensured
           Ref.isdigit Ref.int_of_str Ref.float_of_str Ref.py_repr
           h0 [0%nat] fields 1%nat).
  - left. reflexivity.
  - reflexivity.
Defined.

(** The phone 0123. *)
Lemma digit_phone_is_renumbered_witness :
  built Ref.isdigit Ref.int_of_str Ref.float_of_str Ref.py_repr
    [[(lit "phone", PStr (lit "0123"))]]
    [mkField (Some (lit "phone")) (Some (lit "customer_contact.phone"))]
  = [PDict [(CUSTOMER_CONTACT, PDict [(PHONE, PStr (lit "123"))])]].
Proof.
  apply (digit_phone_is_renumbered
           Ref.isdigit Ref.int_of_str Ref.float_of_str Ref.py_repr
           (lit "phone") (lit "0123") 123);
    (discriminate || reflexivity).
Defined.

(** A row of a delimited sample, mapped to a nested path. *)
Lemma flat_records_are_not_written_witness :
  let h0 := snd (load_records [[(lit "city", PStr (lit "Oslo"))]] empty_heap) in
  let fields := [mkField (Some (lit "city")) (Some (lit "destination.city"))] in
  readback 8 (fst (ref_mappings h0 [0%nat] fields)) (HRef 1)
  = PDict [(DESTINATION, PDict [(lit "city", PStr (lit "Oslo"))])]
  /\ cell (fst (ref_mappings h0 [0%nat] fields)) 0 = cell h0 0.
Proof.
  intros h0 fields. split; [reflexivity|].
  apply (flat_records_are_not_written
           Ref.isdigit Ref.int_of_str Ref.float_of_str Ref.py_repr
           h0 [0%nat] fields).
  - intros rec [<-|[]]. split; [simpl; lia|].
    intros k v [[= <- <-]|[]]. reflexivity.
  - repeat constructor. exists 0x63, (lit "ity"). reflexivity.
  - simpl. lia.
Defined.

(** A value that is itself a dict is not copied but shared: when a later
    entry maps under the path that holds it, the builder writes into the
    dict of the record. *)
Lemma nested_value_is_written_through :
  let records := [[(lit "addr", PDict [(lit "city", PStr (lit "Oslo"))]);
                   (lit "zip", PStr (lit "0150"))]] in
  let h0 := snd (load_records records empty_heap) in
  let fields := [mkField (Some (lit "addr")) (Some (lit "destination"));
                 mkField (Some (lit "zip")) (Some (lit "destination.zip"))] in
  readback 8 h0 (HRef 1)
  = PDict [(lit "addr", PDict [(lit "city", PStr (lit "Oslo"))]);
           (lit "zip", PStr (lit "0150"))]
  /\ readback 8 (fst (ref_mappings h0 [1%nat] fields)) (HRef 1)
     = PDict [(lit "addr", PDict [(lit "city", PStr (lit "Oslo"));
                                  (lit "zip", PInt 150)]);
              (lit "zip", PStr (lit "0150"))].
Proof. split; reflexivity. Qed.

End BuilderMore.

(** ** Where the leaves of a canonical object come from *)

Module BuilderLeaves.
Import PyFacts DictFacts Flatten Builder BuilderProps BuilderSpec.

Abbreviation nothing := (fun _ : nat => False).

Lemma digits_fuel_not_nil fuel : forall n acc, acc <> [] -> digits_fuel fuel n acc <> [].
Proof.
  induction fuel as [|f IH]; intros n acc Hacc; [exact Hacc|]. simpl.
  destruct (n <? 10)%N; [discriminate | apply IH; discriminate].
Qed.

Lemma str_of_N_not_nil n : str_of_N n <> [].
Proof.
  unfold str_of_N. simpl.
  destruct (n <? 10)%N; [discriminate | apply digits_fuel_not_nil; discriminate].
Qed.

Lemma str_of_Z_not_nil z : str_of_Z z <> [].
Proof.
  unfold str_of_Z. destruct (z <? 0)%Z; [discriminate | apply str_of_N_not_nil].
Qed.

(** *** The lookup in a record of scalars *)

Lemma scalar_walk h rec part rest :
  scalar_record h rec ->
  walk (cell h) href_as_dict (HRef rec) (part :: rest)
  = match dict_get (cell h rec) part with
    | Some v => match rest with [] => Some v | _ => None end
    | None => None
    end.
Proof.
  intros Hs. cbn [walk href_as_dict].
  destruct (dict_get (cell h rec) part) as [v|] eqn:Hp; [|reflexivity].
  destruct rest as [|part2 rest]; [reflexivity|].
  apply dict_get_In in Hp. specialize (Hs _ _ Hp).
  destruct v; try discriminate; reflexivity.
Qed.

(** The lookup reads the record only. *)
Lemma scalar_lookup_same h h' rec c p :
  scalar_record h rec -> cell h' rec = cell h rec ->
  heap_lookup h' rec (Some (c :: p)) = heap_lookup h rec (Some (c :: p)).
Proof.
  intros Hs Hcell.
  assert (Hs' : scalar_record h' rec) by (unfold scalar_record; now rewrite Hcell).
  unfold heap_lookup, get_nested_value.
  destruct (split DOT (c :: p)) as [|part rest] eqn:Hsplit.
  { exfalso. exact (BuilderMore.split_from_not_nil _ _ _ Hsplit). }
  rewrite (scalar_walk h rec part rest Hs), (scalar_walk h' rec part rest Hs').
  now rewrite Hcell.
Qed.

(** It returns [None] or a value of the record. *)
Lemma scalar_lookup_In h rec c p :
  scalar_record h rec ->
  heap_lookup h rec (Some (c :: p)) = HNone
  \/ exists k, In (k, heap_lookup h rec (Some (c :: p))) (cell h rec).
Proof.
  intros Hs. unfold heap_lookup, get_nested_value.
  destruct (dict_get (cell h rec) (c :: p)) as [v|] eqn:Hd.
  { right. exists (c :: p). now apply dict_get_In. }
  destruct (split DOT (c :: p)) as [|part rest] eqn:Hsplit.
  { exfalso. exact (BuilderMore.split_from_not_nil _ _ _ Hsplit). }
  rewrite (scalar_walk h rec part rest Hs).
  assert (Hlast :
            match dict_get (cell h rec) (replace_char DOT UNDERSCORE (c :: p)) with
            | Some v => v
            | None => HNone
            end = HNone
            \/ exists k,
                 In (k, match dict_get (cell h rec)
                                (replace_char DOT UNDERSCORE (c :: p)) with
                        | Some v => v
                        | None => HNone
                        end) (cell h rec)).
  { destruct (dict_get (cell h rec) (replace_char DOT UNDERSCORE (c :: p)))
      as [w|] eqn:Hu; [right | now left].
    eexists. apply dict_get_In. exact Hu. }
  destruct (dict_get (cell h rec) part) as [v|] eqn:Hp; [|exact Hlast].
  destruct rest as [|part2 rest]; [|exact Hlast].
  right. exists part. now apply dict_get_In.
Qed.

Lemma scalar_flat h rec : scalar_record h rec -> flat_record h rec.
Proof.
  intros Hs k v Hin. specialize (Hs k v Hin). now destruct v.
Qed.

(** *** Items of the dicts that a turn makes *)

Section Items.
Variable P : pystr -> hval -> Prop.
Hypothesis P_ref : forall k l, P k (HRef l).
Variable a : nat.

Lemma cells_hold_alloc h : cells_hold P a h -> cells_hold P a (snd (alloc h [])).
Proof.
  intros H l k v Hl Hin. simpl in Hl.
  destruct (Nat.eq_dec l (next h)) as [->|Hne].
  - rewrite cell_alloc_new in Hin. destruct Hin.
  - rewrite cell_alloc_old in Hin by assumption. apply (H l); [lia | exact Hin].
Qed.

Lemma cells_hold_store h l k v :
  cells_hold P a h -> P k v -> cells_hold P a (store h l k v).
Proof.
  intros H Hv l' k' v' Hl Hin. rewrite cell_store in Hin.
  destruct (Nat.eqb_spec l' l) as [->|Hne]; [|exact (H l' k' v' Hl Hin)].
  apply dict_set_In in Hin as [[= -> ->]|Hin]; [exact Hv|].
  exact (H l k' v' Hl Hin).
Qed.

Lemma descend_hold parts :
  forall h cur, cells_hold P a h -> cells_hold P a (fst (descend h cur parts)).
Proof.
  induction parts as [|part rest IH]; intros h cur H; [exact H|].
  assert (Hfresh :
            cells_hold P a
              (fst (descend (store (snd (alloc h [])) cur part (HRef (next h)))
                      (next h) rest))).
  { apply IH, cells_hold_store; [now apply cells_hold_alloc | apply P_ref]. }
  destruct (dict_get (cell h cur) part) as [[ | | | | | | l]|] eqn:Hget;
    try (rewrite descend_fresh by (rewrite Hget; discriminate); exact Hfresh).
  rewrite (descend_found _ _ _ _ _ Hget). now apply IH.
Qed.

Lemma assign_hold h canon mapped v :
  cells_hold P a h -> P (List.last (split DOT mapped) []) v ->
  cells_hold P a (assign h canon mapped v).
Proof.
  intros H Hv. unfold assign.
  pose proof (descend_hold (removelast (split DOT mapped)) h canon H) as Hd.
  destruct (descend h canon (removelast (split DOT mapped))) as [h1 cur].
  now apply cells_hold_store.
Qed.

Lemma ensure_object_hold needed key canon h :
  cells_hold P a h -> cells_hold P a (ensure_object needed key canon h).
Proof.
  intros H. unfold ensure_object.
  destruct (needed && negb (dict_mem (cell h canon) key)); [|exact H].
  change (alloc h []) with (next h, snd (alloc h [])). cbv iota.
  apply cells_hold_store; [now apply cells_hold_alloc | apply P_ref].
Qed.

End Items.

(** The dicts that an object reaches stay inside a closed set. *)
Lemma reaches_closed (F : nat -> Prop) h h' c :
  closed F h -> (forall l, F l -> cell h' l = cell h l) -> F c ->
  forall l, reaches h' c l -> F l.
Proof.
  intros Hc Hsame Hstart l Hr.
  induction Hr as [|l k v l' _ IH Hin Hl']; [exact Hstart|].
  rewrite (Hsame l IH) in Hin.
  destruct (Hc l IH) as [_ Hrefs]. exact (Hrefs k v l' Hin Hl').
Qed.

Section Origin.
Variable str_isdigit : pystr -> bool.
Variable int_of_str : pystr -> option Z.
Variable float_of_str : pystr -> option pyfloat.
Variable py_repr : heap -> hval -> pystr.
(** The store at the call, and the mapping entries. *)
Variable h0 : heap.
Variable fields : list field.
Hypothesis fields_named : Forall has_source fields.

Abbreviation origin :=
  (item_origin str_isdigit int_of_str float_of_str py_repr h0).
Abbreviation field_step := (build_field str_isdigit int_of_str float_of_str).
Abbreviation record_step :=
  (build_record str_isdigit int_of_str float_of_str py_repr).
Abbreviation loop_step := (turn str_isdigit int_of_str float_of_str py_repr).

Lemma origin_ref rec k l : origin rec fields k (HRef l).
Proof. left. now exists l. Qed.

Section OneRecord.
Variable rec : nat.
Hypothesis rec_scalar : scalar_record h0 rec.
(** The store when the turn of the record begins. *)
Variable hs : heap.
Hypothesis rec_below : (rec < next hs)%nat.
Hypothesis rec_same : cell hs rec = cell h0 rec.

Lemma build_field_origin canon h f :
  In f fields ->
  within nothing hs h ->
  cells_hold (origin rec fields) (next hs) h ->
  cells_hold (origin rec fields) (next hs) (field_step rec canon h f).
Proof.
  intros Hf Hw H. unfold build_field.
  destruct (target f) as [mapped|] eqn:Ht; [|exact H].
  pose proof (Forall_In _ _ fields_named _ Hf) as Hsrc.
  unfold has_source in Hsrc. rewrite Ht in Hsrc. destruct Hsrc as (c & p & Hpf).
  assert (Hlook : heap_lookup h rec (partner_field f)
                  = heap_lookup h0 rec (partner_field f)).
  { rewrite Hpf. apply scalar_lookup_same; [exact rec_scalar|].
    destruct Hw as (_ & Hframe & _).
    rewrite (Hframe rec rec_below (fun x => x)). exact rec_same. }
  assert (Hkeep : heap_lookup h rec (partner_field f) <> HNone ->
                  heap_lookup h rec (partner_field f) <> HStr [] ->
                  cells_hold (origin rec fields) (next hs)
                    (assign h canon mapped
                       (coerce str_isdigit int_of_str float_of_str
                          (heap_lookup h rec (partner_field f))))).
  { intros H1 H2. apply assign_hold; [apply origin_ref | exact H|].
    right. left. exists f. split; [exact Hf|]. exists mapped.
    rewrite <- Hlook. repeat split; assumption. }
  destruct (heap_lookup h rec (partner_field f)) as [ | | | | [|x s] | | ];
    try exact H; apply Hkeep; discriminate.
Qed.

Lemma build_fields_origin canon fs :
  incl fs fields ->
  forall h,
    within nothing hs h ->
    foot nothing (next hs) h canon ->
    cells_hold (origin rec fields) (next hs) h ->
    cells_hold (origin rec fields) (next hs) (fold_left (field_step rec canon) fs h).
Proof.
  assert (Hflat : flat_record hs rec).
  { apply scalar_flat. unfold scalar_record. rewrite rec_same. exact rec_scalar. }
  induction fs as [|f fs IH]; intros Hincl h Hw Hcanon H; [exact H|].
  cbn [fold_left].
  assert (Hf : In f fields) by (apply Hincl; now left).
  destruct (BuilderMore.build_field_flat str_isdigit int_of_str float_of_str
              hs h rec canon f Hw rec_below Hflat
              (Forall_In _ _ fields_named _ Hf) Hcanon) as [Hw1 Hle].
  apply IH.
  - intros x Hx. apply Hincl. now right.
  - exact Hw1.
  - exact (foot_mono _ _ _ _ _ Hle Hcanon).
  - now apply build_field_origin.
Qed.

Lemma phone_to_string_origin canon h :
  within nothing hs h ->
  foot nothing (next hs) h canon ->
  cells_hold (origin rec fields) (next hs) h ->
  cells_hold (origin rec fields) (next hs) (phone_to_string py_repr canon h).
Proof.
  intros Hw Hcanon H. unfold phone_to_string.
  destruct (dict_get (cell h canon) CUSTOMER_CONTACT) as [x|] eqn:Hcc; [|exact H].
  destruct x as [ | | | | | | cc]; try exact H.
  assert (Hfoot : foot nothing (next hs) h cc).
  { destruct (within_closed _ _ _ Hw canon Hcanon) as [_ Hrefs].
    apply (Hrefs CUSTOMER_CONTACT (HRef cc) cc);
      [now apply dict_get_In | now left]. }
  destruct Hfoot as [[]|Hcc_in].
  destruct (dict_get (cell h cc) PHONE) as [ph|] eqn:Hph; [|exact H].
  pose proof (H cc PHONE ph Hcc_in (dict_get_In _ _ _ Hph)) as Hfrom.
  assert (Hnew : ph <> HNone -> (forall s, ph <> HStr s) ->
                 cells_hold (origin rec fields) (next hs)
                   (store h cc PHONE (HStr (py_str py_repr h ph)))).
  { intros Hn Hs. apply cells_hold_store; [exact H|].
    right. right. split; [reflexivity|]. exists h, ph.
    split; [reflexivity|]. split; [exact Hn|]. split; [exact Hs|].
    destruct Hfrom as [Hr | [Hwr | (_ & h' & ph' & -> & _)]];
      [now left | now right | now destruct (Hs (py_str py_repr h' ph'))]. }
  destruct ph; try exact H; apply Hnew; discriminate.
Qed.

(** One turn: the record is not written, and every item of the dicts made
    in the turn has its origin in the record. *)
Lemma build_record_origin nd no :
  let h' := fst (record_step nd no fields hs rec) in
  within nothing hs h'
  /\ snd (record_step nd no fields hs rec) = next hs
  /\ (next hs < next h')%nat
  /\ cells_hold (origin rec fields) (next hs) h'.
Proof.
  assert (Hflat : flat_record hs rec).
  { apply scalar_flat. unfold scalar_record. rewrite rec_same. exact rec_scalar. }
  assert (Hw : within nothing hs hs) by (apply within_refl; intros x []).
  unfold build_record. cbv zeta.
  change (alloc hs []) with (next hs, snd (alloc hs [])). cbv iota.
  destruct (within_alloc nothing hs hs Hw) as [Hwa Hcanon0].
  assert (H0 : cells_hold (origin rec fields) (next hs) (snd (alloc hs []))).
  { intros l k v Hl Hin. simpl in Hl. assert (l = next hs) as -> by lia.
    rewrite cell_alloc_new in Hin. destruct Hin. }
  set (ha := snd (alloc hs [])) in *.
  destruct (BuilderMore.build_fields_flat str_isdigit int_of_str float_of_str
              hs rec (next hs) fields rec_below Hflat fields_named ha Hwa Hcanon0)
    as [Hw1 Hle1].
  pose proof (build_fields_origin (next hs) fields (incl_refl _) ha Hwa Hcanon0 H0)
    as H1.
  set (h1 := fold_left _ fields ha) in *.
  pose proof (foot_mono _ _ _ _ _ Hle1 Hcanon0) as Hcanon1.
  destruct (ensure_object_within nothing hs h1 nd DESTINATION (next hs) Hw1 Hcanon1)
    as [Hw2 Hle2].
  pose proof (ensure_object_hold _ (origin_ref rec) (next hs) nd DESTINATION
                (next hs) h1 H1) as H2.
  set (h2 := ensure_object nd DESTINATION (next hs) h1) in *.
  pose proof (foot_mono _ _ _ _ _ Hle2 Hcanon1) as Hcanon2.
  destruct (ensure_object_within nothing hs h2 no ORIGIN (next hs) Hw2 Hcanon2)
    as [Hw3 Hle3].
  pose proof (ensure_object_hold _ (origin_ref rec) (next hs) no ORIGIN
                (next hs) h2 H2) as H3.
  set (h3 := ensure_object no ORIGIN (next hs) h2) in *.
  pose proof (foot_mono _ _ _ _ _ Hle3 Hcanon2) as Hcanon3.
  destruct (phone_to_string_within py_repr nothing hs h3 (next hs) Hw3 Hcanon3)
    as [Hw4 Hle4].
  cbn [fst snd]. split; [exact Hw4|]. split; [reflexivity|].
  split; [subst ha; simpl in Hle1; lia|].
  now apply phone_to_string_origin.
Qed.

End OneRecord.

(** The loop over the records: the dicts of every canonical object are
    those made in the turn of its record. *)
Lemma turns_origin records :
  (forall rec, In rec records -> (rec < next h0)%nat /\ scalar_record h0 rec) ->
  forall nd no h acc,
    (next h0 <= next h)%nat ->
    (forall l, (l < next h0)%nat -> cell h l = cell h0 l) ->
    exists canons h',
      fold_left (loop_step nd no fields) records (h, acc) = (h', acc ++ canons)
      /\ (next h <= next h')%nat
      /\ (forall l, (l < next h)%nat -> cell h' l = cell h l)
      /\ Forall2
           (fun rec canon =>
              forall l k v,
                reaches h' canon l -> In (k, v) (cell h' l) ->
                origin rec fields k v)
           records canons.
Proof.
  induction records as [|rec records IH]; intros Hrecs nd no h acc Hn Hsame.
  - exists [], h. rewrite app_nil_r. repeat split; [lia | constructor].
  - destruct (Hrecs rec ltac:(now left)) as [Hrec Hscalar].
    pose proof (build_record_origin rec Hscalar h ltac:(lia) (Hsame rec Hrec) nd no)
      as Hturn. cbv zeta in Hturn.
    destruct Hturn as (Hw & Hcanon & Hlt & Hgood).
    destruct (IH (fun r Hr => Hrecs r (or_intror Hr)) nd no
                (fst (record_step nd no fields h rec))
                (acc ++ [snd (record_step nd no fields h rec)])
                ltac:(lia))
      as (canons & h' & Hfold & Hle' & Hframe' & Hall).
    { intros l Hl. destruct Hw as (_ & Hframe & _).
      rewrite (Hframe l ltac:(lia) (fun x => x)). now apply Hsame. }
    exists (snd (record_step nd no fields h rec) :: canons), h'.
    split.
    { cbn [fold_left]. rewrite BuilderMore.turn_eq. cbn [fst snd].
      rewrite Hfold. now rewrite <- app_assoc. }
    split; [lia|]. split.
    { intros l Hl. rewrite Hframe' by lia.
      destruct Hw as (_ & Hframe & _). exact (Hframe l Hl (fun x => x)). }
    constructor; [|exact Hall].
    intros l k v Hreach Hin. rewrite Hcanon in Hreach.
    set (h1 := fst (record_step nd no fields h rec)) in *.
    assert (Hl : foot nothing (next h) h1 l).
    { apply (reaches_closed (foot nothing (next h) h1) h1 h' (next h)).
      - exact (within_closed _ _ _ Hw).
      - intros x [[]|Hx]. apply Hframe'. lia.
      - right. lia.
      - exact Hreach. }
    destruct Hl as [[]|Hl].
    rewrite Hframe' in Hin by lia.
    exact (Hgood l k v Hl Hin).
Qed.

(** *** Values that are not empty *)

Hypothesis repr_not_empty : forall h v, py_repr h v <> [].

Lemma coerce_not_empty v :
  scalar_value v = true -> is_blank v = false -> v <> HStr [] ->
  holds_empty (coerce str_isdigit int_of_str float_of_str v) = false.
Proof.
  destruct v as [ | | | | s | | ]; try discriminate; try reflexivity.
  intros _ Hb Hne. destruct s as [|c s]; [congruence|].
  cbn [coerce]. cbn [is_blank] in Hb.
  destruct (str_isdigit (strip (c :: s))).
  - destruct (int_of_str (strip (c :: s))); reflexivity.
  - destruct (float_of_str (strip (c :: s))); [reflexivity|].
    destruct (strip (c :: s)); [discriminate | reflexivity].
Qed.

Lemma py_str_not_empty h ph :
  ph <> HNone -> (forall s, ph <> HStr s) -> py_str py_repr h ph <> [].
Proof.
  intros Hn Hs. destruct ph as [ | [|] | z | f | s | l | l]; cbn [py_str];
    try apply repr_not_empty.
  - congruence.
  - discriminate.
  - discriminate.
  - apply str_of_Z_not_nil.
  - now destruct (Hs s).
Qed.

Lemma origin_not_empty rec k v :
  scalar_record h0 rec -> no_blank h0 rec ->
  origin rec fields k v -> holds_empty v = false.
Proof.
  intros Hscalar Hblank [(l & ->) | [(f & Hf & Hc) | (_ & h' & ph & -> & Hn & Hs & _)]].
  - reflexivity.
  - destruct Hc as (mapped & Ht & _ & Hnone & Hempty & ->).
    pose proof (Forall_In _ _ fields_named _ Hf) as Hsrc.
    unfold has_source in Hsrc. rewrite Ht in Hsrc. destruct Hsrc as (c & p & Hpf).
    rewrite Hpf in *.
    destruct (scalar_lookup_In h0 rec c p Hscalar) as [Hx|(k' & Hx)];
      [contradiction|].
    apply coerce_not_empty;
      [exact (Hscalar _ _ Hx) | exact (Hblank _ _ Hx) | exact Hempty].
  - pose proof (py_str_not_empty h' ph Hn Hs) as Hne. cbn [holds_empty].
    destruct (py_str py_repr h' ph); [congruence | reflexivity].
Qed.

End Origin.

Lemma Forall2_In_r {A B} (R : A -> B -> Prop) l1 l2 y :
  Forall2 R l1 l2 -> In y l2 -> exists x, In x l1 /\ R x y.
Proof.
  induction 1 as [|a b l1 l2 Hab _ IH]; [intros []|].
  intros [<-|Hy].
  - exists a. split; [now left | exact Hab].
  - destruct (IH Hy) as (x & Hx & HR). exists x. split; [now right | exact HR].
Qed.

(** C3, amended. For records of scalars and mapping entries that name
    their source field, every item of the canonical object that
    [apply_mappings] returns for a record has its origin in an entry whose
    resolved value in that record is neither [None] nor the empty string:
    it is that value after the conversions, under the last segment of the
    entry's path, or the phone made a string, or it names a dict of the
    object. An entry whose resolved value is absent or the empty string so
    contributes no leaf to the object of that record. Consequently, when
    no record holds a blank string, no canonical object holds the empty
    string at a leaf ([repr], which makes the string of a phone that is a
    float or a dict, never returns the empty string). *)
Theorem absent_or_empty_value_writes_no_leaf
  (str_isdigit : pystr -> bool) (int_of_str : pystr -> option Z)
  (float_of_str : pystr -> option pyfloat) (py_repr : heap -> hval -> pystr)
  (h : heap) (records : list nat) (fields : list field) :
  (forall rec, In rec records -> (rec < next h)%nat /\ scalar_record h rec) ->
  Forall has_source fields ->
  let out :=
    apply_mappings str_isdigit int_of_str float_of_str py_repr h records fields in
  Forall2
    (fun rec canon =>
       forall l k v,
         reaches (fst out) canon l -> In (k, v) (cell (fst out) l) ->
         item_origin str_isdigit int_of_str float_of_str py_repr h rec fields k v)
    records (snd out)
  /\ ((forall h' v, py_repr h' v <> []) ->
      (forall rec, In rec records -> no_blank h rec) ->
      forall canon l k v,
        In canon (snd out) ->
        reaches (fst out) canon l -> In (k, v) (cell (fst out) l) ->
        holds_empty v = false).
Proof.
  intros Hrecs Hsrc. cbv zeta. unfold apply_mappings. cbv zeta.
  destruct (turns_origin str_isdigit int_of_str float_of_str py_repr h fields
              Hsrc records Hrecs
              (existsb (startswith (lit "destination.")) (mapped_targets fields))
              (existsb (startswith (lit "origin.")) (mapped_targets fields))
              h [] (Nat.le_refl _) (fun l _ => eq_refl))
    as (canons & h' & Hfold & _ & _ & Hall).
  rewrite Hfold. cbn [fst snd app]. split; [exact Hall|].
  intros Hrepr Hblank canon l k v Hcanon Hreach Hin.
  destruct (Forall2_In_r _ _ _ _ Hall Hcanon) as (rec & Hrec & Horigin).
  apply (origin_not_empty str_isdigit int_of_str float_of_str py_repr h fields
           Hsrc Hrepr rec k v).
  - now destruct (Hrecs rec Hrec).
  - now apply Hblank.
  - exact (Horigin l k v Hreach Hin).
Qed.

(** Three rows of a delimited sample: the first without a zip, the
    second without a city and without a phone, the third with a
    tracking number only. *)
Lemma absent_or_empty_value_writes_no_leaf_witness :
  let rows :=
    [[(lit "city", PStr (lit "Oslo")); (lit "zip", PStr []);
      (lit "phone", PStr (lit "5551234")); (lit "awb", PStr (lit "A1"))];
     [(lit "city", PStr []); (lit "zip", PStr (lit "0150"));
      (lit "phone", PNone); (lit "awb", PStr (lit "A2"))];
     [(lit "city", PStr []); (lit "zip", PStr []);
      (lit "phone", PNone); (lit "awb", PStr (lit "A3"))]] in
  let h := snd (load_records rows empty_heap) in
  let fields :=
    [mkField (Some (lit "awb")) (Some (lit "tracking_id"));
     mkField (Some (lit "city")) (Some (lit "destination.city"));
     mkField (Some (lit "zip")) (Some (lit "destination.zip"));
     mkField (Some (lit "phone")) (Some (lit "customer_contact.phone"))] in
  let out :=
    apply_mappings Ref.isdigit Ref.int_of_str Ref.float_of_str Ref.py_repr
      h [0%nat; 1%nat; 2%nat] fields in
  List.map (fun canon => readback 8 (fst out) (HRef canon)) (snd out)
  = [PDict [(lit "tracking_id", PStr (lit "A1"));
            (lit "destination", PDict [(lit "city", PStr (lit "Oslo"))]);
            (lit "customer_contact",
             PDict [(lit "phone", PStr (lit "5551234"))])];
     PDict [(lit "tracking_id", PStr (lit "A2"));
            (lit "destination", PDict [(lit "zip", PInt 150)])];
     PDict [(lit "tracking_id", PStr (lit "A3"));
            (lit "destination", PDict [])]]
  /\ forall canon l k v,
       In canon (snd out) ->
       reaches (fst out) canon l -> In (k, v) (cell (fst out) l) ->
       holds_empty v = false.
Proof.
  intros rows h fields out. split; [vm_compute; reflexivity|].
  assert (Hrecs : forall rec, In rec [0%nat; 1%nat; 2%nat] ->
                    (rec < next h)%nat /\ scalar_record h rec).
  { intros rec [<-|[<-|[<-|[]]]]; (split; [vm_compute; lia|]);
      intros k v Hin; vm_compute in Hin;
      repeat (destruct Hin as [[= <- <-]|Hin]; [reflexivity|]); destruct Hin. }
  assert (Hsrc : Forall has_source fields).
  { repeat constructor; eexists; eexists; reflexivity. }
  apply (proj2 (absent_or_empty_value_writes_no_leaf
                  Ref.isdigit Ref.int_of_str Ref.float_of_str Ref.py_repr
                  h [0%nat; 1%nat; 2%nat] fields Hrecs Hsrc)).
  - intros h' v. discriminate.
  - intros rec [<-|[<-|[<-|[]]]] k v Hin; vm_compute in Hin;
      repeat (destruct Hin as [[= <- <-]|Hin]; [reflexivity|]); destruct Hin.
Defined.

End BuilderLeaves.

(** ** The REST handler *)

Module RestProps.
Import PyFacts DictFacts Encoding Parse Spec Rest.

Lemma slice_to_3 {A} (l : list A) : slice_to 3 l = firstn 3 l.
Proof. reflexivity. Qed.

Section WithHandler.
Variable fs : pystr -> option bytes.
Variable json_loads : pystr -> option pyval.
Variable requests_get : pystr -> result (pystr * option pyval).
Variable py_repr : pyval -> pystr.

Abbreviation records_of := (rest_records py_repr).
Abbreviation handle := (handle_rest_sample fs json_loads requests_get py_repr).

Lemma rest_records_bounds data :
  (length (records_of data) <= 3)%nat
  /\ (is_list data = false -> records_of data <> []).
Proof.
  unfold rest_records. destruct data as [ | | | | | l | d]; simpl is_list;
    try (split; [simpl; lia | discriminate]).
  - split; [rewrite slice_to_3, length_firstn; lia | discriminate].
  - cbv zeta. destruct (first_container d rest_keys) as [l|].
    + rewrite slice_to_3. destruct (firstn 3 l) as [|x r] eqn:E.
      * split; [simpl; lia | discriminate].
      * split; [|discriminate]. rewrite <- E, length_firstn. lia.
    + split; [simpl; lia | discriminate].
Qed.

(** X23. [handle_rest_sample] returns at most three records, and never an
    empty sample for a document that is not a list: an object is wrapped
    when it holds no list under [shipments], [data] or [items], and also
    when the first of these keys that holds a list holds an empty one, the
    keys after it not being tried. *)
Theorem rest_sample_size (file_or_url : pystr) (s : sample) :
  handle file_or_url = Ok s ->
  (length (sample_records s) <= 3)%nat
  /\ transport s = lit "rest"
  /\ forall d, dict_get d (lit "shipments") = Some (PList []) ->
               records_of (PDict d) = [PDict d].
Proof.
  unfold handle_rest_sample.
  destruct (fetch fs json_loads requests_get file_or_url) as [[raw_text data]|e];
    [|discriminate].
  intros [= <-]. simpl. split; [apply rest_records_bounds|].
  split; [reflexivity|].
  intros d Hd. unfold rest_records, rest_keys. simpl first_container.
  now rewrite Hd.
Qed.

(** X24. The handler and the parser of [ingest.py] do not choose the same
    records in the same document: with a list under [data] and a list
    under [items], and none under [shipments], the handler takes the first
    three of [data] and the parser the first [max_rows] of [items]. *)
Theorem rest_and_parser_choose_differently (d : dict pyval)
  (l1 l2 : list pyval) (max_rows : Z) :
  ~ list_valued d (lit "shipments") ->
  dict_get d (lit "data") = Some (PList l1) -> l1 <> [] ->
  dict_get d (lit "items") = Some (PList l2) ->
  records_of (PDict d) = firstn 3 l1
  /\ json_records (PDict d) max_rows = Some (slice_to max_rows l2).
Proof.
  intros Hs Hd Hne Hi.
  assert (Hship : forall l, dict_get d (lit "shipments") <> Some (PList l))
    by (intros l H; apply Hs; now exists l).
  split.
  - unfold rest_records, rest_keys. cbn [first_container].
    destruct (dict_get d (lit "shipments")) as [[ | | | | | l | ]|] eqn:E;
      try (now destruct (Hship l)); rewrite Hd, slice_to_3;
      (destruct l1; [congruence | reflexivity]).
  - unfold json_records, container_keys. cbn [first_container].
    destruct (dict_get d (lit "shipments")) as [[ | | | | | l | ]|] eqn:E;
      try (now destruct (Hship l)); now rewrite Hi.
Qed.

(** X25. For a local path, [handle_rest_sample] raises
    [FileNotFoundError] exactly when the file is missing; a file that is
    there and is not UTF-8 makes it raise too, where the parser of
    [ingest.py] falls back on other encodings. *)
Theorem rest_local_errors (path : pystr) :
  is_url path = false ->
  (handle path = Raise FileNotFoundError <-> fs path = None)
  /\ forall raw, fs path = Some raw -> utf8_decode (ords raw) = None ->
       handle path = Raise OtherError.
Proof.
  intros Hurl. unfold handle_rest_sample, fetch. rewrite Hurl. split.
  - destruct (fs path) as [raw|]; [|tauto].
    split; [|discriminate].
    destruct (utf8_decode (ords raw)) as [txt|]; [|discriminate].
    cbv zeta. destruct (json_loads _); discriminate.
  - intros raw -> Hdec. now rewrite Hdec.
Qed.

End WithHandler.

(** A response with two shipments. *)
Lemma rest_sample_size_witness :
  let content := Ref.dq_bytes "{'shipments': [{'id': 1}, {'id': 2}]}" in
  let fs := Ref.one_file (lit "rest.json") content in
  exists s,
    handle_rest_sample fs Ref.json_loads (fun _ => Raise OtherError)
      (fun _ => []) (lit "rest.json") = Ok s
    /\ sample_records s = [PDict [(lit "id", PInt 1)]; PDict [(lit "id", PInt 2)]]
    /\ (length (sample_records s) <= 3)%nat.
Proof.
  intros content fs. eexists. split; [reflexivity|]. split; [reflexivity|].
  eapply (rest_sample_size fs Ref.json_loads (fun _ => Raise OtherError)
            (fun _ => []) (lit "rest.json")).
  reflexivity.
Defined.

(** A document with records under [data] and under [items]. *)
Lemma rest_and_parser_choose_differently_witness :
  let d := [(lit "status", PStr (lit "ok"));
            (lit "items", PList [PInt 1; PInt 2]);
            (lit "data", PList [PInt 9])] in
  rest_records (fun _ => []) (PDict d) = [PInt 9]
  /\ json_records (PDict d) 200 = Some [PInt 1; PInt 2].
Proof.
  intros d.
  apply (rest_and_parser_choose_differently (fun _ => []) d
           [PInt 9] [PInt 1; PInt 2] 200).
  - intros [l Hl]. discriminate.
  - reflexivity.
  - discriminate.
  - reflexivity.
Defined.

(** A file of one byte E9, Latin-1 for an e with an acute accent. *)
Lemma rest_local_errors_witness :
  let fs := Ref.one_file (lit "latin.json") [xe9] in
  handle_rest_sample fs Ref.json_loads (fun _ => Raise OtherError)
    (fun _ => []) (lit "latin.json") = Raise OtherError
  /\ read_file_bytes_to_text [xe9] = [0xE9].
Proof.
  intros fs. split; [|reflexivity].
  destruct (rest_local_errors fs Ref.json_loads (fun _ => Raise OtherError)
              (fun _ => []) (lit "latin.json")) as [_ H]; [reflexivity|].
  apply (H [xe9]); reflexivity.
Defined.

End RestProps.

(** ** Nested assignment *)

Module TransformProps.
Import PyFacts DictFacts Flatten Spec Transform.

Lemma first_occurrence (c : N) (s : pystr) :
  In c s -> exists a b, s = a ++ [c] ++ b /\ ~ In c a.
Proof.
  induction s as [|x s IH]; [intros []|].
  destruct (N.eqb_spec x c) as [->|Hne].
  - intros _. exists [], s. split; [reflexivity | intros []].
  - intros [H|H]; [congruence|].
    destruct (IH H) as (a & b & -> & Ha).
    exists (x :: a), b. split; [reflexivity|].
    intros [E|E]; [congruence | contradiction].
Qed.

Lemma split_not_nil c s : split c s <> [].
Proof.
  unfold split. generalize (@nil N). induction s as [|x s IH]; intros acc; simpl;
    [discriminate|].
  destruct (x =? c); [discriminate | apply IH].
Qed.

(** The segments of the written path lead to the written value. *)
Lemma walk_set_parts parts :
  parts <> [] ->
  forall d v,
    walk (fun d : dict pyval => d) tree_as_dict (PDict (set_parts d parts v)) parts
    = Some v.
Proof.
  induction parts as [|p rest IH]; [congruence|]. intros _ d v.
  destruct rest as [|p2 rest].
  - simpl. now rewrite dict_get_set_same.
  - change (set_parts d (p :: p2 :: rest) v)
      with (dict_set d p
              (PDict (set_parts match dict_get d p with
                                | Some (PDict c) => c
                                | _ => []
                                end (p2 :: rest) v))).
    cbn [walk tree_as_dict]. rewrite dict_get_set_same.
    apply IH. discriminate.
Qed.

Lemma set_parts_other parts :
  forall d v k,
    hd [] parts <> k -> parts <> [] ->
    dict_get (set_parts d parts v) k = dict_get d k.
Proof.
  destruct parts as [|p rest]; [congruence|]. intros d v k Hk _. simpl in Hk.
  destruct rest as [|p2 rest].
  - simpl. now apply dict_get_set_other.
  - change (set_parts d (p :: p2 :: rest) v)
      with (dict_set d p
              (PDict (set_parts match dict_get d p with
                                | Some (PDict c) => c
                                | _ => []
                                end (p2 :: rest) v))).
    now apply dict_get_set_other.
Qed.

(** X26. What [set_nested] writes, [get_nested_value] reads: after
    [set_nested(d, path, value)] the lookup of [path] in [d] returns
    [value], for a path that is not empty and, when it holds a dot, is
    not itself a key of [d]. *)
Theorem set_then_get (d : dict pyval) (path : pystr) (v : pyval) :
  path <> [] ->
  (In DOT path -> dict_get d path = None) ->
  lookup (set_nested d path v) (Some path) = v.
Proof.
  intros Hne Hkey. unfold set_nested.
  destruct (in_dec N.eq_dec DOT path) as [Hdot|Hnodot].
  - destruct (first_occurrence DOT path Hdot) as (a & b & E & Ha).
    assert (Hsplit : split DOT path = a :: split DOT b).
    { rewrite E. unfold split at 1. rewrite FlattenProps.split_from_app.
      now rewrite FlattenProps.split_from_no_dot. }
    apply FlattenProps.lookup_walk; [exact Hne | |].
    + rewrite set_parts_other.
      * now apply Hkey.
      * rewrite Hsplit. simpl. intros ->. contradiction.
      * apply split_not_nil.
    + apply walk_set_parts, split_not_nil.
  - unfold split. rewrite FlattenProps.split_from_no_dot by exact Hnodot.
    simpl. apply FlattenProps.lookup_direct; [exact Hne|].
    apply dict_get_set_same.
Qed.

(** The city of the destination, written into an object that holds a
    tracking number. *)
Lemma set_then_get_witness :
  let d := [(lit "tracking_id", PStr (lit "A1"))] in
  set_nested d (lit "destination.city") (PStr (lit "Oslo"))
  = [(lit "tracking_id", PStr (lit "A1"));
     (lit "destination", PDict [(lit "city", PStr (lit "Oslo"))])]
  /\ lookup (set_nested d (lit "destination.city") (PStr (lit "Oslo")))
       (Some (lit "destination.city"))
     = PStr (lit "Oslo").
Proof.
  intros d. split; [reflexivity|].
  apply (set_then_get d (lit "destination.city") (PStr (lit "Oslo")));
    [discriminate | reflexivity].
Defined.

End TransformProps.

(** ** JSON in the text of a model *)

Module ModelTextProps.
Import PyFacts StringFacts ModelText.

Lemma upto_last_absent c s : ~ In c s -> upto_last c s = None.
Proof.
  induction s as [|x s IH]; [reflexivity|]. intros H. simpl.
  rewrite IH by (intros Hin; apply H; now right).
  destruct (N.eqb_spec x c) as [->|Hne]; [|reflexivity].
  exfalso. apply H. now left.
Qed.

Lemma upto_last_closing c m post :
  ~ In c post -> upto_last c (m ++ [c] ++ post) = Some (m ++ [c]).
Proof.
  intros Hpost. induction m as [|x m IH]; simpl.
  - rewrite upto_last_absent by exact Hpost. now rewrite N.eqb_refl.
  - simpl in IH. now rewrite IH.
Qed.

Lemma first_span_skip a s :
  (forall c, In c a -> c <> LBRACE /\ c <> LBRACKET) ->
  first_span (a ++ s) = first_span s.
Proof.
  induction a as [|x a IH]; [reflexivity|]. intros H. simpl.
  destruct (H x ltac:(now left)) as [H1 H2].
  apply N.eqb_neq in H1, H2. rewrite H1, H2.
  apply IH. intros c Hc. apply H. now right.
Qed.

Lemma strip_around a x m y b :
  is_space x = false -> is_space y = false ->
  strip (a ++ x :: m ++ [y] ++ b) = lstrip a ++ x :: m ++ [y] ++ rstrip b.
Proof.
  intros Hx Hy. unfold strip. rewrite lstrip_app_nonspace by exact Hx.
  unfold rstrip.
  replace (lstrip a ++ x :: m ++ [y] ++ b)
    with ((lstrip a ++ x :: m) ++ y :: b) by (now rewrite <- app_assoc).
  rewrite rev_app_distr. simpl rev at 1. rewrite <- app_assoc. simpl app at 2.
  rewrite lstrip_app_nonspace by exact Hy.
  rewrite rev_app_distr. simpl rev at 1. rewrite rev_involutive.
  rewrite <- !app_assoc. reflexivity.
Qed.

Lemma first_span_unclosed s :
  ~ In RBRACE s -> ~ In RBRACKET s -> first_span s = None.
Proof.
  induction s as [|x s IH]; [reflexivity|]. intros H1 H2.
  assert (H1' : ~ In RBRACE s) by (intros H; apply H1; now right).
  assert (H2' : ~ In RBRACKET s) by (intros H; apply H2; now right).
  simpl. rewrite !upto_last_absent by assumption. rewrite IH by assumption.
  now destruct (x =? LBRACE), (x =? LBRACKET).
Qed.

Section WithParser.
Variable json_loads : pystr -> option pyval.

Abbreviation extract := (_extract_json_from_model_text json_loads).

(** X27. The words of a model around a JSON object are ignored: when the
    text before the object holds no brace and no bracket and the text
    after it no closing brace, and the whole text is not JSON,
    [_extract_json_from_model_text] returns the parse of the object, from
    its opening brace to its last closing brace. *)
Theorem chatter_around_json_is_ignored (pre mid post : pystr) (v : pyval) :
  (forall c, In c pre -> c <> LBRACE /\ c <> LBRACKET) ->
  ~ In RBRACE post ->
  json_loads (strip (pre ++ LBRACE :: mid ++ [RBRACE] ++ post)) = None ->
  json_loads (LBRACE :: mid ++ [RBRACE]) = Some v ->
  extract (pre ++ LBRACE :: mid ++ [RBRACE] ++ post) = Ok v.
Proof.
  intros Hpre Hpost Hwhole Hdoc.
  unfold _extract_json_from_model_text. cbv zeta. rewrite Hwhole.
  rewrite strip_around by reflexivity.
  rewrite first_span_skip
    by (intros c Hc; apply Hpre; now apply lstrip_In).
  cbn [first_span]. rewrite N.eqb_refl.
  rewrite upto_last_closing
    by (intros H; apply Hpost; now apply rstrip_In).
  now rewrite Hdoc.
Qed.

(** X28. A text that is not JSON and holds no closing brace and no
    closing bracket makes [_extract_json_from_model_text] raise, whatever
    braces and brackets it opens. *)
Theorem text_without_json_raises (text : pystr) :
  json_loads (strip text) = None ->
  ~ In RBRACE text -> ~ In RBRACKET text ->
  extract text = Raise OtherError.
Proof.
  intros Hnone H1 H2. unfold _extract_json_from_model_text. cbv zeta.
  rewrite Hnone, first_span_unclosed; [reflexivity | |];
    intros H; [apply H1 | apply H2]; now apply strip_In.
Qed.

End WithParser.

(** An answer with words before and after the object. *)
Lemma chatter_around_json_is_ignored_witness :
  _extract_json_from_model_text Ref.json_loads
    (Ref.dq "Here is the schema: {'fields': []} Hope this helps.")
  = Ok (PDict [(lit "fields", PList [])]).
Proof.
  apply (chatter_around_json_is_ignored Ref.json_loads
           (lit "Here is the schema: ") (Ref.dq "'fields': []")
           (lit " Hope this helps.") (PDict [(lit "fields", PList [])])).
  - intros c Hc. vm_compute in Hc. vm_compute.
    repeat (destruct Hc as [<-|Hc]; [split; discriminate|]). destruct Hc.
  - vm_compute. intuition discriminate.
  - vm_compute. reflexivity.
  - vm_compute. reflexivity.
Defined.

(** A refusal, with a brace that nothing closes. *)
Lemma text_without_json_raises_witness :
  _extract_json_from_model_text Ref.json_loads (lit "I cannot { help.")
  = Raise OtherError.
Proof.
  apply (text_without_json_raises Ref.json_loads (lit "I cannot { help."));
    [vm_compute; reflexivity | |]; vm_compute; intuition discriminate.
Defined.

End ModelTextProps.

(** ** The log of the interface *)

Module UiProps.
Import Ui.

Lemma firstn_cons_firstn {A} n (x : A) l :
  firstn (S n) (x :: firstn (S n) l) = firstn (S n) (x :: l).
Proof.
  cbn [firstn]. f_equal. rewrite firstn_firstn. f_equal. lia.
Qed.

Lemma log_last calls c st :
  fold_left log_llm (calls ++ [c]) st = log_llm (fold_left log_llm calls st) c.
Proof. now rewrite fold_left_app. Qed.

Lemma log_fold calls :
  forall c st,
    shown (fold_left log_llm (calls ++ [c]) st)
    = firstn 200 (rev (List.map entry_of (calls ++ [c])) ++ shown st).
Proof.
  induction calls as [|c0 calls IH] using rev_ind; intros c st.
  - reflexivity.
  - rewrite log_last. unfold log_llm at 1. cbn [shown].
    fold (shown (fold_left log_llm (calls ++ [c0]) st)). rewrite IH.
    rewrite (List.map_app entry_of (calls ++ [c0]) [c]), rev_app_distr.
    cbn [List.map rev app]. change 200%nat with (S 199).
    apply firstn_cons_firstn.
Qed.

(** X29. [log_llm] keeps the interface's log newest first and never
    longer than 200 entries: after any sequence of calls the log is the
    entries of the calls, the last call first, followed by what the log
    held before, cut to 200; the entry of the last call is always its
    head. *)
Theorem llm_log_is_recent_first (calls : list log_call) (c : log_call)
  (st : option (list log_entry)) :
  let logs := shown (fold_left log_llm (calls ++ [c]) st) in
  logs = firstn 200 (rev (List.map entry_of (calls ++ [c])) ++ shown st)
  /\ (length logs <= 200)%nat
  /\ hd_error logs = Some (entry_of c).
Proof.
  cbv zeta. rewrite log_fold. split; [reflexivity|]. split.
  - rewrite length_firstn. lia.
  - rewrite (List.map_app entry_of calls [c]), rev_app_distr. reflexivity.
Qed.

End UiProps.
